(** * Trajectory signal processing of football-match-intelligence

    A shallow embedding of the preprocessing core of the dashboard
    (src/utils/coordinates.py, src/utils/physics.py,
    src/preprocessing/filters.py, features.py, time.py and data.py) and of
    the helpers around it (src/utils/pitch.py, src/utils/misc.py,
    src/preprocessing/segmentation.py, the event coordinates of
    src/data_loader.py), with the properties of it that the specification
    states and further ones read off the code.

    Numbers.  A Python/NumPy float is modelled as an exact rational or NaN
    ([float := option Q], [None] is NaN): rounding and the infinities are
    not modelled, a division by zero gives NaN.  A sum, a quotient or a
    floor is therefore that of the exact values, from which the program's
    differs by its rounding.  The square root is the one
    operation that leaves the rationals; the functions that use it take it
    as the argument [np_sqrt], and every general theorem holds for any
    choice of it.  Closed examples use [sqrt_dyadic], a root rounded down
    to 52 binary places, which is exact on the squares they meet.

    Exceptions.  Code that can raise returns a [pyresult]. *)

From Stdlib Require Import QArith Qround Qabs ZArith List Lia Lqa String Ascii Bool.
From Stdlib Require Import DecimalString.
From stdpp Require Import base option list gmap.

Open Scope Q_scope.

(** ** Python results *)

Inductive pyexn : Type := IndexError | ValueError | ZeroDivisionError | TypeError.

Inductive pyresult (A : Type) : Type :=
| Return (a : A)
| Raise (e : pyexn).
Arguments Return {A} a.
Arguments Raise {A} e.

Definition bind {A B : Type} (m : pyresult A) (k : A -> pyresult B) : pyresult B :=
  match m with
  | Return a => k a
  | Raise e => Raise e
  end.

Notation "'let*' x ':=' m 'in' k" := (bind m (fun x => k))
  (at level 10, x name, m at level 100, k at level 200).

(** ** Floats: a rational or NaN *)

Abbreviation float := (option Q).
Abbreviation NaN := (@None Q).

Definition of_nat (n : nat) : Q := inject_Z (Z.of_nat n).

Definition lift2 (f : Q -> Q -> Q) (a b : float) : float :=
  match a, b with
  | Some x, Some y => Some (f x y)
  | _, _ => NaN
  end.

Definition fadd : float -> float -> float := lift2 Qplus.
Definition fsub : float -> float -> float := lift2 Qminus.
Definition fmul : float -> float -> float := lift2 Qmult.

Definition fdiv (a b : float) : float :=
  match a, b with
  | Some x, Some y => if Qeq_bool y 0 then NaN else Some (x / y)
  | _, _ => NaN
  end.

Definition fabs (a : float) : float := option_map Qabs a.

Definition isnan (a : float) : bool :=
  match a with Some _ => false | None => true end.

(** Comparisons with NaN are false, as in IEEE 754. *)
Definition Qlt_bool (x y : Q) : bool := negb (Qle_bool y x).

Definition fle (a b : float) : bool :=
  match a, b with Some x, Some y => Qle_bool x y | _, _ => false end.
Definition flt (a b : float) : bool :=
  match a, b with Some x, Some y => Qlt_bool x y | _, _ => false end.
Definition fge (a b : float) : bool := fle b a.
Definition fgt (a b : float) : bool := flt b a.

(** Equality of floats as numbers: [Qeq] on rationals, NaN only with NaN. *)
Definition feq (a b : float) : Prop :=
  match a, b with
  | Some x, Some y => x == y
  | None, None => True
  | _, _ => False
  end.

(** ** NumPy *)

(** Element-wise binary operation under NumPy's broadcasting of 1-d arrays:
    equal lengths, or one operand of length one; anything else raises. *)
Fixpoint zip2 {A B C : Type} (f : A -> B -> C) (a : list A) (b : list B) : list C :=
  match a, b with
  | x :: a', y :: b' => f x y :: zip2 f a' b'
  | _, _ => []
  end.

Definition broadcast2 {A B C : Type} (f : A -> B -> C) (a : list A) (b : list B)
  : pyresult (list C) :=
  if Nat.eqb (length a) (length b) then Return (zip2 f a b)
  else match a, b with
       | [x], _ => Return (map (f x) b)
       | _, [y] => Return (map (fun x => f x y) a)
       | _, _ => Raise ValueError
       end.

(** [np.diff(a)]: [a[i+1] - a[i]], one element shorter (empty for [len <= 1]). *)
Fixpoint np_diff (a : list float) : list float :=
  match a with
  | x :: (y :: _) as a' => fsub y x :: np_diff a'
  | _ => []
  end.

(** [np.where(mask)[0]]: the indices at which the mask holds, ascending. *)
Fixpoint where_from (i : nat) (mask : list bool) : list nat :=
  match mask with
  | [] => []
  | b :: mask' => if b then i :: where_from (S i) mask' else where_from (S i) mask'
  end.
Definition np_where (mask : list bool) : list nat := where_from 0 mask.

(** [a[mask]]: boolean-mask indexing; the lengths must agree. *)
Fixpoint select {A : Type} (mask : list bool) (a : list A) : list A :=
  match mask, a with
  | b :: mask', x :: a' => if b then x :: select mask' a' else select mask' a'
  | _, _ => []
  end.

Definition mask_index {A : Type} (a : list A) (mask : list bool) : pyresult (list A) :=
  if Nat.eqb (length mask) (length a) then Return (select mask a) else Raise IndexError.

(** [a[mask] = v] on a copy. *)
Definition mask_assign {A : Type} (a : list A) (mask : list bool) (v : A)
  : pyresult (list A) :=
  if Nat.eqb (length mask) (length a)
  then Return (zip2 (fun (b : bool) x => if b then v else x) mask a)
  else Raise IndexError.

(** [np.sum], as the exact sum: NumPy adds pairwise and rounds each
    addition. *)
Definition np_sum (a : list float) : float := fold_left fadd a (Some 0).

Definition fmax (a b : float) : float :=
  match a, b with
  | Some x, Some y => Some (if Qle_bool x y then y else x)
  | _, _ => NaN
  end.
Definition fmin (a b : float) : float :=
  match a, b with
  | Some x, Some y => Some (if Qle_bool x y then x else y)
  | _, _ => NaN
  end.

(** [np.max], [np.min]: raise [ValueError] on an empty array. *)
Definition np_max (a : list float) : pyresult float :=
  match a with
  | [] => Raise ValueError
  | x :: a' => Return (fold_left fmax a' x)
  end.
Definition np_min (a : list float) : pyresult float :=
  match a with
  | [] => Raise ValueError
  | x :: a' => Return (fold_left fmin a' x)
  end.

(** [np.mean]: the sum over the count (NaN on an empty array, with a
    warning), both exact. *)
Definition np_mean (a : list float) : float :=
  fdiv (np_sum a) (Some (of_nat (length a))).

(** [np.clip(a, lo, hi)] = [minimum(maximum(a, lo), hi)]; NaN stays NaN. *)
Definition clip1 (lo hi : Q) (a : float) : float :=
  fmin (fmax a (Some lo)) (Some hi).
Definition np_clip (a : list float) (lo hi : Q) : list float := map (clip1 lo hi) a.

(** [np.gradient(f, t)] with the default [edge_order=1]: one-sided
    differences at both ends, and inside the second-order formula for
    uneven spacing
    [(hs^2 f(i+1) + (hd^2 - hs^2) f(i) - hd^2 f(i-1)) / (hs hd (hd + hs))]
    written as NumPy does, [a f(i-1) + b f(i) + c f(i+1)] with
    [dx1 = t(i) - t(i-1)], [dx2 = t(i+1) - t(i)].  It raises on fewer
    than two samples and on coordinates of another length. *)
Definition gradient_interior (f0 f1 f2 t0 t1 t2 : float) : float :=
  let dx1 := fsub t1 t0 in
  let dx2 := fsub t2 t1 in
  let a := fdiv (fsub (Some 0) dx2) (fmul dx1 (fadd dx1 dx2)) in
  let b := fdiv (fsub dx2 dx1) (fmul dx1 dx2) in
  let c := fdiv dx1 (fmul dx2 (fadd dx1 dx2)) in
  fadd (fadd (fmul a f0) (fmul b f1)) (fmul c f2).

Definition gradient_edge (f0 f1 t0 t1 : float) : float :=
  fdiv (fsub f1 f0) (fsub t1 t0).

Definition np_gradient (f t : list float) : pyresult (list float) :=
  let n := length f in
  if negb (Nat.eqb (length t) n) then Raise ValueError
  else if (n <? 2)%nat then Raise ValueError
  else
    let at_ (l : list float) (i : nat) := nth i l NaN in
    Return (map (fun i : nat =>
      if (i =? 0)%nat
        then gradient_edge (at_ f 0%nat) (at_ f 1%nat) (at_ t 0%nat) (at_ t 1%nat)
      else if (i =? n - 1)%nat
        then gradient_edge (at_ f (n - 2)%nat) (at_ f (n - 1)%nat)
                           (at_ t (n - 2)%nat) (at_ t (n - 1)%nat)
      else gradient_interior (at_ f (i - 1)%nat) (at_ f i) (at_ f (i + 1)%nat)
                             (at_ t (i - 1)%nat) (at_ t i) (at_ t (i + 1)%nat))
      (seq 0 n)).

(** [np.gradient(t)]: unit spacing. *)
Definition np_gradient_unit (f : list float) : pyresult (list float) :=
  np_gradient f (map (fun i => Some (of_nat i)) (seq 0 (length f))).

(** [a[~np.isnan(a)]]. *)
Definition valid (a : list float) : list float := List.filter (fun v => negb (isnan v)) a.

(** [np.nanmax(np.abs(a))]: the largest absolute value, NaN entries skipped
    (NaN with a warning when every entry is NaN); on an empty array it
    raises [ValueError]. *)
Definition np_nanmax_abs (a : list float) : pyresult float :=
  match a with
  | [] => Raise ValueError
  | _ :: _ =>
      match valid (map fabs a) with
      | [] => Return NaN
      | x :: a' => Return (fold_left fmax a' x)
      end
  end.

(** ** SciPy: [scipy.signal.savgol_filter(x, window_length, polyorder)]

    Library code, modelled from its documentation with the default
    [mode='interp']: each output sample is the value, at that sample, of the
    least-squares polynomial of degree [polyorder] through a window of
    [window_length] samples: the window centred on the sample inside the
    series, the first (last) window for the first (last)
    [window_length // 2] samples.  It raises [ValueError] when
    [polyorder >= window_length] or [window_length > len(x)].  The window is
    odd at every call of this repository ([_safe_savgol] makes it so); an
    even one is refused, as SciPy did when the source was written against
    it.

    The least-squares fit is computed exactly by orthogonalising the
    monomials [1, j, j^2, ...] over the nodes [j = 0 .. w-1] (Gram-Schmidt);
    a polynomial is carried as its values at the nodes and at the point
    [t] where the fit is read. *)

Definition dot (u v : list Q) : Q := fold_right Qplus 0 (zip2 Qmult u v).

Definition sampled : Type := (list Q * Q)%type.

Definition monomial (w : nat) (t : Q) (k : nat) : sampled :=
  (map (fun j => of_nat j ^ Z.of_nat k) (seq 0 w), t ^ Z.of_nat k).

Definition project_out (m q : sampled) : sampled :=
  let c := dot (fst m) (fst q) / dot (fst q) (fst q) in
  (zip2 (fun a b => Qred (a - c * b)) (fst m) (fst q), Qred (snd m - c * snd q)).

Definition orth_basis (w : nat) (t : Q) (deg : nat) : list sampled :=
  fold_left (fun basis k => basis ++ [fold_left project_out basis (monomial w t k)])
            (seq 0 (S deg)) [].

Definition polyfit_at (ys : list Q) (deg : nat) (t : Q) : Q :=
  Qred (fold_right Qplus 0
          (map (fun q => dot ys (fst q) / dot (fst q) (fst q) * snd q)
               (orth_basis (length ys) t deg))).

Definition savgol_filter (x : list Q) (window_length polyorder : nat)
  : pyresult (list Q) :=
  let n := length x in
  let halflen := (window_length / 2)%nat in
  if (window_length <=? polyorder)%nat then Raise ValueError
  else if Nat.even window_length then Raise ValueError
  else if (n <? window_length)%nat then Raise ValueError
  else Return (map (fun i : nat =>
         if (i <? halflen)%nat
           then polyfit_at (take window_length x) polyorder (of_nat i)
         else if (n - halflen <=? i)%nat
           then polyfit_at (drop (n - window_length) x) polyorder
                           (of_nat (i - (n - window_length)))
         else polyfit_at (take window_length (drop (i - halflen) x)) polyorder
                         (of_nat halflen))
         (seq 0 n)).

(** ** pandas *)

(** [Series.interpolate(limit_direction='both')], method linear: a missing
    entry between two valid ones lies on the straight line between them
    (by index); missing entries before the first valid one take its value,
    those after the last valid one take that one's; a series with no valid
    entry stays all-NaN. *)
Fixpoint first_valid (l : list float) : option (nat * Q) :=
  match l with
  | [] => None
  | Some v :: _ => Some (0%nat, v)
  | None :: l' =>
      match first_valid l' with
      | Some (k, v) => Some (S k, v)
      | None => None
      end
  end.

Definition interpolate_at (data : list float) (i : nat) : float :=
  match nth i data NaN with
  | Some v => Some v
  | None =>
      match first_valid (rev (take i data)), first_valid (drop (S i) data) with
      | Some (dl, vl), Some (dr, vr) =>
          Some (vl + (vr - vl) * of_nat (S dl) / of_nat (S dl + S dr))
      | Some (_, vl), None => Some vl
      | None, Some (_, vr) => Some vr
      | None, None => NaN
      end
  end.

Definition interpolate (data : list float) : list float :=
  map (interpolate_at data) (seq 0 (length data)).

(** Ascending order with NaN last ([na_position='last']).  The sort is an
    insertion sort, which keeps equal keys in their order; pandas' default
    [kind='quicksort'] promises no order among equal keys, so on duplicated
    keys the model follows one of the orders the program may give. *)
Definition key_le (a b : float) : bool :=
  match a, b with
  | Some x, Some y => Qle_bool x y
  | Some _, None => true
  | None, Some _ => false
  | None, None => true
  end.

Fixpoint insert_by {A : Type} (key : A -> float) (x : A) (l : list A) : list A :=
  match l with
  | [] => [x]
  | y :: l' => if key_le (key x) (key y) then x :: l else y :: insert_by key x l'
  end.

Definition sort_by {A : Type} (key : A -> float) (l : list A) : list A :=
  fold_right (insert_by key) [] l.

(** [Series.quantile(q)]: NaN skipped, linear interpolation between the two
    order statistics around position [(n-1) q]; NaN when nothing is left. *)
Definition quantile (a : list float) (q : Q) : float :=
  let s := sort_by (fun v => v) (valid a) in
  match s with
  | [] => NaN
  | _ =>
      let pos := of_nat (length s - 1) * q in
      let lo := Z.to_nat (Qfloor pos) in
      let hi := Z.to_nat (Qceiling pos) in
      let frac := pos - of_nat lo in
      fadd (nth lo s NaN) (fmul (fsub (nth hi s NaN) (nth lo s NaN)) (Some frac))
  end.

(** [np.nanmedian]: the median of the entries that are not NaN. *)
Definition np_nanmedian (a : list float) : float :=
  let s := sort_by (fun v => v) (valid a) in
  let n := length s in
  match s with
  | [] => NaN
  | _ =>
      if Nat.even n
      then fdiv (fadd (nth (n / 2 - 1)%nat s NaN) (nth (n / 2)%nat s NaN)) (Some 2)
      else nth (n / 2)%nat s NaN
  end.

(** [Series.fillna(v)]. *)
Definition fillna (a : list float) (v : float) : list float :=
  map (fun x => if isnan x then v else x) a.

(** ** src/utils/coordinates.py *)

Definition PITCH_LENGTH : Q := 105.
Definition PITCH_WIDTH : Q := 68.
Definition HALF_PITCH_LENGTH : Q := PITCH_LENGTH / 2.
Definition HALF_PITCH_WIDTH : Q := PITCH_WIDTH / 2.

Definition scalar_op (f : float -> float -> float) (a : list float) (c : Q) : list float :=
  map (fun v => f v (Some c)) a.

Definition to_pitch_meters (x y : list float) (source_type : string)
  : list float * list float :=
  if String.eqb source_type "skillcorner" then (x, y)
  else if String.eqb source_type "0_1" then
    let x_m := scalar_op fsub (scalar_op fmul x PITCH_LENGTH) HALF_PITCH_LENGTH in
    let y_m := scalar_op fsub (scalar_op fmul y PITCH_WIDTH) HALF_PITCH_WIDTH in
    (x_m, y_m)
  else if String.eqb source_type "0_100" then
    let x_m := scalar_op fsub (scalar_op fmul (scalar_op fdiv x 100) PITCH_LENGTH)
                         HALF_PITCH_LENGTH in
    let y_m := scalar_op fsub (scalar_op fmul (scalar_op fdiv y 100) PITCH_WIDTH)
                         HALF_PITCH_WIDTH in
    (x_m, y_m)
  else (x, y).

(** [validate_coordinate_bounds] only logs; the model returns whether the
    warning is emitted.  The two maxima are taken first, x before y, and
    either raises on an empty array. *)
Definition validate_coordinate_bounds (x y : list float) (tolerance : Q)
  : pyresult bool :=
  let* x_max := np_nanmax_abs x in
  let* y_max := np_nanmax_abs y in
  let limit_x := HALF_PITCH_LENGTH + tolerance in
  let limit_y := HALF_PITCH_WIDTH + tolerance in
  Return (fgt x_max (Some limit_x) || fgt y_max (Some limit_y)).

(** The result of [infer_and_scale_coordinates] with the warning it logged. *)
Record scaled : Type := mk_scaled {
  x_scaled : list float;
  y_scaled : list float;
  scale_system : string;
  bounds_warning : bool
}.

Definition infer_and_scale_coordinates (x y : list float) : pyresult scaled :=
  let x_valid := valid x in
  let y_valid := valid y in
  if (length x_valid =? 0)%nat then Return (mk_scaled x y "empty" false)
  else
    let* min_x := np_min x_valid in
    let* max_x := np_max x_valid in
    let* min_y := np_min y_valid in
    let* max_y := np_max y_valid in
    let system :=
      if fle max_x (Some 1.5) && fle max_y (Some 1.5)
         && fge min_x (Some 0) && fge min_y (Some 0)
      then "0_1"%string
      else if fle max_x (Some 110) && fle max_y (Some 110)
              && (fgt max_x (Some 1.5) || fgt max_y (Some 1.5))
              && fge min_x (Some (-1)) && fge min_y (Some (-1))
      then "0_100"%string
      else "skillcorner_meters"%string in
    let '(xs, ys) := to_pitch_meters x y system in
    let* warning := validate_coordinate_bounds xs ys 5 in
    Return (mk_scaled xs ys system warning).

(** ** src/config.py *)

Definition SMOOTHING_WINDOW_SIZE : nat := 7.
Definition SMOOTHING_POLY_ORDER : nat := 2.
Definition MAX_VELOCITY_KMH : Q := 42.
Definition VELOCITY_ANOMALY_THRESHOLD : Q := 45.

(** ** src/preprocessing/filters.py *)

(** All entries of a series as rationals, when none is NaN. *)
Fixpoint finite (data : list float) : option (list Q) :=
  match data with
  | [] => Some []
  | Some v :: data' =>
      match finite data' with
      | Some qs => Some (v :: qs)
      | None => None
      end
  | None :: _ => None
  end.

(** [_safe_savgol]: interpolate over NaN, make the window odd, filter, and
    hand the data back when the filter raises.  Data that still holds NaN
    after the interpolation is all-NaN: SciPy then raises or answers NaN
    throughout, and either way the result is the data. *)
Definition _safe_savgol (data : list float) (window order : nat) : list float :=
  let data := if existsb isnan data then interpolate data else data in
  let window := if Nat.even window then (window + 1)%nat else window in
  match finite data with
  | Some qs =>
      match savgol_filter qs window order with
      | Return r => map Some r
      | Raise _ => data
      end
  | None => data
  end.

(** [a[start:stop]] and [a[start:stop] = v]; the assignment needs [v] as
    long as the slice, or of length one (it is then broadcast). *)
Definition slice {A : Type} (a : list A) (start stop : nat) : list A :=
  take (stop - start) (drop start a).

Definition slice_assign {A : Type} (a : list A) (start stop : nat) (v : list A)
  : pyresult (list A) :=
  let n := length (slice a start stop) in
  if (length v =? n)%nat
  then Return (take start a ++ v ++ drop (Nat.max start stop) a)
  else match v with
       | [x] => Return (take start a ++ repeat x n ++ drop (Nat.max start stop) a)
       | _ => Raise ValueError
       end.

(** The tiers of the loop body: what is written to
    [smoothed[start_idx:end_idx]] for a segment. *)
Definition smooth_segment (segment : list float) (window_size poly_order : nat)
  : list float :=
  if (window_size <? length segment)%nat
  then _safe_savgol segment window_size poly_order
  else if (poly_order + 2 <? length segment)%nat
  then
    let w := Nat.lor (length segment) 1 in
    let w := if (w =? length segment + 1)%nat then (w - 2)%nat else w in
    if (poly_order <? w)%nat
    then _safe_savgol segment w poly_order
    else segment
  else segment.

(** One turn of the loop over [boundaries]; the state is the output array
    and [start_idx]. *)
Definition smooth_step (vals : list float) (window_size poly_order : nat)
    (st : pyresult (list float * nat)) (end_idx : nat)
  : pyresult (list float * nat) :=
  let* s := st in
  let segment := slice vals (snd s) end_idx in
  let* smoothed :=
    slice_assign (fst s) (snd s) end_idx
                 (smooth_segment segment window_size poly_order) in
  Return (smoothed, end_idx).

(** [np.where(np.diff(ts, prepend=ts[0]) > max_gap_seconds)[0]], the
    differences being exact: a difference that equals the threshold here
    can fall on either side of it once rounded. *)
Definition split_indices (ts : list float) (max_gap_seconds : Q) : list nat :=
  match ts with
  | [] => []
  | t0 :: _ => np_where (map (fun d => fgt d (Some max_gap_seconds)) (np_diff (t0 :: ts)))
  end.

(** The defaults of the source are [max_gap_seconds=0.2],
    [window_size=SMOOTHING_WINDOW_SIZE] and [poly_order=SMOOTHING_POLY_ORDER].
    [ts[0]] raises on an empty array.  [np.empty_like] leaves the cells of
    [smoothed] unspecified; they are NaN here, and the loop overwrites every
    one of them (lemma [fold_smooth_step]). *)
Definition apply_gap_aware_smoothing (series timestamps : list float)
    (max_gap_seconds : Q) (window_size poly_order : nat)
  : pyresult (list float) :=
  let vals := series in
  let ts := timestamps in
  if (length vals <? window_size)%nat then Return vals
  else
    match ts with
    | [] => Raise IndexError
    | _ :: _ =>
        let split := split_indices ts max_gap_seconds in
        if (length split =? 0)%nat
        then Return (_safe_savgol vals window_size poly_order)
        else
          let smoothed := repeat NaN (length vals) in
          let boundaries := split ++ [length vals] in
          let* s := fold_left (smooth_step vals window_size poly_order) boundaries
                              (Return (smoothed, 0%nat)) in
          Return (fst s)
    end.

(** ** src/utils/physics.py and src/preprocessing/features.py *)

Section WithSqrt.

(** [np.sqrt] on a non-negative rational. *)
Variable np_sqrt : Q -> Q.

Definition fsqrt (a : float) : float :=
  match a with
  | Some q => if Qlt_bool q 0 then NaN else Some (np_sqrt q)
  | None => NaN
  end.

Definition square (a : float) : float := fmul a a.

(** [np.sqrt(dx**2 + dy**2)]. *)
Definition hypot_arrays (dx dy : list float) : pyresult (list float) :=
  let* s := broadcast2 fadd (map square dx) (map square dy) in
  Return (map fsqrt s).

(** [calculate_velocity]: step length over the time step.  The time step
    is fixed first: the timestamps' differences with non-positive ones
    replaced by [1e-6], or [1.0 / fps] (Python float division: it raises at
    zero); the step lengths are taken after it. *)
Definition calculate_velocity (x y : list float) (fps : Q) (unit : string)
    (timestamps : option (list float)) : pyresult (list float) :=
  let dx := np_diff x in
  let dy := np_diff y in
  let* dt :=
    match timestamps return pyresult (list float + Q) with
    | Some ts =>
        Return (inl (map (fun v => if fle v (Some 0) then Some (1 # 1000000) else v)
                         (np_diff ts)))
    | None =>
        if Qeq_bool fps 0 then Raise ZeroDivisionError
        else Return (inr (1 / fps))
    end in
  let* d := hypot_arrays dx dy in
  let* velocity :=
    match dt with
    | inl dt => broadcast2 fdiv d dt
    | inr dt => Return (scalar_op fdiv d dt)
    end in
  if String.eqb unit "km/h" then Return (scalar_op fmul velocity 3.6)
  else Return velocity.

(** The dictionary [calculate_distance_metrics] returns. *)
Record distance_metrics : Type := mk_metrics {
  total_distance : float;
  sprint_distance : float;
  hsr_distance : float;
  max_speed : float;
  avg_speed : float
}.

Definition MAX_STEP_DISTANCE : Q := 5.

Definition calculate_distance_metrics (x y : list float) (fps : Q)
  : pyresult distance_metrics :=
  let* velocity_kmh := calculate_velocity x y fps "km/h" None in
  let dx := np_diff x in
  let dy := np_diff y in
  let* segment_distances := hypot_arrays dx dy in
  let valid_mask := map (fun d => fle d (Some MAX_STEP_DISTANCE)) segment_distances in
  let* filtered_distances :=
    mask_assign segment_distances (map negb valid_mask) (Some 0) in
  let total_dist := np_sum filtered_distances in
  let* sprint_mask :=
    broadcast2 andb (map (fun v => fgt v (Some 25)) velocity_kmh) valid_mask in
  let* hsr_mask :=
    broadcast2 andb (map (fun v => fgt v (Some 20)) velocity_kmh) valid_mask in
  let* sprint_steps := mask_index filtered_distances sprint_mask in
  let* hsr_steps := mask_index filtered_distances hsr_mask in
  let sprint_distance := np_sum sprint_steps in
  let hsr_distance := np_sum hsr_steps in
  let valid_velocities := List.filter (fun v => fle v (Some 38)) velocity_kmh in
  if (0 <? length valid_velocities)%nat
  then
    let* robust_max_speed := np_max valid_velocities in
    Return (mk_metrics total_dist sprint_distance hsr_distance
                       robust_max_speed (np_mean valid_velocities))
  else
    Return (mk_metrics total_dist sprint_distance hsr_distance (Some 0) (Some 0)).

End WithSqrt.

(** ** src/preprocessing/time.py *)

(** An argument that is a scalar or an array ([isinstance(frame,
    (pd.Series, np.ndarray))]), and the two kinds of result: the formatted
    clock of the scalar branch, the seconds of the array branch. *)
Inductive arg (A : Type) : Type :=
| Scalar (v : A)
| Array (a : list A).
Arguments Scalar {A} v.
Arguments Array {A} a.

Inductive clock : Type :=
| Clock (s : string)
| Seconds (a : list float).

(** [f"{n:02d}"]. *)
Definition format_02d (n : Z) : string :=
  let s := NilZero.string_of_int (Z.to_int n) in
  if (String.length s <? 2)%nat then ("0" ++ s)%string else s.

(** [start_frames[mask] = v] and [base_minutes[mask] = v] for a mask that
    is an array or, for a scalar period, one Python bool. *)
Definition period_mask (period : arg Z) (p : Z) (n : nat) : pyresult (list bool) :=
  match period with
  | Scalar v => Return (repeat (Z.eqb v p) n)
  | Array a =>
      if (length a =? n)%nat then Return (map (fun v => Z.eqb v p) a)
      else Raise IndexError
  end.

(** [calculate_match_clock]: the array branch returns [total_seconds], the
    scalar branch the formatted clock.  [period_start_frames.get] on an
    array raises (unhashable).  In the scalar branch [(frame - start) / fps]
    is Python division and raises at zero; [max(0, .)], [// 60], [% 60] and
    [int] act on a non-negative number.  Quotient and floor are those of
    the exact value: the program rounds the quotient before it takes the
    floor, so that the two agree where the quotient is a whole number and
    can differ by one second elsewhere.  With [fps = 0] the array branch
    divides by zero under NumPy, which answers inf, -inf or nan with a
    warning; all three are NaN here. *)
Definition calculate_match_clock (frame period : arg Z)
    (period_start_frames : gmap Z Z) (fps : Q) : pyresult clock :=
  match frame with
  | Array frame =>
      let n := length frame in
      let* p1_mask := period_mask period 1 n in
      let* p2_mask := period_mask period 2 n in
      let start_frames := repeat 0%Z n in
      let base_minutes := repeat (Some 0) n in
      let p1_start := default 0%Z (period_start_frames !! 1%Z) in
      let p2_start := default 0%Z (period_start_frames !! 2%Z) in
      let* start_frames := mask_assign start_frames p1_mask p1_start in
      let* start_frames := mask_assign start_frames p2_mask p2_start in
      let* base_minutes := mask_assign base_minutes p1_mask (Some 0) in
      let* base_minutes := mask_assign base_minutes p2_mask (Some 45) in
      let seconds_elapsed :=
        zip2 (fun f s => fdiv (Some (inject_Z (f - s))) (Some fps)) frame start_frames in
      let total_seconds :=
        zip2 fadd (scalar_op fmul base_minutes 60) seconds_elapsed in
      Return (Seconds total_seconds)
  | Scalar frame =>
      match period with
      | Array _ => Raise TypeError
      | Scalar period =>
          let start := default 0%Z (period_start_frames !! period) in
          let base := if Z.eqb period 1 then 0%Z else 45%Z in
          if Qeq_bool fps 0 then Raise ZeroDivisionError
          else
            let elapsed := inject_Z (frame - start) / fps in
            let seconds_elapsed := if Qlt_bool 0 elapsed then elapsed else 0 in
            let total_minutes := (base + Qfloor (seconds_elapsed / 60))%Z in
            let rem_seconds :=
              Qfloor (seconds_elapsed - 60 * inject_Z (Qfloor (seconds_elapsed / 60))) in
            Return (Clock (format_02d total_minutes ++ ":" ++ format_02d rem_seconds))
      end
  end.

(** ** src/preprocessing/data.py *)

(** One entry of [raw_records]: a frame in which the player has
    coordinates.  The model of [extract_player_data] starts from this list
    (lines 38-51 read it off the Kloppy dataset); timestamps are float
    seconds. *)
Record raw_record : Type := mk_raw {
  r_frame : Z;
  r_timestamp : float;
  r_period : Z;
  r_x : float;
  r_y : float
}.

(** What [extract_player_data] logs. *)
Inductive log_record : Type :=
| InfoScaling (x_p99 : float)
| WarnAnomalies (anomaly_count : nat)
| WarnLowDetection (detection_rate : float)
| WarnDropped (frames : nat).

(** The kinematic columns, present when velocity was computed. *)
Record kinematics : Type := mk_kinematics {
  time_delta : list float;
  velocity_raw : list float;
  vx : list float;
  vy : list float;
  velocity : list float;
  velocity_kmh : list float;
  acceleration : option (list float)
}.

(** The DataFrame the function returns, column by column, with the log. *)
Record player_frame : Type := mk_frame {
  df_frame : list Z;
  df_timestamp : list float;
  df_period : list Z;
  df_x : list float;
  df_y : list float;
  df_x_smooth : list float;
  df_y_smooth : list float;
  df_kinematics : option kinematics;
  df_is_detected : option (list bool);
  df_log : list log_record
}.

(** [pd.DataFrame()], returned when there are no records. *)
Definition empty_frame : player_frame :=
  mk_frame [] [] [] [] [] [] [] None None [].

(** [drop_duplicates(subset=['timestamp'], keep='first')]. *)
Definition same_key (a b : float) : bool :=
  match a, b with
  | Some u, Some v => Qeq_bool u v
  | None, None => true
  | _, _ => false
  end.

Fixpoint drop_duplicates_from (seen : list float) (rows : list raw_record)
  : list raw_record :=
  match rows with
  | [] => []
  | r :: rows' =>
      if existsb (same_key (r_timestamp r)) seen
      then drop_duplicates_from seen rows'
      else r :: drop_duplicates_from (r_timestamp r :: seen) rows'
  end.
Definition drop_duplicates (rows : list raw_record) : list raw_record :=
  drop_duplicates_from [] rows.

(** Lines 58-59: sort by timestamp, drop duplicated timestamps. *)
Definition sorted_records (raw_records : list raw_record) : list raw_record :=
  drop_duplicates (sort_by r_timestamp raw_records).

(** Lines 61-67: the positions after the check for normalised coordinates,
    and what it logs. *)
Definition rescale_positions (x y : list float)
  : list float * list float * list log_record :=
  let x_p99 := quantile x 0.99 in
  if flt x_p99 (Some 1.2)
  then (scalar_op fmul x 105, scalar_op fmul y 68, [InfoScaling x_p99])
  else (x, y, []).

Section WithSqrtData.

Variable np_sqrt : Q -> Q.

(** Lines 76-137: the velocity and acceleration columns. *)
Definition derive_kinematics (smooth : bool) (t x_s y_s : list float)
  : pyresult (kinematics * list log_record) :=
  let n := length t in
  let* dt := np_gradient_unit t in
  let dt := map (fun d => if flt d (Some (1 # 10000)) then NaN else d) dt in
  let median_dt := np_nanmedian dt in
  let time_delta := fillna dt median_dt in
  let* vx := np_gradient x_s t in
  let* vy := np_gradient y_s t in
  let* speed_ms := hypot_arrays np_sqrt vx vy in
  let max_ms := MAX_VELOCITY_KMH / 3.6 in
  let anomaly_ms := VELOCITY_ANOMALY_THRESHOLD / 3.6 in
  let anomalies := map (fun v => fgt v (Some anomaly_ms)) speed_ms in
  let log :=
    if existsb (fun b : bool => b) anomalies
    then [WarnAnomalies (length (List.filter (fun b : bool => b) anomalies))]
    else [] in
  let speed_ms := np_clip speed_ms 0 max_ms in
  let* velocity :=
    if smooth && (5 <? n)%nat
    then apply_gap_aware_smoothing speed_ms t 0.2 5 2
    else Return speed_ms in
  let velocity_kmh := scalar_op fmul velocity 3.6 in
  let* acceleration :=
    if (2 <? n)%nat
    then
      let* accel := np_gradient velocity t in
      if smooth && (5 <? n)%nat
      then let* a := apply_gap_aware_smoothing accel t 0.2 5 2 in Return (Some a)
      else Return (Some accel)
    else Return None in
  Return (mk_kinematics time_delta speed_ms vx vy velocity velocity_kmh acceleration,
          log).

(** A row selection applied to every kinematic column. *)
Definition map_kinematics (f : list float -> list float) (k : kinematics) : kinematics :=
  mk_kinematics (f (time_delta k)) (f (velocity_raw k)) (f (vx k)) (f (vy k))
                (f (velocity k)) (f (velocity_kmh k)) (option_map f (acceleration k)).

(** [extract_player_data] from [raw_records] on; the defaults of the source
    are [include_velocity=True], [smooth=True], [min_detection_rate=0.95].
    Lines 139-152: the detection filter, [is_detected] being computed from
    the positions. *)
Definition extract_player_data (raw_records : list raw_record)
    (include_velocity smooth : bool) (min_detection_rate : Q)
  : pyresult player_frame :=
  match raw_records with
  | [] => Return empty_frame
  | _ :: _ =>
      let df := sorted_records raw_records in
      let n := length df in
      let t := map r_timestamp df in
      let '(x, y, log1) :=
        if (0 <? n)%nat
        then rescale_positions (map r_x df) (map r_y df)
        else (map r_x df, map r_y df, []) in
      let* x_smooth :=
        if smooth && (5 <? n)%nat
        then apply_gap_aware_smoothing x t 0.2 SMOOTHING_WINDOW_SIZE SMOOTHING_POLY_ORDER
        else Return x in
      let* y_smooth :=
        if smooth && (5 <? n)%nat
        then apply_gap_aware_smoothing y t 0.2 SMOOTHING_WINDOW_SIZE SMOOTHING_POLY_ORDER
        else Return y in
      let* kin :=
        if include_velocity && (1 <? n)%nat
        then let* k := derive_kinematics smooth t x_smooth y_smooth in
             Return (Some (fst k), snd k)
        else Return (None, []) in
      let full :=
        mk_frame (map r_frame df) t (map r_period df) x y x_smooth y_smooth
                 (fst kin) None (log1 ++ snd kin) in
      if (0 <? n)%nat && Qlt_bool 0 min_detection_rate
      then
        let is_detected := zip2 (fun a b => negb (isnan a || isnan b)) x y in
        let initial_frames := n in
        let detection_rate :=
          np_mean (map (fun b : bool => Some (if b then 1 else 0)) is_detected) in
        if flt detection_rate (Some min_detection_rate)
        then
          let keep {A : Type} (c : list A) : list A := select is_detected c in
          let kept := length (keep t) in
          Return (mk_frame (keep (df_frame full)) (keep t) (keep (df_period full))
                           (keep x) (keep y) (keep x_smooth) (keep y_smooth)
                           (option_map (map_kinematics keep) (fst kin))
                           (Some (keep is_detected))
                           (df_log full ++ [WarnLowDetection detection_rate]
                              ++ (if Qlt_bool (of_nat kept) (of_nat initial_frames * 0.5)
                                  then [WarnDropped (initial_frames - kept)]
                                  else [])))
        else
          Return (mk_frame (df_frame full) t (df_period full) x y x_smooth y_smooth
                           (fst kin) (Some is_detected) (df_log full))
      else Return full
  end.

End WithSqrtData.

(** A square root for closed examples: the root rounded down to a multiple
    of [2^-52] (so [sqrt_dyadic 225 = 15], [sqrt_dyadic (1 # 4) = 1 # 2]). *)
Definition sqrt_dyadic (q : Q) : Q :=
  Qred (Z.sqrt (Qnum q * 2 ^ 104 / Zpos (Qden q)) # 2 ^ 52).

(** * Statements *)

(** ** Vocabulary of the statements *)




(** The segments a series is cut into by ascending [boundaries], from
    [start]: [vals[start:b1]], [vals[b1:b2]], ... *)
Fixpoint cut {A : Type} (vals : list A) (start : nat) (boundaries : list nat)
  : list (list A) :=
  match boundaries with
  | [] => []
  | e :: bs => slice vals start e :: cut vals e bs
  end.

(** [start <= b1 <= b2 <= ... <= n]. *)
Fixpoint ascending (start : nat) (boundaries : list nat) (n : nat) : Prop :=
  match boundaries with
  | [] => (start <= n)%nat
  | e :: bs => (start <= e)%nat /\ ascending e bs n
  end.

(** The last boundary, [start] when there is none. *)
Fixpoint last_boundary (start : nat) (boundaries : list nat) : nat :=
  match boundaries with
  | [] => start
  | e :: bs => last_boundary e bs
  end.

(** Bounds on the values of an array that are not NaN: what
    [max(x) <= c], [min(x) >= c] and [max(|x|) <= c] say. *)
Definition all_le (c : Q) (a : list float) : Prop :=
  forall v : Q, In (Some v) a -> v <= c.
Definition all_ge (c : Q) (a : list float) : Prop :=
  forall v : Q, In (Some v) a -> c <= v.
Definition all_abs_le (c : Q) (a : list float) : Prop :=
  forall v : Q, In (Some v) a -> Qabs v <= c.

(** The two range tests of the specification's precedence. *)
Definition spec_unit_square (x y : list float) : Prop :=
  all_abs_le 1.5 x /\ all_abs_le 1.5 y /\ all_ge 0 x /\ all_ge 0 y.
Definition spec_percentage (x y : list float) : Prop :=
  all_abs_le 110 x /\ all_abs_le 110 y /\ all_ge (-1) x /\ all_ge (-1) y.

(** The rescalings of the specification, on one value. *)
Definition spec_unit_x (v : float) : float := fsub (fmul v (Some 105)) (Some 52.5).
Definition spec_unit_y (v : float) : float := fsub (fmul v (Some 68)) (Some 34).
Definition spec_percent_x (v : float) : float :=
  fsub (fmul (fdiv v (Some 100)) (Some 105)) (Some 52.5).
Definition spec_percent_y (v : float) : float :=
  fsub (fmul (fdiv v (Some 100)) (Some 68)) (Some 34).

(** Arrays equal as numbers, element by element. *)
Definition arrays_eq (a b : list float) : Prop := Forall2 feq a b.

(** The tests of [infer_and_scale_coordinates], read as bounds. *)
Definition code_unit_square (x y : list float) : Prop :=
  all_le 1.5 x /\ all_le 1.5 y /\ all_ge 0 x /\ all_ge 0 y.
Definition code_percentage (x y : list float) : Prop :=
  all_le 110 x /\ all_le 110 y /\ ~ (all_le 1.5 x /\ all_le 1.5 y)
  /\ all_ge (-1) x /\ all_ge (-1) y.

(** The per-step displacements [sqrt(dx_i^2 + dy_i^2)] of a track and the
    speed of each step in km/h at a fixed frame rate. *)
Definition step_distances (np_sqrt : Q -> Q) (x y : list float) : list float :=
  zip2 (fun dx dy => fsqrt np_sqrt (fadd (square dx) (square dy)))
       (np_diff x) (np_diff y).

Definition step_speeds_kmh (fps : Q) (d : list float) : list float :=
  map (fun s => fmul (fdiv s (Some (1 / fps))) (Some 3.6)) d.

(** The steps that count towards a speed zone: displacement at most 5 m
    and speed above the zone's threshold. *)
Definition counted_steps (threshold : Q) (d v : list float) : list float :=
  map fst (List.filter
             (fun dv : float * float =>
                fle (fst dv) (Some MAX_STEP_DISTANCE)
                && fgt (snd dv) (Some threshold))
             (combine d v)).

(** ** Example inputs *)

(** Twelve samples at 10 Hz with one gap of 2 s before index 8. *)
Definition gap_series : list float :=
  map Some [0; 1; 4; 9; 16; 25; 36; 50; 7; 7; 8; 7].
Definition gap_stamps : list float :=
  map Some [0; 0.1; 0.2; 0.3; 0.4; 0.5; 0.6; 0.7; 2.7; 2.8; 2.9; 3.0].

(** Six gap-free samples: shorter than the default window. *)
Definition short_series : list float := map Some [0; 0; 0; 1; 0; 0].
Definition short_stamps : list float := map Some [0; 0.1; 0.2; 0.3; 0.4; 0.5].

(** Eight samples with one gap before index 5: a segment of five and a
    segment of three. *)
Definition odd_series : list float := map Some [0; 0; 1; 0; 0; 5; 9; 5].
Definition odd_stamps : list float :=
  map Some [0; 0.1; 0.2; 0.3; 0.4; 2.4; 2.5; 2.6].

(** [gap_series] with other values after the gap. *)
Definition gap_series' : list float :=
  map Some [0; 1; 4; 9; 16; 25; 36; 50; 100; -3; 40; 0].

(** Steps of 0.5 m with one single-frame jump of 10 m. *)
Definition jump_x : list float := map Some [0; 0.5; 1; 11; 11.5].
Definition jump_y : list float := map Some [0; 0; 0; 0; 0].

(** Period 1 starts at frame 10, period 2 at frame 27000. *)
Definition period_starts : gmap Z Z := <[2%Z := 27000%Z]> (<[1%Z := 10%Z]> ∅).


(** Six samples at 10 Hz with a jump of 6 m over two frames. *)
Definition glitch_track : list raw_record :=
  [ mk_raw 0 (Some 0) 1 (Some 0) (Some 0);
    mk_raw 1 (Some 0.1) 1 (Some 0) (Some 0);
    mk_raw 2 (Some 0.2) 1 (Some 3) (Some 0);
    mk_raw 3 (Some 0.3) 1 (Some 6) (Some 0);
    mk_raw 4 (Some 0.4) 1 (Some 6) (Some 0);
    mk_raw 5 (Some 0.5) 1 (Some 6) (Some 0) ].

(** * Further functions of the modules *)

(** ** Python built-ins *)

(** [int(q)] on a float: truncation toward zero. *)
Definition py_int (q : Q) : Z := Z.quot (Qnum q) (Zpos (Qden q)).

(** [a[::step]] for [step >= 1]: the entries at the multiples of [step];
    [skip] entries are passed over before the next one is taken. *)
Fixpoint stride_from {A : Type} (skip step : nat) (a : list A) : list A :=
  match a with
  | [] => []
  | v :: a' =>
      match skip with
      | O => v :: stride_from (step - 1) step a'
      | S k => stride_from k step a'
      end
  end.
Definition stride {A : Type} (step : nat) (a : list A) : list A := stride_from 0 step a.

(** [range(start, stop, step)]: it raises on a zero step and is empty when
    [stop] is not ahead of [start] in the direction of [step]. *)
Definition py_range (start stop step : Z) : pyresult (list Z) :=
  if (step =? 0)%Z then Raise ValueError
  else
    let n := if (0 <? step)%Z
             then ((stop - start + step - 1) / step)%Z
             else ((start - stop - step - 1) / (- step))%Z in
    Return (map (fun k : nat => (start + Z.of_nat k * step)%Z) (seq 0 (Z.to_nat n))).

(** [df.iloc[start:stop]]: a negative bound counts from the end, and both
    bounds are cut to the length. *)
Definition slice_bound (n : nat) (i : Z) : nat :=
  Z.to_nat (Z.min (Z.of_nat n) (Z.max 0 (if (i <? 0)%Z then i + Z.of_nat n else i))).
Definition iloc {A : Type} (df : list A) (start stop : Z) : list A :=
  slice df (slice_bound (length df) start) (slice_bound (length df) stop).

(** [str(n)] for an integer, as in [f"{player_id}_x"]. *)
Definition str_of_int (n : Z) : string := NilZero.string_of_int (Z.to_int n).

(** ** src/utils/coordinates.py: the direction of play *)

(** [-x] on an array. *)
Definition np_negative (a : list float) : list float := map (option_map Qopp) a.

(** The defaults of the source are
    [home_attacking_dir_p1='left_to_right'] and [mode='home_ltr']. *)
Definition standardize_direction (x y : list float) (period : Z)
    (home_attacking_dir_p1 mode : string) : list float * list float :=
  if String.eqb mode "static" then (x, y)
  else
    let current_attack :=
      if Z.eqb period 2
      then if String.eqb home_attacking_dir_p1 "left_to_right"
           then "right_to_left"%string
           else "left_to_right"%string
      else home_attacking_dir_p1 in
    let should_flip := String.eqb current_attack "right_to_left" in
    if should_flip then (np_negative x, np_negative y) else (x, y).

(** ** src/data_loader.py: [_process_events_coordinates]

    A DataFrame of float columns is a finite map from the column's name to
    its values.  The function returns the DataFrame; the model returns with
    it whether the warning was logged. *)
Definition _process_events_coordinates (df : gmap string (list float))
  : pyresult (gmap string (list float) * bool) :=
  match df !! "location_x"%string, df !! "location_y"%string with
  | Some x_vals, Some y_vals =>
      let* r := infer_and_scale_coordinates x_vals y_vals in
      let detected_sys := scale_system r in
      let warned := negb (String.eqb detected_sys "skillcorner") in
      let df := <["x"%string := x_scaled r]> df in
      let df := <["y"%string := y_scaled r]> df in
      let df := <["x_raw"%string := x_vals]> df in
      let df := <["y_raw"%string := y_vals]> df in
      Return (df, warned)
  | _, _ => Return (df, false)
  end.

(** ** src/preprocessing/filters.py: the other filters *)

(** [filter_detected_positions]: [df] is the list of its rows, of which the
    function reads the columns [player_id] and [is_detected];
    [has_is_detected] says whether the second column exists.  The default
    of the source is [min_detection_rate=0.95]. *)
Section FilterDetected.

Context {Row : Type}.
Variable player_id : Row -> Z.
Variable is_detected : Row -> bool.

(** [df.groupby('player_id')['is_detected'].mean()] at one player. *)
Definition detection_rate (df : list Row) (p : Z) : float :=
  np_mean (map (fun r => Some (if is_detected r then 1 else 0))
               (List.filter (fun r => Z.eqb (player_id r) p) df)).

(** The index of the groups whose rate passes (its order does not matter
    to [isin]). *)
Definition valid_players (df : list Row) (min_detection_rate : Q) : list Z :=
  List.filter (fun p => fge (detection_rate df p) (Some min_detection_rate))
              (nodup Z.eq_dec (map player_id df)).

Definition filter_detected_positions (has_is_detected : bool) (df : list Row)
    (min_detection_rate : Q) : list Row :=
  if negb has_is_detected then df
  else
    let valid_players := valid_players df min_detection_rate in
    List.filter (fun r => existsb (Z.eqb (player_id r)) valid_players) df.

End FilterDetected.




Definition normalize_to_attacking_direction (x y : list float) (period : Z)
    (home_team_attack_direction : list string) : pyresult (list float * list float) :=
  match home_team_attack_direction with
  | [] => Raise IndexError
  | d :: _ =>
      let p1_dir := if String.eqb d "left"
                    then "left_to_right"%string
                    else "right_to_left"%string in
      Return (standardize_direction x y period p1_dir "home_ltr")
  end.

(** The defaults of the source are [target_fps=5.0], [original_fps=10.0].
    [int] is taken of the exact quotient. *)
Definition resample_trajectory (x y timestamps : list float)
    (target_fps original_fps : Q)
  : pyresult (list float * list float * list float) :=
  if Qeq_bool target_fps 0 then Raise ZeroDivisionError
  else
    let step := py_int (original_fps / target_fps) in
    let step := Z.to_nat (Z.max 1 step) in
    Return (stride step x, stride step y, stride step timestamps).

(** ** src/utils/physics.py: acceleration, speed classes, covered distance *)

(** The speed classes of [classify_speed] on one value in km/h, the nested
    [np.where] read from the outside in. *)
Definition speed_category (v : float) : string :=
  if flt v (Some 1) then "standing"
  else if flt v (Some 11) then "walking"
  else if flt v (Some 14) then "jogging"
  else if flt v (Some 20) then "running"
  else if flt v (Some 25) then "hsr"
  else "sprint".

(** The default of the source is [unit='km/h']. *)
Definition classify_speed (velocity : list float) (unit : string) : list string :=
  let velocity := if String.eqb unit "m/s" then scalar_op fmul velocity 3.6
                  else velocity in
  map speed_category velocity.

(** The classes in the order of their speed ranges. *)
Definition speed_rank (category : string) : nat :=
  if String.eqb category "standing" then 0
  else if String.eqb category "walking" then 1
  else if String.eqb category "jogging" then 2
  else if String.eqb category "running" then 3
  else if String.eqb category "hsr" then 4
  else 5.

Section WithSqrtPhysics.

Variable np_sqrt : Q -> Q.

(** [acceleration[0]] raises on an empty array. *)
Definition calculate_acceleration (x y : list float) (fps : Q)
  : pyresult (list float) :=
  let* velocity := calculate_velocity np_sqrt x y fps "m/s" None in
  if Qeq_bool fps 0 then Raise ZeroDivisionError
  else
    let dt := 1 / fps in
    let acceleration := scalar_op fdiv (np_diff velocity) dt in
    match acceleration with
    | [] => Raise IndexError
    | a0 :: _ => Return (a0 :: acceleration)
    end.

Definition calculate_covered_distance (x y : list float) : pyresult float :=
  let dx := np_diff x in
  let dy := np_diff y in
  let* distances := hypot_arrays np_sqrt dx dy in
  Return (np_sum distances).

(** ** src/preprocessing/features.py: duels and possession splits

    [tracking_df] is in wide format: the columns [f"{id}_x"], [f"{id}_y"] of
    every player and [ball_owning_team_id], all of one length. *)

Record proximity_plot : Type := mk_plot {
  plot_x : list float;
  plot_y : list float;
  plot_distance : list float
}.

(** [pd.DataFrame()]. *)
Definition empty_plot : proximity_plot := mk_plot [] [] [].

(** The defaults of the source are [threshold=8.0], [fps=10].  [present]
    marks the rows that [dropna(subset=cols)] keeps. *)
Definition calculate_proximity_stats (tracking_df : gmap string (list float))
    (p1_id p2_id : Z) (threshold fps : Q) : pyresult (float * proximity_plot) :=
  let col (id : Z) (suffix : string) := tracking_df !! (str_of_int id ++ suffix)%string in
  match col p1_id "_x"%string, col p1_id "_y"%string,
        col p2_id "_x"%string, col p2_id "_y"%string with
  | Some x1, Some y1, Some x2, Some y2 =>
      let present :=
        zip2 andb (zip2 (fun a b => negb (isnan a) && negb (isnan b)) x1 y1)
                  (zip2 (fun a b => negb (isnan a) && negb (isnan b)) x2 y2) in
      let x1 := select present x1 in
      let y1 := select present y1 in
      let x2 := select present x2 in
      let y2 := select present y2 in
      if negb (existsb (fun b : bool => b) present)
      then Return (Some 0, empty_plot)
      else
        let dx := zip2 fsub x1 x2 in
        let dy := zip2 fsub y1 y2 in
        let distance := map (fsqrt np_sqrt) (zip2 fadd (map square dx) (map square dy)) in
        let clash := map (fun d => fle d (Some threshold)) distance in
        if negb (existsb (fun b : bool => b) clash)
        then Return (Some 0, empty_plot)
        else if Qeq_bool fps 0 then Raise ZeroDivisionError
        else
          let n := length (select clash distance) in
          let minutes := Some (of_nat n / fps / 60) in
          Return (minutes,
                  mk_plot (scalar_op fdiv (zip2 fadd (select clash x1) (select clash x2)) 2)
                          (scalar_op fdiv (zip2 fadd (select clash y1) (select clash y2)) 2)
                          (select clash distance))
  | _, _, _, _ => Return (Some 0, empty_plot)
  end.

Record split_stats : Type := mk_split {
  in_poss_dist : float;
  out_poss_dist : float;
  in_poss_sprint : float;
  out_poss_sprint : float
}.

(** [Series.diff()]: the first entry has no predecessor. *)
Definition series_diff (a : list float) : list float :=
  match a with
  | [] => []
  | _ :: _ => NaN :: np_diff a
  end.

(** [==] and [!=] of a float column with an integer. *)
Definition eq_int (a : float) (n : Z) : bool :=
  match a with
  | Some q => Qeq_bool q (inject_Z n)
  | None => false
  end.

(** The default of the source is [fps=10].  The sums and the division by
    1000 are exact. *)
Definition calculate_split_physical_stats (tracking_df : gmap string (list float))
    (player_id team_id : Z) (fps : Q) : split_stats :=
  let zeros := mk_split (Some 0) (Some 0) (Some 0) (Some 0) in
  match tracking_df !! (str_of_int player_id ++ "_x")%string,
        tracking_df !! (str_of_int player_id ++ "_y")%string,
        tracking_df !! "ball_owning_team_id"%string with
  | Some x, Some y, Some owner =>
      let present := zip2 (fun a b => negb (isnan a) && negb (isnan b)) x y in
      let x := select present x in
      let y := select present y in
      let owner := select present owner in
      if (length x =? 0)%nat then zeros
      else
        let x_diff := map fabs (series_diff x) in
        let y_diff := map fabs (series_diff y) in
        let dist := map (fsqrt np_sqrt) (zip2 fadd (map square x_diff) (map square y_diff)) in
        let dist := map (fun d => if fgt d (Some 1.2) then Some 0 else d) dist in
        let step_dist := fillna dist (Some 0) in
        let speed := scalar_op fmul step_dist fps in
        let mask_in := map (fun o => eq_int o team_id) owner in
        let mask_out :=
          map (fun o => negb (eq_int o team_id) && negb (isnan o)
                        && negb (eq_int o (-1))) owner in
        let fast := map (fun v => fgt v (Some 5.5)) speed in
        mk_split
          (fdiv (np_sum (select mask_in step_dist)) (Some 1000))
          (fdiv (np_sum (select mask_out step_dist)) (Some 1000))
          (np_sum (select (zip2 andb mask_in fast) step_dist))
          (np_sum (select (zip2 andb mask_out fast) step_dist))
  | _, _, _ => zeros
  end.

End WithSqrtPhysics.

(** ** src/preprocessing/time.py: the period starts *)

(** An entry of [metadata['periods']]: a dict, of which the keys ['period'],
    ['id'] and ['start_frame'] are read, or an object with the attributes
    [id] and [start_frame].  ['period'] can be absent ([None]) or present
    with the value [None] ([Some None]); for the other fields an absent key
    and the value [None] come to the same. *)
Inductive period_entry : Type :=
| PeriodDict (period : option (option Z)) (id : option Z) (start_frame : option Z)
| PeriodObject (id : option Z) (start_frame : option Z).

(** The two keys of [metadata] the function reads. *)
Record match_metadata : Type := mk_metadata {
  periods_extra : option (list period_entry);
  periods : option (list period_entry)
}.

(** The loop body of [get_period_starts]. *)
Definition record_period (starts : gmap Z Z) (p : period_entry) : gmap Z Z :=
  let '(pid, start) :=
    match p with
    | PeriodDict period id start_frame =>
        (match period with Some v => v | None => id end, start_frame)
    | PeriodObject id start_frame => (id, start_frame)
    end in
  match pid, start with
  | Some pid, Some start => if (pid =? 0)%Z then starts else <[pid := start]> starts
  | _, _ => starts
  end.

Definition get_period_starts (metadata : match_metadata) : gmap Z Z :=
  let periods :=
    match periods_extra metadata with
    | Some ps => ps
    | None => default [] (periods metadata)
    end in
  fold_left record_period periods ∅.

(** ** src/preprocessing/data.py: the legacy wrappers *)

(** [merge_tracking_with_events]: the rows of [tracking_df] with their
    timestamp, and the rows of [events_df]. *)
Definition merge_tracking_with_events {Row Event : Type} (timestamp : Row -> float)
    (tracking_df : list Row) (events_df : list Event) : list Row :=
  match tracking_df, events_df with
  | [], _ => tracking_df
  | _, [] => tracking_df
  | _, _ => sort_by timestamp tracking_df
  end.

(** The second argument of [calculate_match_minute]: a dict of start
    frames, a list of periods, or anything else. *)
Inductive periods_data : Type :=
| StartsDict (starts : gmap Z Z)
| PeriodList (ps : list period_entry)
| OtherData.

(** [calculate_match_minute] reads the columns [frame] and [period] of
    [df], when it has them, and adds [match_minute]; the model returns the
    new column, [None] when none is added. *)
Definition calculate_match_minute (frame period : option (list Z))
    (match_periods_data : periods_data) : pyresult (option (list float)) :=
  let starts :=
    match match_periods_data with
    | StartsDict d => d
    | PeriodList l => get_period_starts (mk_metadata None (Some l))
    | OtherData => ∅
    end in
  match frame, period with
  | Some frame, Some period =>
      let* seconds := calculate_match_clock (Array frame) (Array period) starts 10 in
      match seconds with
      | Seconds s => Return (Some (scalar_op fdiv s 60))
      | Clock _ => Return None
      end
  | _, _ => Return None
  end.

(** ** src/preprocessing/segmentation.py *)

(** The defaults of the source are [window_size=100], [overlap=50]. *)
Definition create_time_windows {Row : Type} (df : list Row) (window_size overlap : Z)
  : pyresult (list (list Row)) :=
  let step := (window_size - overlap)%Z in
  let* starts := py_range 0 (Z.of_nat (length df) - window_size + 1) step in
  Return (map (fun start_idx : Z =>
                 let end_idx := (start_idx + window_size)%Z in
                 iloc df start_idx end_idx)
              starts).

(** ** src/utils/misc.py *)

(** [seconds // 60] and [seconds % 60] are floor division and its
    remainder.  They are taken here on the exact value: for a float that
    is not negative (and below [2^53]) that is what Python computes; below
    zero the float remainder is rounded and can come out as 60.0 (for
    [-1e-20] the program prints [-1:60]), which this definition does not
    follow. *)
Definition seconds_to_time (seconds : Q) : string :=
  let minutes := Qfloor (seconds / 60) in
  let secs := Qfloor (seconds - 60 * inject_Z (Qfloor (seconds / 60))) in
  (format_02d minutes ++ ":" ++ format_02d secs)%string.

Section FindFrame.

Context {Frame : Type}.
Variable frame_id : Frame -> Z.

(** The loop of [find_frame_by_id] over [dataset.frames], with its two
    variables. *)
Fixpoint find_frame_loop (frames : list Frame) (target_frame_id : Z)
    (closest_frame : option Frame) (closest_diff : option Z)
  : option Frame * option Z :=
  match frames with
  | [] => (closest_frame, closest_diff)
  | frame :: frames' =>
      let diff := Z.abs (frame_id frame - target_frame_id) in
      if (diff =? 0)%Z then (Some frame, Some 0%Z)
      else if match closest_diff with
              | None => true
              | Some c => (diff <? c)%Z
              end
      then find_frame_loop frames' target_frame_id (Some frame) (Some diff)
      else find_frame_loop frames' target_frame_id closest_frame closest_diff
  end.

Definition find_frame_by_id (frames : list Frame) (target_frame_id : Z)
  : option Frame * option Z :=
  find_frame_loop frames target_frame_id None None.

End FindFrame.

(** ** src/utils/pitch.py *)

Definition long_zone (third : Q) (x : float) : string :=
  if flt x (Some (- third)) then "defensive_third"
  else if fgt x (Some third) then "attacking_third"
  else "middle_third".

Definition lat_zone (channel_width : Q) (y : float) : string :=
  if flt y (Some (- channel_width)) then "left_channel"
  else if fgt y (Some channel_width) then "right_channel"
  else "center_channel".

(** The zone of one point or of each point of an array. *)
Inductive zones : Type :=
| Zone (z : string)
| Zones (a : list string).

Section PitchZone.

(** [str] of a NumPy array of strings, which the f-string of the scalar
    branch applies to [lat_zone] when only [y] is an array. *)
Variable np_str : list string -> string.

(** The defaults of the source are [pitch_length=105], [pitch_width=68]. *)
Definition get_pitch_zone (x y : arg float) (pitch_length pitch_width : Q)
  : pyresult zones :=
  let third := pitch_length / 3 in
  let channel_width := pitch_width / 3 in
  match x, y with
  | Scalar x, Scalar y =>
      Return (Zone (long_zone third x ++ "_" ++ lat_zone channel_width y))
  | Scalar x, Array y =>
      Return (Zone (long_zone third x ++ "_" ++ np_str (map (lat_zone channel_width) y)))
  | Array x, Scalar y =>
      Return (Zones (map (fun l => (l ++ "_" ++ lat_zone channel_width y)%string)
                         (map (long_zone third) x)))
  | Array x, Array y =>
      let* z := broadcast2 String.append
                  (map (fun l => (l ++ "_")%string) (map (long_zone third) x))
                  (map (lat_zone channel_width) y) in
      Return (Zones z)
  end.

End PitchZone.

(** ** Vocabulary of the further statements *)

(** The zone seen from the other end of the pitch: defensive and attacking
    third change places, and so do the left and the right channel. *)
Definition mirror_zone (z : string) : string :=
  let table : list (string * string) :=
    [ ("defensive_third_left_channel", "attacking_third_right_channel");
      ("defensive_third_center_channel", "attacking_third_center_channel");
      ("defensive_third_right_channel", "attacking_third_left_channel");
      ("middle_third_left_channel", "middle_third_right_channel");
      ("middle_third_center_channel", "middle_third_center_channel");
      ("middle_third_right_channel", "middle_third_left_channel");
      ("attacking_third_left_channel", "defensive_third_right_channel");
      ("attacking_third_center_channel", "defensive_third_center_channel");
      ("attacking_third_right_channel", "defensive_third_left_channel") ]%string in
  match List.find (fun p => String.eqb (fst p) z) table with
  | Some p => snd p
  | None => z
  end.

(** Keys in ascending order, NaN last. *)
Fixpoint nondecreasing (keys : list float) : Prop :=
  match keys with
  | a :: (b :: _) as keys' => key_le a b = true /\ nondecreasing keys'
  | _ => True
  end.



(** * Lengths *)

Lemma length_zip2 {A B C : Type} (f : A -> B -> C) (a : list A) (b : list B) :
  length (zip2 f a b) = Nat.min (length a) (length b).
Proof.
  revert b; induction a as [|x a IH]; intros [|y b]; simpl; auto.
Qed.

Lemma length_np_diff (a : list float) : length (np_diff a) = (length a - 1)%nat.
Proof.
  induction a as [|x [|y a] IH]; simpl in *; auto.
  rewrite IH. lia.
Qed.

Lemma length_where_from (i : nat) (mask : list bool) :
  (length (where_from i mask) <= length mask)%nat.
Proof.
  revert i; induction mask as [|[] mask IH]; intros i; simpl; auto.
  - specialize (IH (S i)). lia.
Qed.

Lemma length_savgol_filter (x : list Q) (w p : nat) (r : list Q) :
  savgol_filter x w p = Return r -> length r = length x.
Proof.
  unfold savgol_filter.
  destruct (w <=? p)%nat; [discriminate|].
  destruct (Nat.even w); [discriminate|].
  destruct (length x <? w)%nat; [discriminate|].
  intros [= <-]. now rewrite length_map, length_seq.
Qed.

Lemma savgol_filter_returns (x : list Q) (w p : nat) :
  Nat.odd w = true -> (p < w)%nat -> (w <= length x)%nat ->
  exists r, savgol_filter x w p = Return r.
Proof.
  intros Hodd Hp Hw. unfold savgol_filter.
  destruct (Nat.leb_spec w p); [lia|].
  rewrite <- Nat.negb_odd, Hodd. simpl.
  destruct (Nat.ltb_spec (length x) w); [lia|].
  eauto.
Qed.

Lemma length_interpolate (data : list float) : length (interpolate data) = length data.
Proof. unfold interpolate. now rewrite length_map, length_seq. Qed.

Lemma length_finite (data : list float) (qs : list Q) :
  finite data = Some qs -> length qs = length data.
Proof.
  revert qs; induction data as [|[v|] data IH]; simpl; intros qs H.
  - now inversion H.
  - destruct (finite data) as [qs'|]; [|discriminate].
    inversion H; subst. simpl. f_equal. now apply IH.
  - discriminate.
Qed.

Lemma finite_map_Some (qs : list Q) : finite (map Some qs) = Some qs.
Proof. induction qs as [|q qs IH]; simpl; [reflexivity|now rewrite IH]. Qed.

Lemma finite_Some_map (data : list float) (qs : list Q) :
  finite data = Some qs -> data = map Some qs.
Proof.
  revert qs; induction data as [|[v|] data IH]; simpl; intros qs H.
  - now inversion H.
  - destruct (finite data) as [qs'|]; [|discriminate].
    inversion H; subst. simpl. f_equal. now apply IH.
  - discriminate.
Qed.

Lemma length_safe_savgol (data : list float) (window order : nat) :
  length (_safe_savgol data window order) = length data.
Proof.
  unfold _safe_savgol.
  set (d := if existsb isnan data then interpolate data else data).
  assert (Hd : length d = length data).
  { unfold d. destruct (existsb isnan data); [apply length_interpolate|reflexivity]. }
  destruct (finite d) as [qs|] eqn:Hf; [|assumption].
  destruct (savgol_filter qs _ order) as [r|e] eqn:Hs; [|assumption].
  rewrite length_map, (length_savgol_filter _ _ _ _ Hs).
  now rewrite (length_finite _ _ Hf).
Qed.

Lemma length_smooth_segment (segment : list float) (W P : nat) :
  length (smooth_segment segment W P) = length segment.
Proof.
  unfold smooth_segment.
  repeat match goal with
         | |- context [if ?b then _ else _] => destruct b
         end; auto using length_safe_savgol.
Qed.

(** * The loop of the gap-aware smoother *)

Lemma ascending_le (start : nat) (bs : list nat) (n : nat) :
  ascending start bs n ->
  (start <= last_boundary start bs)%nat /\ (last_boundary start bs <= n)%nat.
Proof.
  revert start; induction bs as [|e bs IH]; simpl; intros start H.
  - lia.
  - destruct H as [Hse H]. specialize (IH e H). lia.
Qed.

Lemma ascending_where (s i n : nat) (mask : list bool) :
  (s <= i)%nat -> (i + length mask <= n)%nat ->
  ascending s (where_from i mask ++ [n]) n.
Proof.
  revert s i; induction mask as [|b mask IH]; simpl; intros s i Hs Hn.
  - lia.
  - destruct b; simpl.
    + split; [assumption|]. apply IH; lia.
    + apply IH; lia.
Qed.

Lemma last_boundary_app (s n : nat) (bs : list nat) :
  last_boundary s (bs ++ [n]) = n.
Proof. revert s; induction bs as [|e bs IH]; simpl; auto. Qed.

Lemma length_slice {A : Type} (a : list A) (start stop : nat) :
  length (slice a start stop) = Nat.min (stop - start) (length a - start).
Proof. unfold slice. now rewrite length_take, length_drop. Qed.

Lemma smooth_step_returns (vals : list float) (W P : nat) (sm : list float)
    (start e : nat) :
  length sm = length vals -> (start <= e)%nat ->
  smooth_step vals W P (Return (sm, start)) e
  = Return (take start sm ++ smooth_segment (slice vals start e) W P ++ drop e sm, e).
Proof.
  intros Hlen Hse. unfold smooth_step, slice_assign; simpl.
  rewrite length_smooth_segment, !length_slice, Hlen, Nat.eqb_refl. simpl.
  now rewrite Nat.max_r.
Qed.

Lemma fold_smooth_step (vals : list float) (W P : nat) (bs : list nat) :
  forall (sm : list float) (start : nat),
    length sm = length vals -> ascending start bs (length vals) ->
    fold_left (smooth_step vals W P) bs (Return (sm, start))
    = Return (take start sm
                ++ concat (map (fun seg => smooth_segment seg W P) (cut vals start bs))
                ++ drop (last_boundary start bs) sm,
              last_boundary start bs).
Proof.
  induction bs as [|e bs IH]; intros sm start Hlen Hasc.
  - simpl. now rewrite take_drop.
  - destruct Hasc as [Hse Hasc].
    destruct (ascending_le _ _ _ Hasc) as [Hel Hln].
    cbn [fold_left]. rewrite smooth_step_returns by assumption.
    set (rhs := smooth_segment (slice vals start e) W P).
    assert (Hrhs : length rhs = (e - start)%nat).
    { unfold rhs. rewrite length_smooth_segment, length_slice. lia. }
    assert (Hpre : length (take start sm ++ rhs) = e).
    { rewrite length_app, length_take, Hrhs. lia. }
    rewrite IH; [|rewrite !length_app, length_take, length_drop, Hrhs; lia|assumption].
    cbn [cut map concat last_boundary]. fold rhs.
    f_equal. f_equal.
    rewrite !(app_assoc (take start sm) rhs).
    rewrite take_app_length' by (symmetry; assumption).
    rewrite drop_app_ge by lia. rewrite Hpre.
    rewrite drop_drop. rewrite <- !app_assoc.
    repeat f_equal. lia.
Qed.

Lemma length_split_mask (t0 : float) (ts : list float) (gap : Q) :
  length (map (fun d => fgt d (Some gap)) (np_diff (t0 :: ts))) = length ts.
Proof. rewrite length_map, length_np_diff. simpl. lia. Qed.

(** With gaps, the output is the concatenation of the smoothed segments. *)
Lemma apply_gap_aware_smoothing_segments (vals ts : list float) (gap : Q) (W P : nat) :
  length ts = length vals -> (W <= length vals)%nat ->
  split_indices ts gap <> [] ->
  apply_gap_aware_smoothing vals ts gap W P
  = Return (concat (map (fun seg => smooth_segment seg W P)
                        (cut vals 0 (split_indices ts gap ++ [length vals])))).
Proof.
  intros Hlen HW Hsplit. unfold apply_gap_aware_smoothing.
  destruct (Nat.ltb_spec (length vals) W); [lia|].
  destruct ts as [|t0 ts]; [now elim Hsplit|].
  destruct (Nat.eqb_spec (length (split_indices (t0 :: ts) gap)) 0) as [H0|_].
  { destruct (split_indices (t0 :: ts) gap); [now elim Hsplit|discriminate]. }
  rewrite fold_smooth_step.
  - simpl. rewrite last_boundary_app.
    rewrite drop_ge by (rewrite repeat_length; lia). now rewrite app_nil_r.
  - apply repeat_length.
  - unfold split_indices, np_where. apply ascending_where; [lia|].
    rewrite length_split_mask. simpl in *. lia.
Qed.

Lemma length_cut_concat (vals : list float) (f : list float -> list float) :
  (forall seg, length (f seg) = length seg) ->
  forall (bs : list nat) (start : nat),
    ascending start bs (length vals) ->
    length (concat (map f (cut vals start bs))) = (last_boundary start bs - start)%nat.
Proof.
  intros Hf. induction bs as [|e bs IH]; simpl; intros start H.
  - lia.
  - destruct H as [Hse H]. destruct (ascending_le _ _ _ H) as [Hel Hln].
    rewrite length_app, Hf, length_slice, (IH e H). lia.
Qed.

Lemma split_indices_ascending (ts : list float) (gap : Q) (n : nat) :
  length ts = n -> ascending 0 (split_indices ts gap ++ [n]) n.
Proof.
  intros Hn. destruct ts as [|t0 ts].
  - simpl in *. lia.
  - unfold split_indices, np_where. apply ascending_where; [lia|].
    rewrite length_split_mask. lia.
Qed.

(** The window of the middle tier: [len | 1], less two when that
    overshoots, is the largest odd number not above [len]. *)
Lemma lor_1_even (n : nat) : Nat.even n = true -> Nat.lor n 1 = (n + 1)%nat.
Proof.
  intros He.
  assert (Hl : Nat.land n 1 = 0%nat).
  { change 1%nat with (Nat.ones 1). rewrite Nat.land_ones.
    apply Nat.even_spec in He. destruct He as [k ->].
    change (2 ^ 1)%nat with 2%nat. rewrite Nat.mul_comm. apply Nat.Div0.mod_mul. }
  rewrite <- Nat.lxor_lor by assumption.
  symmetry. now apply Nat.add_nocarry_lxor.
Qed.

Lemma lor_1_odd (n : nat) : Nat.odd n = true -> Nat.lor n 1 = n.
Proof.
  intros Ho. destruct n as [|m]; [discriminate|].
  rewrite Nat.odd_succ in Ho.
  replace (S m) with (m + 1)%nat by lia.
  rewrite <- (lor_1_even m Ho) at 1.
  rewrite <- Nat.lor_assoc. rewrite Nat.lor_diag. now apply lor_1_even.
Qed.

Lemma shrunk_window (len : nat) :
  (2 <= len)%nat ->
  let w0 := Nat.lor len 1 in
  let w := if (w0 =? len + 1)%nat then (w0 - 2)%nat else w0 in
  Nat.odd w = true /\ (w <= len < w + 2)%nat.
Proof.
  intros Hlen. cbv zeta.
  destruct (Nat.even len) eqn:He.
  - rewrite (lor_1_even _ He), Nat.eqb_refl.
    split; [|lia].
    replace (len + 1 - 2)%nat with (len - 1)%nat by lia.
    destruct len as [|m]; [lia|].
    rewrite Nat.even_succ in He. simpl. now rewrite Nat.sub_0_r.
  - assert (Ho : Nat.odd len = true) by (now rewrite <- Nat.negb_even, He).
    rewrite (lor_1_odd _ Ho).
    destruct (Nat.eqb_spec len (len + 1)); [lia|]. split; [assumption|lia].
Qed.

Lemma smooth_segment_tiers (seg : list float) (W P : nat) :
  ((W < length seg)%nat -> smooth_segment seg W P = _safe_savgol seg W P)
  /\ ((P + 2 < length seg <= W)%nat ->
      exists w, Nat.odd w = true /\ (w <= length seg < w + 2)%nat /\ (P < w)%nat
                /\ smooth_segment seg W P = _safe_savgol seg w P)
  /\ ((length seg <= W)%nat -> (length seg <= P + 2)%nat ->
      smooth_segment seg W P = seg).
Proof.
  unfold smooth_segment. repeat split.
  - intros H. destruct (Nat.ltb_spec W (length seg)); [reflexivity|lia].
  - intros [H1 H2].
    destruct (Nat.ltb_spec W (length seg)); [lia|].
    destruct (Nat.ltb_spec (P + 2) (length seg)); [|lia].
    destruct (shrunk_window (length seg)) as [Hodd Hw]; [lia|].
    cbv zeta in Hodd, Hw.
    set (w := if (Nat.lor (length seg) 1 =? length seg + 1)%nat
              then (Nat.lor (length seg) 1 - 2)%nat else Nat.lor (length seg) 1) in *.
    exists w. destruct (Nat.ltb_spec P w); [|lia]. repeat split; auto; lia.
  - intros H1 H2.
    destruct (Nat.ltb_spec W (length seg)); [lia|].
    destruct (Nat.ltb_spec (P + 2) (length seg)); [lia|reflexivity].
Qed.

Lemma safe_savgol_even (data : list float) (W P : nat) :
  Nat.even W = true -> _safe_savgol data W P = _safe_savgol data (W + 1) P.
Proof.
  intros He. unfold _safe_savgol. rewrite He.
  replace (Nat.even (W + 1)) with false; [reflexivity|].
  rewrite Nat.add_1_r, Nat.even_succ, <- Nat.negb_even, He. reflexivity.
Qed.

Lemma safe_savgol_applies (seg : list float) (w P : nat) (qs : list Q) :
  Nat.odd w = true -> (P < w <= length seg)%nat ->
  finite (if existsb isnan seg then interpolate seg else seg) = Some qs ->
  exists r, savgol_filter qs w P = Return r /\ _safe_savgol seg w P = map Some r.
Proof.
  intros Hodd [HP Hw] Hf. unfold _safe_savgol. rewrite Hf.
  rewrite <- Nat.negb_odd, Hodd. simpl.
  destruct (savgol_filter_returns qs w P Hodd HP) as [r Hr].
  - rewrite (length_finite _ _ Hf).
    destruct (existsb isnan seg); [rewrite length_interpolate|]; assumption.
  - exists r. now rewrite Hr.
Qed.

(** The smoother returns, and keeps the length. *)
Lemma smoothing_returns (vals ts : list float) (gap : Q) (W P : nat) :
  length ts = length vals -> (0 < W)%nat ->
  exists out, apply_gap_aware_smoothing vals ts gap W P = Return out
              /\ length out = length vals.
Proof.
  intros Hlen HW.
  destruct (Nat.lt_ge_cases (length vals) W) as [Hs|Hl].
  - exists vals. split; [|reflexivity].
    unfold apply_gap_aware_smoothing.
    destruct (Nat.ltb_spec (length vals) W); [reflexivity|lia].
  - destruct (split_indices ts gap) as [|k ks] eqn:Hsplit.
    + exists (_safe_savgol vals W P). split; [|apply length_safe_savgol].
      unfold apply_gap_aware_smoothing.
      destruct (Nat.ltb_spec (length vals) W); [lia|].
      destruct ts as [|t0 ts]; [simpl in Hlen; lia|]. now rewrite Hsplit.
    + eexists. split.
      * apply apply_gap_aware_smoothing_segments; auto. rewrite Hsplit. discriminate.
      * rewrite length_cut_concat.
        -- rewrite last_boundary_app. lia.
        -- intros seg. apply length_smooth_segment.
        -- apply split_indices_ascending. assumption.
Qed.

Lemma maybe_smooth_returns (b : bool) (vals ts : list float) (gap : Q) (W P : nat) :
  length ts = length vals -> (0 < W)%nat ->
  exists out,
    (if b then apply_gap_aware_smoothing vals ts gap W P else Return vals) = Return out
    /\ length out = length vals.
Proof.
  intros Hlen HW. destruct b; [now apply smoothing_returns|eauto].
Qed.

(** * The gap-aware smoother: claims C3, C4, C5 *)

(** C3, as stated, fails, twice.  A gap-free series of six samples with
    the default window 7 and order 2 lies in the middle tier
    ([P + 2 < 6 <= W]) and the odd window 5 exceeds the order, yet the
    series comes back unsmoothed, where the filter with window 5 would
    change it.  And with window 5 and order 1 a segment of three samples
    after a gap is copied through although the odd window 3 exceeds the
    order and the filter with it would change the segment. *)
Lemma C3_unsmoothed_despite_odd_window :
  (split_indices short_stamps 0.2 = []
   /\ (SMOOTHING_POLY_ORDER + 2 < length short_series <= SMOOTHING_WINDOW_SIZE)%nat
   /\ (Nat.odd 5 = true /\ (5 <= length short_series < 5 + 2)%nat
       /\ (SMOOTHING_POLY_ORDER < 5)%nat)
   /\ apply_gap_aware_smoothing short_series short_stamps 0.2
        SMOOTHING_WINDOW_SIZE SMOOTHING_POLY_ORDER = Return short_series
   /\ _safe_savgol short_series 5 SMOOTHING_POLY_ORDER <> short_series)
  /\ (split_indices odd_stamps 0.2 = [5%nat]
      /\ (Nat.odd 3 = true /\ (3 <= length (drop 5 odd_series) < 3 + 2)%nat
          /\ (1 < 3)%nat)
      /\ (exists out, apply_gap_aware_smoothing odd_series odd_stamps 0.2 5 1
                       = Return out
                       /\ drop 5 out = drop 5 odd_series)
      /\ _safe_savgol (drop 5 odd_series) 3 1 <> drop 5 odd_series).
Proof.
  split.
  - repeat split; try (vm_compute; lia); try reflexivity.
    vm_compute. discriminate.
  - split; [reflexivity|]. split; [repeat split; vm_compute; lia|]. split.
    + eexists. split; [vm_compute; reflexivity|]. reflexivity.
    + vm_compute. discriminate.
Qed.

(** C3, amended.  A series shorter than the window size [W] is returned
    unchanged.  Otherwise a gap-free series goes whole to the filter with
    window [W], and with gaps the output is the segments, each treated by
    its length: longer than [W], the filter with window [W]; [P + 2 <
    length <= W], the filter with the largest odd window not above the
    length, which exceeds [P]; at most [P + 2] (and at most [W]), copied
    through.  An even window is raised by one, and a filter call with an
    odd window above [P] and within the data does filter. *)
Theorem C3_window_tiers (vals ts : list float) (gap : Q) (W P : nat) :
  length ts = length vals ->
  ((length vals < W)%nat ->
     apply_gap_aware_smoothing vals ts gap W P = Return vals)
  /\ ((W <= length vals)%nat -> vals <> [] -> split_indices ts gap = [] ->
      apply_gap_aware_smoothing vals ts gap W P = Return (_safe_savgol vals W P))
  /\ ((W <= length vals)%nat -> split_indices ts gap <> [] ->
      apply_gap_aware_smoothing vals ts gap W P
      = Return (concat (map (fun seg => smooth_segment seg W P)
                            (cut vals 0 (split_indices ts gap ++ [length vals])))))
  /\ (forall seg : list float,
        ((W < length seg)%nat -> smooth_segment seg W P = _safe_savgol seg W P)
        /\ ((P + 2 < length seg <= W)%nat ->
            exists w, Nat.odd w = true /\ (w <= length seg < w + 2)%nat /\ (P < w)%nat
                      /\ smooth_segment seg W P = _safe_savgol seg w P)
        /\ ((length seg <= W)%nat -> (length seg <= P + 2)%nat ->
            smooth_segment seg W P = seg))
  /\ (forall (seg : list float) (w : nat),
        (Nat.even w = true -> _safe_savgol seg w P = _safe_savgol seg (w + 1) P)
        /\ forall qs : list Q,
            Nat.odd w = true -> (P < w <= length seg)%nat ->
            finite (if existsb isnan seg then interpolate seg else seg) = Some qs ->
            exists r, savgol_filter qs w P = Return r
                      /\ _safe_savgol seg w P = map Some r).
Proof.
  intros Hlen. repeat apply conj.
  - intros H. unfold apply_gap_aware_smoothing.
    destruct (Nat.ltb_spec (length vals) W); [reflexivity|lia].
  - intros HW Hne Hsplit. unfold apply_gap_aware_smoothing.
    destruct (Nat.ltb_spec (length vals) W); [lia|].
    destruct ts as [|t0 ts]; [destruct vals; [now elim Hne|discriminate]|].
    now rewrite Hsplit.
  - intros HW Hsplit. now apply apply_gap_aware_smoothing_segments.
  - intros seg. apply smooth_segment_tiers.
  - intros seg w. split.
    + apply safe_savgol_even.
    + intros qs. apply safe_savgol_applies.
Qed.

Lemma C3_window_tiers_witness :
  apply_gap_aware_smoothing gap_series gap_stamps 0.2 7 2
  = Return (concat (map (fun seg => smooth_segment seg 7 2)
                        (cut gap_series 0 (split_indices gap_stamps 0.2
                                             ++ [length gap_series])))).
Proof.
  apply (C3_window_tiers gap_series gap_stamps 0.2 7 2 eq_refl).
  - vm_compute. lia.
  - vm_compute. discriminate.
Defined.

(** C4: the output of the gap-aware smoother has the length of its input,
    for every series with its timestamps and every positive window size,
    whatever the gaps and segment lengths; in particular it returns. *)
Theorem C4_length_preserved (vals ts : list float) (gap : Q) (W P : nat) :
  length ts = length vals -> (0 < W)%nat ->
  exists out, apply_gap_aware_smoothing vals ts gap W P = Return out
              /\ length out = length vals.
Proof.
  intros Hlen HW.
  destruct (Nat.lt_ge_cases (length vals) W) as [Hshort|Hlong].
  - (* shorter than the window: returned as it is *)
    exists vals. split; [|reflexivity].
    unfold apply_gap_aware_smoothing.
    destruct (Nat.ltb_spec (length vals) W); [reflexivity|lia].
  - destruct (split_indices ts gap) as [|k ks] eqn:Hsplit.
    + (* no gap: one filter call over the whole series *)
      exists (_safe_savgol vals W P). split; [|apply length_safe_savgol].
      unfold apply_gap_aware_smoothing.
      destruct (Nat.ltb_spec (length vals) W); [lia|].
      destruct ts as [|t0 ts]; [simpl in Hlen; lia|]. now rewrite Hsplit.
    + (* gaps: the segments tile the series *)
      eexists. split.
      * apply apply_gap_aware_smoothing_segments; auto. rewrite Hsplit. discriminate.
      * rewrite length_cut_concat.
        -- rewrite last_boundary_app. lia.
        -- intros seg. apply length_smooth_segment.
        -- apply split_indices_ascending. assumption.
Qed.

Lemma C4_length_preserved_witness :
  exists out, apply_gap_aware_smoothing gap_series gap_stamps 0.2 7 2 = Return out
              /\ length out = length gap_series.
Proof.
  apply (C4_length_preserved gap_series gap_stamps 0.2 7 2).
  - reflexivity.
  - lia.
Defined.

Lemma take_eq_pointwise {A : Type} (k : nat) (a b : list A) :
  length a = length b ->
  (take k a = take k b <-> forall i, (i < k)%nat -> a !! i = b !! i).
Proof.
  intros Hlen. split.
  - intros H i Hi.
    rewrite <- (lookup_take_lt a k i), <- (lookup_take_lt b k i) by assumption.
    now rewrite H.
  - intros H. apply list_eq. intros i.
    destruct (Nat.lt_ge_cases i k).
    + rewrite !lookup_take_lt by assumption. auto.
    + rewrite !lookup_take_ge by assumption. reflexivity.
Qed.

Lemma drop_eq_pointwise {A : Type} (k : nat) (a b : list A) :
  length a = length b ->
  (drop k a = drop k b <-> forall i, (k <= i)%nat -> a !! i = b !! i).
Proof.
  intros Hlen. split.
  - intros H i Hi.
    replace i with (k + (i - k))%nat by lia.
    rewrite <- !lookup_drop. now rewrite H.
  - intros H. apply list_eq. intros i. rewrite !lookup_drop. apply H. lia.
Qed.

Lemma where_from_bounds (i : nat) (mask : list bool) (k : nat) :
  In k (where_from i mask) -> (i <= k < i + length mask)%nat.
Proof.
  revert i; induction mask as [|b mask IH]; simpl; intros i H.
  - contradiction.
  - destruct b; simpl in H.
    + destruct H as [<-|H]; [lia|]. specialize (IH _ H). lia.
    + specialize (IH _ H). lia.
Qed.

Lemma split_indices_bound (ts : list float) (gap : Q) (k : nat) :
  In k (split_indices ts gap) -> (k < length ts)%nat.
Proof.
  destruct ts as [|t0 ts]; [contradiction|].
  unfold split_indices, np_where. intros H.
  apply where_from_bounds in H. rewrite length_split_mask in H. lia.
Qed.

(** With one gap, at index [k], the output is the smoothed part before the
    gap followed by the smoothed part after it. *)
Lemma apply_gap_aware_smoothing_one_gap (vals ts : list float) (gap : Q)
    (W P k : nat) :
  length vals = length ts -> split_indices ts gap = [k] ->
  exists out,
    apply_gap_aware_smoothing vals ts gap W P = Return out
    /\ length out = length vals
    /\ ((length vals < W)%nat -> out = vals)
    /\ ((W <= length vals)%nat ->
        take k out = smooth_segment (take k vals) W P
        /\ drop k out = smooth_segment (drop k vals) W P).
Proof.
  intros Hlen Hsplit.
  assert (Hk : (k < length vals)%nat).
  { rewrite Hlen. apply (split_indices_bound ts gap). rewrite Hsplit. now left. }
  destruct (Nat.lt_ge_cases (length vals) W) as [Hs|Hl].
  - exists vals. repeat split; try lia.
    unfold apply_gap_aware_smoothing.
    destruct (Nat.ltb_spec (length vals) W); [reflexivity|lia].
  - eexists. split; [|split; [|split]].
    + apply apply_gap_aware_smoothing_segments; auto. rewrite Hsplit. discriminate.
    + rewrite length_cut_concat.
      * rewrite last_boundary_app. lia.
      * intros seg. apply length_smooth_segment.
      * apply split_indices_ascending. auto.
    + lia.
    + intros _. rewrite Hsplit. cbn [app cut map concat]. rewrite app_nil_r.
      assert (H1 : slice vals 0 k = take k vals).
      { unfold slice. now rewrite Nat.sub_0_r, drop_0. }
      assert (H2 : slice vals k (length vals) = drop k vals).
      { unfold slice. apply take_ge. rewrite length_drop. lia. }
      rewrite H1, H2.
      assert (Hl1 : length (smooth_segment (take k vals) W P) = k).
      { rewrite length_smooth_segment, length_take. lia. }
      split.
      * now rewrite take_app_length' by (symmetry; assumption).
      * now rewrite drop_app_length' by (symmetry; assumption).
Qed.

(** C5: with exactly one time gap above the threshold, at index [k], each
    output sample of the gap-aware smoother depends only on the input
    samples on its own side of the gap: two series that agree before the
    gap have the same output before it, and two that agree from the gap on
    have the same output from it on, whatever they hold on the other
    side. *)
Theorem C5_noninterference (vals1 vals2 ts : list float) (gap : Q) (W P k : nat) :
  length vals1 = length ts -> length vals2 = length ts ->
  split_indices ts gap = [k] ->
  exists out1 out2,
    apply_gap_aware_smoothing vals1 ts gap W P = Return out1
    /\ apply_gap_aware_smoothing vals2 ts gap W P = Return out2
    /\ ((forall i, (i < k)%nat -> vals1 !! i = vals2 !! i) ->
        forall i, (i < k)%nat -> out1 !! i = out2 !! i)
    /\ ((forall i, (k <= i)%nat -> vals1 !! i = vals2 !! i) ->
        forall i, (k <= i)%nat -> out1 !! i = out2 !! i).
Proof.
  intros Hl1 Hl2 Hsplit.
  destruct (apply_gap_aware_smoothing_one_gap vals1 ts gap W P k Hl1 Hsplit)
    as (out1 & Ho1 & Hlo1 & Hs1 & Hg1).
  destruct (apply_gap_aware_smoothing_one_gap vals2 ts gap W P k Hl2 Hsplit)
    as (out2 & Ho2 & Hlo2 & Hs2 & Hg2).
  exists out1, out2. split; [assumption|]. split; [assumption|].
  assert (Hvv : length vals1 = length vals2) by congruence.
  assert (Hoo : length out1 = length out2) by congruence.
  destruct (Nat.lt_ge_cases (length vals1) W) as [Hs|Hl].
  - rewrite (Hs1 Hs), (Hs2 ltac:(lia)). auto.
  - destruct (Hg1 Hl) as [Ht1 Hd1]. destruct (Hg2 ltac:(lia)) as [Ht2 Hd2].
    split; intros H.
    + apply take_eq_pointwise; [assumption|].
      rewrite Ht1, Ht2. f_equal. now apply take_eq_pointwise.
    + apply drop_eq_pointwise; [assumption|].
      rewrite Hd1, Hd2. f_equal. now apply drop_eq_pointwise.
Qed.

Lemma C5_noninterference_witness :
  exists out1 out2,
    apply_gap_aware_smoothing gap_series gap_stamps 0.2 7 2 = Return out1
    /\ apply_gap_aware_smoothing gap_series' gap_stamps 0.2 7 2 = Return out2
    /\ ((forall i, (i < 8)%nat -> gap_series !! i = gap_series' !! i) ->
        forall i, (i < 8)%nat -> out1 !! i = out2 !! i)
    /\ ((forall i, (8 <= i)%nat -> gap_series !! i = gap_series' !! i) ->
        forall i, (8 <= i)%nat -> out1 !! i = out2 !! i).
Proof.
  apply (C5_noninterference gap_series gap_series' gap_stamps 0.2 7 2 8);
    reflexivity.
Defined.

(** * The coordinate normaliser: claim C2 *)

Lemma Qlt_bool_iff (x y : Q) : Qlt_bool x y = true <-> x < y.
Proof.
  unfold Qlt_bool. rewrite negb_true_iff. split.
  - intros H. apply Qnot_le_lt. intros Hle.
    apply Qle_bool_iff in Hle. congruence.
  - intros H. destruct (Qle_bool y x) eqn:E; [|reflexivity].
    apply Qle_bool_iff in E. exfalso. now apply (Qlt_not_le x y).
Qed.

Lemma Qle_bool_false (x y : Q) : Qle_bool x y = false <-> y < x.
Proof.
  rewrite <- Qlt_bool_iff. unfold Qlt_bool. now rewrite negb_true_iff.
Qed.

Lemma In_valid (a : list float) (v : float) :
  In v (valid a) <-> In v a /\ isnan v = false.
Proof.
  unfold valid. rewrite filter_In, negb_true_iff. tauto.
Qed.

Lemma In_valid_Some (a : list float) (v : Q) : In (Some v) (valid a) <-> In (Some v) a.
Proof. rewrite In_valid. simpl. tauto. Qed.

Lemma valid_all_Some (a : list float) : Forall (fun v => isnan v = false) (valid a).
Proof. apply List.Forall_forall. intros v H. now apply In_valid in H. Qed.

Lemma fold_fmax_spec (l : list float) :
  Forall (fun v => isnan v = false) l ->
  forall q : Q, exists m : Q,
    fold_left fmax l (Some q) = Some m
    /\ (m = q \/ In (Some m) l)
    /\ q <= m /\ all_le m l.
Proof.
  induction 1 as [|[v|] l Hv Hl IH]; intros q.
  - exists q. simpl. repeat split; auto using Qle_refl. intros v [].
  - cbn [fold_left fmax].
    destruct (IH (if Qle_bool q v then v else q)) as (m & Hm & Hin & Hqm & Hall).
    exists m. split; [assumption|].
    destruct (Qle_bool q v) eqn:E.
    + apply Qle_bool_iff in E. repeat split.
      * destruct Hin as [->|Hin]; [right; now left|right; now right].
      * eapply Qle_trans; eassumption.
      * intros u [[= <-]|Hu]; [assumption|now apply Hall].
    + apply Qle_bool_false in E. repeat split.
      * destruct Hin as [->|Hin]; [now left|right; now right].
      * assumption.
      * intros u [[= <-]|Hu]; [|now apply Hall].
        apply Qlt_le_weak. eapply Qlt_le_trans; eassumption.
  - discriminate.
Qed.

Lemma fold_fmin_spec (l : list float) :
  Forall (fun v => isnan v = false) l ->
  forall q : Q, exists m : Q,
    fold_left fmin l (Some q) = Some m
    /\ (m = q \/ In (Some m) l)
    /\ m <= q /\ all_ge m l.
Proof.
  induction 1 as [|[v|] l Hv Hl IH]; intros q.
  - exists q. simpl. repeat split; auto using Qle_refl. intros v [].
  - cbn [fold_left fmin].
    destruct (IH (if Qle_bool q v then q else v)) as (m & Hm & Hin & Hqm & Hall).
    exists m. split; [assumption|].
    destruct (Qle_bool q v) eqn:E.
    + apply Qle_bool_iff in E. repeat split.
      * destruct Hin as [->|Hin]; [now left|right; now right].
      * assumption.
      * intros u [[= <-]|Hu]; [|now apply Hall].
        eapply Qle_trans; eassumption.
    + apply Qle_bool_false in E. repeat split.
      * destruct Hin as [->|Hin]; [right; now left|right; now right].
      * apply Qlt_le_weak. eapply Qle_lt_trans; eassumption.
      * intros u [[= <-]|Hu]; [assumption|now apply Hall].
  - discriminate.
Qed.

(** [np.max] and [np.min] over the valid values, against the bounds. *)
Lemma np_max_valid (a : list float) :
  valid a <> [] ->
  exists m : Q, np_max (valid a) = Return (Some m)
                /\ In (Some m) a /\ all_le m a.
Proof.
  intros Hne. pose proof (valid_all_Some a) as Hall.
  destruct (valid a) as [|x l] eqn:E; [now elim Hne|].
  inversion Hall as [|? ? Hx Hl]; subst.
  destruct x as [q|]; [|discriminate].
  destruct (fold_fmax_spec l Hl q) as (m & Hm & Hin & Hqm & Hle).
  exists m. simpl. rewrite Hm. split; [reflexivity|].
  assert (Hsub : forall v, In (Some v) (Some q :: l) <-> In (Some v) a).
  { intros v. rewrite <- E. apply In_valid_Some. }
  split.
  - apply Hsub. destruct Hin as [->|Hin]; [now left|now right].
  - intros v Hv. apply Hsub in Hv. destruct Hv as [[= <-]|Hv]; auto.
Qed.

Lemma np_min_valid (a : list float) :
  valid a <> [] ->
  exists m : Q, np_min (valid a) = Return (Some m)
                /\ In (Some m) a /\ all_ge m a.
Proof.
  intros Hne. pose proof (valid_all_Some a) as Hall.
  destruct (valid a) as [|x l] eqn:E; [now elim Hne|].
  inversion Hall as [|? ? Hx Hl]; subst.
  destruct x as [q|]; [|discriminate].
  destruct (fold_fmin_spec l Hl q) as (m & Hm & Hin & Hqm & Hle).
  exists m. simpl. rewrite Hm. split; [reflexivity|].
  assert (Hsub : forall v, In (Some v) (Some q :: l) <-> In (Some v) a).
  { intros v. rewrite <- E. apply In_valid_Some. }
  split.
  - apply Hsub. destruct Hin as [->|Hin]; [now left|now right].
  - intros v Hv. apply Hsub in Hv. destruct Hv as [[= <-]|Hv]; auto.
Qed.

Lemma max_le_iff (a : list float) (m c : Q) :
  In (Some m) a -> all_le m a -> (Qle_bool m c = true <-> all_le c a).
Proof.
  intros Hin Hmax. rewrite Qle_bool_iff. split.
  - intros H v Hv. eapply Qle_trans; [now apply Hmax|assumption].
  - intros H. now apply H.
Qed.

Lemma min_ge_iff (a : list float) (m c : Q) :
  In (Some m) a -> all_ge m a -> (Qle_bool c m = true <-> all_ge c a).
Proof.
  intros Hin Hmin. rewrite Qle_bool_iff. split.
  - intros H v Hv. eapply Qle_trans; [eassumption|now apply Hmin].
  - intros H. now apply H.
Qed.

Lemma abs_le_iff (a : list float) (lo hi : Q) :
  - hi <= lo -> all_ge lo a -> (all_abs_le hi a <-> all_le hi a).
Proof.
  intros Hlo Hge. split; intros H v Hv.
  - apply (Qabs_Qle_condition v hi). now apply H.
  - apply Qabs_Qle_condition. split; [|now apply H].
    eapply Qle_trans; [eassumption|now apply Hge].
Qed.

Lemma feq_refl (a : float) : feq a a.
Proof. destruct a; simpl; auto. reflexivity. Qed.

Lemma feq_fsub_const (a : float) (c c' : Q) :
  c == c' -> feq (fsub a (Some c)) (fsub a (Some c')).
Proof. intros H. destruct a as [v|]; simpl; auto. now rewrite H. Qed.

Lemma arrays_eq_map (f g : float -> float) (a : list float) :
  (forall v, feq (f v) (g v)) -> arrays_eq (map f a) (map g a).
Proof.
  intros H. unfold arrays_eq. induction a; simpl; constructor; auto.
Qed.

Lemma to_pitch_meters_unit (x y : list float) :
  arrays_eq (fst (to_pitch_meters x y "0_1")) (map spec_unit_x x)
  /\ arrays_eq (snd (to_pitch_meters x y "0_1")) (map spec_unit_y y).
Proof.
  unfold to_pitch_meters, scalar_op. cbn [String.eqb Ascii.eqb Bool.eqb fst snd].
  rewrite !map_map. split; apply arrays_eq_map; intros v;
    apply feq_fsub_const; reflexivity.
Qed.

Lemma to_pitch_meters_percent (x y : list float) :
  arrays_eq (fst (to_pitch_meters x y "0_100")) (map spec_percent_x x)
  /\ arrays_eq (snd (to_pitch_meters x y "0_100")) (map spec_percent_y y).
Proof.
  unfold to_pitch_meters, scalar_op. cbn [String.eqb Ascii.eqb Bool.eqb fst snd].
  rewrite !map_map. split; apply arrays_eq_map; intros v;
    apply feq_fsub_const; reflexivity.
Qed.

Lemma to_pitch_meters_meters (x y : list float) :
  to_pitch_meters x y "skillcorner_meters" = (x, y).
Proof. reflexivity. Qed.

(** When x holds a value and y is all-NaN, [np.min(y_valid)] raises. *)
Example infer_and_scale_coordinates_all_nan_y :
  infer_and_scale_coordinates [Some 0.5] [NaN] = Raise ValueError.
Proof. reflexivity. Qed.

Lemma to_pitch_meters_lengths (x y : list float) (source_type : string) :
  length (fst (to_pitch_meters x y source_type)) = length x
  /\ length (snd (to_pitch_meters x y source_type)) = length y.
Proof.
  unfold to_pitch_meters, scalar_op.
  destruct (String.eqb source_type "skillcorner"); [split; reflexivity|].
  destruct (String.eqb source_type "0_1");
    [cbn [fst snd]; rewrite !length_map; split; reflexivity|].
  destruct (String.eqb source_type "0_100");
    [cbn [fst snd]; rewrite !length_map; split; reflexivity|].
  split; reflexivity.
Qed.

Lemma np_nanmax_abs_returns (a : list float) :
  a <> [] -> exists m, np_nanmax_abs a = Return m.
Proof.
  destruct a as [|v a]; [congruence|]. intros _. unfold np_nanmax_abs.
  destruct (valid (map fabs (v :: a))); eauto.
Qed.

Lemma validate_coordinate_bounds_returns (x y : list float) (tolerance : Q) :
  x <> [] -> y <> [] -> exists w, validate_coordinate_bounds x y tolerance = Return w.
Proof.
  intros Hx Hy. unfold validate_coordinate_bounds.
  destruct (np_nanmax_abs_returns x Hx) as [mx ->].
  destruct (np_nanmax_abs_returns y Hy) as [my ->].
  cbn [bind]. eauto.
Qed.

Lemma valid_nonempty (a : list float) : valid a <> [] -> a <> [].
Proof. intros H ->. now apply H. Qed.

Lemma infer_and_scale_coordinates_tests (x y : list float) :
  valid x <> [] -> valid y <> [] ->
  exists (b1 b2 w : bool),
    (b1 = true <-> code_unit_square x y)
    /\ (b2 = true <-> code_percentage x y)
    /\ let system := if b1 then "0_1"%string
                     else if b2 then "0_100"%string
                     else "skillcorner_meters"%string in
       let xy := to_pitch_meters x y system in
       validate_coordinate_bounds (fst xy) (snd xy) 5 = Return w
       /\ infer_and_scale_coordinates x y
          = Return (mk_scaled (fst xy) (snd xy) system w).
Proof.
  intros Hx Hy. unfold infer_and_scale_coordinates.
  destruct (Nat.eqb_spec (length (valid x)) 0) as [H0|_].
  { destruct (valid x); [now elim Hx|discriminate]. }
  destruct (np_min_valid x Hx) as (min_x & -> & Hminx_in & Hminx).
  destruct (np_max_valid x Hx) as (max_x & -> & Hmaxx_in & Hmaxx).
  destruct (np_min_valid y Hy) as (min_y & -> & Hminy_in & Hminy).
  destruct (np_max_valid y Hy) as (max_y & -> & Hmaxy_in & Hmaxy).
  cbn [bind fle fge fgt flt].
  pose proof (max_le_iff x max_x 1.5 Hmaxx_in Hmaxx) as X15.
  pose proof (max_le_iff y max_y 1.5 Hmaxy_in Hmaxy) as Y15.
  pose proof (max_le_iff x max_x 110 Hmaxx_in Hmaxx) as X110.
  pose proof (max_le_iff y max_y 110 Hmaxy_in Hmaxy) as Y110.
  pose proof (min_ge_iff x min_x 0 Hminx_in Hminx) as X0.
  pose proof (min_ge_iff y min_y 0 Hminy_in Hminy) as Y0.
  pose proof (min_ge_iff x min_x (-1) Hminx_in Hminx) as X1.
  pose proof (min_ge_iff y min_y (-1) Hminy_in Hminy) as Y1.
  unfold Qlt_bool.
  match goal with
  | |- context [to_pitch_meters x y (if ?c1 then _ else if ?c2 then _ else _)] =>
      set (b1 := c1); set (b2 := c2)
  end.
  set (system := if b1 then "0_1"%string
                 else if b2 then "0_100"%string else "skillcorner_meters"%string).
  destruct (to_pitch_meters_lengths x y system) as [Lx Ly].
  destruct (validate_coordinate_bounds_returns
              (fst (to_pitch_meters x y system)) (snd (to_pitch_meters x y system)) 5)
    as [w Hw].
  { intros E. rewrite E in Lx. apply valid_nonempty in Hx. destruct x; [congruence|discriminate]. }
  { intros E. rewrite E in Ly. apply valid_nonempty in Hy. destruct y; [congruence|discriminate]. }
  exists b1, b2, w. split; [|split].
  - unfold b1, code_unit_square. rewrite !andb_true_iff. tauto.
  - unfold b2, code_percentage. rewrite !andb_true_iff, orb_true_iff, !negb_true_iff.
    rewrite <- X15, <- Y15, <- X110, <- Y110, <- X1, <- Y1.
    destruct (Qle_bool max_x 1.5), (Qle_bool max_y 1.5); intuition congruence.
  - cbv zeta. fold system. split; [exact Hw|].
    destruct (to_pitch_meters x y system) as [xs ys]. cbn [fst snd] in *.
    rewrite Hw. reflexivity.
Qed.

Lemma spec_code_unit_square (x y : list float) :
  spec_unit_square x y <-> code_unit_square x y.
Proof.
  unfold spec_unit_square, code_unit_square. split.
  - intros (Ax & Ay & Gx & Gy).
    rewrite <- (abs_le_iff x 0 1.5), <- (abs_le_iff y 0 1.5); auto; discriminate.
  - intros (Ax & Ay & Gx & Gy).
    rewrite (abs_le_iff x 0 1.5), (abs_le_iff y 0 1.5); auto; discriminate.
Qed.

Lemma spec_code_percentage (x y : list float) :
  spec_percentage x y /\ ~ (all_le 1.5 x /\ all_le 1.5 y) <-> code_percentage x y.
Proof.
  unfold spec_percentage, code_percentage. split.
  - intros ((Ax & Ay & Gx & Gy) & Hguard).
    rewrite <- (abs_le_iff x (-1) 110), <- (abs_le_iff y (-1) 110); auto; discriminate.
  - intros (Ax & Ay & Hguard & Gx & Gy).
    rewrite (abs_le_iff x (-1) 110), (abs_le_iff y (-1) 110); auto; discriminate.
Qed.

(** C2, as stated, fails: for one sample at x = -0.5, y = 0.5 the
    unit-square test fails (min(x) < 0) and the percentage test of the
    claim holds, yet the code passes the data through as pitch-meters. *)
Lemma C2_small_range_not_percentage :
  ~ spec_unit_square [Some (-0.5)] [Some 0.5]
  /\ spec_percentage [Some (-0.5)] [Some 0.5]
  /\ infer_and_scale_coordinates [Some (-0.5)] [Some 0.5]
     = Return (mk_scaled [Some (-0.5)] [Some 0.5] "skillcorner_meters" false).
Proof.
  split; [|split].
  - intros (_ & _ & Gx & _). specialize (Gx (-0.5) (or_introl eq_refl)).
    revert Gx. apply Qlt_not_le. reflexivity.
  - repeat split; intros v [[= <-]|[]]; discriminate.
  - reflexivity.
Qed.

(** C2, amended.  For arrays that each hold a value that is not NaN the
    system is inferred over those values by this precedence: unit-square
    when max(|x|) <= 1.5, max(|y|) <= 1.5, min(x) >= 0 and min(y) >= 0;
    otherwise percentage when max(|x|) <= 110, max(|y|) <= 110,
    min(x) >= -1, min(y) >= -1 and, in addition, max(x) > 1.5 or
    max(y) > 1.5; otherwise pitch-meters, passed through unchanged.
    Unit-square is rescaled by x*105 - 52.5, y*68 - 34 and percentage by
    x/100*105 - 52.5, y/100*68 - 34. *)
Theorem C2_inference_precedence (x y : list float) :
  valid x <> [] -> valid y <> [] ->
  exists r : scaled,
    infer_and_scale_coordinates x y = Return r
    /\ (spec_unit_square x y ->
        scale_system r = "0_1"%string
        /\ arrays_eq (x_scaled r) (map spec_unit_x x)
        /\ arrays_eq (y_scaled r) (map spec_unit_y y))
    /\ (~ spec_unit_square x y ->
        spec_percentage x y -> ~ (all_le 1.5 x /\ all_le 1.5 y) ->
        scale_system r = "0_100"%string
        /\ arrays_eq (x_scaled r) (map spec_percent_x x)
        /\ arrays_eq (y_scaled r) (map spec_percent_y y))
    /\ (~ spec_unit_square x y ->
        ~ (spec_percentage x y /\ ~ (all_le 1.5 x /\ all_le 1.5 y)) ->
        scale_system r = "skillcorner_meters"%string
        /\ x_scaled r = x /\ y_scaled r = y).
Proof.
  intros Hx Hy.
  destruct (infer_and_scale_coordinates_tests x y Hx Hy) as (b1 & b2 & w & H1 & H2 & H).
  cbv zeta in H. destruct H as [_ ->].
  rewrite <- spec_code_unit_square in H1.
  rewrite <- spec_code_percentage in H2.
  cbv zeta. eexists. split; [reflexivity|]. cbn [scale_system x_scaled y_scaled].
  split; [|split].
  - intros Hu. apply H1 in Hu. subst b1.
    split; [reflexivity|]. apply to_pitch_meters_unit.
  - intros Hnu Hp Hg.
    destruct b1; [elim Hnu; now apply H1|].
    replace b2 with true by (symmetry; apply H2; auto).
    split; [reflexivity|]. apply to_pitch_meters_percent.
  - intros Hnu Hnp.
    destruct b1; [elim Hnu; now apply H1|].
    destruct b2; [elim Hnp; now apply H2|].
    repeat split.
Qed.

Lemma C2_inference_precedence_witness :
  exists r : scaled,
    infer_and_scale_coordinates [Some 50; NaN; Some 100] [Some 0; Some 25; NaN]
    = Return r
    /\ scale_system r = "0_100"%string
    /\ arrays_eq (x_scaled r) (map spec_percent_x [Some 50; NaN; Some 100])
    /\ arrays_eq (y_scaled r) (map spec_percent_y [Some 0; Some 25; NaN]).
Proof.
  destruct (C2_inference_precedence [Some 50; NaN; Some 100] [Some 0; Some 25; NaN])
    as (r & Hr & _ & Hp & _); [discriminate|discriminate|].
  exists r. split; [assumption|]. apply Hp.
  - intros (Ax & _). specialize (Ax 50 (or_introl eq_refl)). revert Ax.
    apply Qlt_not_le. reflexivity.
  - repeat split; intros v H; simpl in H;
      repeat match goal with
             | H : _ \/ _ |- _ => destruct H
             | H : Some _ = Some _ |- _ => injection H as <-
             | H : None = Some _ |- _ => discriminate H
             | H : False |- _ => contradiction
             end; discriminate.
  - intros (Ax & _). specialize (Ax 50 (or_introl eq_refl)). revert Ax.
    apply Qlt_not_le. reflexivity.
Defined.

(** * The distance aggregator: claims C6, C7 *)

Lemma feq_trans (a b c : float) : feq a b -> feq b c -> feq a c.
Proof.
  destruct a, b, c; simpl; try tauto. intros H1 H2. now rewrite H1.
Qed.

Lemma feq_sym (a b : float) : feq a b -> feq b a.
Proof. destruct a, b; simpl; try tauto. intros H. now symmetry. Qed.

Lemma broadcast2_same_length {A B C : Type} (f : A -> B -> C) (a : list A) (b : list B) :
  length a = length b -> broadcast2 f a b = Return (zip2 f a b).
Proof. intros H. unfold broadcast2. now rewrite H, Nat.eqb_refl. Qed.

Lemma zip2_map {A B A' B' C : Type} (f : A' -> B' -> C) (g : A -> A') (h : B -> B')
    (a : list A) (b : list B) :
  zip2 f (map g a) (map h b) = zip2 (fun u v => f (g u) (h v)) a b.
Proof.
  revert b; induction a as [|u a IH]; intros [|v b]; simpl; auto. now rewrite IH.
Qed.

Lemma map_zip2 {A B C D : Type} (f : A -> B -> C) (g : C -> D) (a : list A) (b : list B) :
  map g (zip2 f a b) = zip2 (fun u v => g (f u v)) a b.
Proof.
  revert b; induction a as [|u a IH]; intros [|v b]; simpl; auto. now rewrite IH.
Qed.

Lemma zip2_map_l {A B C : Type} (f : B -> A -> C) (g : A -> B) (a : list A) :
  zip2 f (map g a) a = map (fun u => f (g u) u) a.
Proof. induction a as [|u a IH]; simpl; auto. now rewrite IH. Qed.

Section Aggregator.

Variable np_sqrt : Q -> Q.

Lemma hypot_arrays_steps (x y : list float) :
  length x = length y ->
  hypot_arrays np_sqrt (np_diff x) (np_diff y) = Return (step_distances np_sqrt x y).
Proof.
  intros H. unfold hypot_arrays.
  rewrite broadcast2_same_length by (rewrite !length_map, !length_np_diff; lia).
  cbn [bind]. unfold step_distances. now rewrite zip2_map, map_zip2.
Qed.

Lemma calculate_velocity_kmh (x y : list float) (fps : Q) :
  length x = length y -> ~ fps == 0 ->
  calculate_velocity np_sqrt x y fps "km/h" None
  = Return (step_speeds_kmh fps (step_distances np_sqrt x y)).
Proof.
  intros H Hfps. unfold calculate_velocity.
  rewrite hypot_arrays_steps by assumption. cbn [bind].
  destruct (Qeq_bool fps 0) eqn:E; [apply Qeq_bool_iff in E; contradiction|].
  cbn [bind String.eqb Ascii.eqb Bool.eqb].
  unfold step_speeds_kmh, scalar_op. now rewrite map_map.
Qed.

End Aggregator.

(** Summing with the rejected steps set to zero is summing without them. *)
Lemma fold_fadd_zeroed (p : float -> bool) (d : list float) :
  (forall v, p v = true -> isnan v = false) ->
  forall a a' : Q, a == a' ->
    feq (fold_left fadd (map (fun v => if p v then v else Some 0) d) (Some a))
        (fold_left fadd (List.filter p d) (Some a')).
Proof.
  intros Hp. induction d as [|v d IH]; intros a a' Ha; simpl.
  - assumption.
  - destruct (p v) eqn:E.
    + destruct v as [q|]; [|specialize (Hp _ E); discriminate].
      simpl. apply IH. now rewrite Ha.
    + simpl. apply IH. rewrite Ha. ring.
Qed.

Lemma select_zeroed {A : Type} (p q : A -> bool) (z : A) (d v : list A) :
  length v = length d ->
  select (zip2 andb (map q v) (map p d)) (map (fun s => if p s then s else z) d)
  = map fst (List.filter (fun dv : A * A => p (fst dv) && q (snd dv)) (combine d v)).
Proof.
  revert v; induction d as [|s d IH]; intros [|u v] H; try discriminate;
    simpl; auto.
  injection H as H. rewrite andb_comm.
  destruct (p s); simpl.
  - destruct (q u); simpl; now rewrite IH.
  - now rewrite IH.
Qed.

Lemma mask_assign_zeroed (p : float -> bool) (d : list float) :
  mask_assign d (map negb (map p d)) (Some 0)
  = Return (map (fun s => if p s then s else Some 0) d).
Proof.
  unfold mask_assign. rewrite !length_map, Nat.eqb_refl.
  f_equal. rewrite map_map, zip2_map_l.
  apply map_ext. intros s. now destruct (p s).
Qed.

Lemma mask_index_same_length {A : Type} (a : list A) (mask : list bool) :
  length mask = length a -> mask_index a mask = Return (select mask a).
Proof. intros H. unfold mask_index. now rewrite H, Nat.eqb_refl. Qed.

Lemma np_max_returns (a : list float) :
  a <> [] -> exists m, np_max a = Return m.
Proof. destruct a; [congruence|]. simpl. eauto. Qed.

(** C6: every step whose displacement [sqrt(dx^2 + dy^2)] exceeds 5.0 m
    adds exactly nothing: [total_distance] is the sum of the steps of at
    most 5 m alone, and [sprint_distance] and [hsr_distance] are the sums of
    the steps of at most 5 m whose speed is above 25 and 20 km/h. *)
Theorem C6_long_steps_count_zero (np_sqrt : Q -> Q) (x y : list float) (fps : Q) :
  length x = length y -> ~ fps == 0 ->
  let d := step_distances np_sqrt x y in
  let v := step_speeds_kmh fps d in
  exists m : distance_metrics,
    calculate_distance_metrics np_sqrt x y fps = Return m
    /\ feq (total_distance m)
           (np_sum (List.filter (fun s => fle s (Some 5)) d))
    /\ sprint_distance m = np_sum (counted_steps 25 d v)
    /\ hsr_distance m = np_sum (counted_steps 20 d v).
Proof.
  intros Hlen Hfps d v.
  unfold calculate_distance_metrics.
  rewrite calculate_velocity_kmh by assumption. cbn [bind].
  rewrite hypot_arrays_steps by assumption. cbn [bind].
  fold d. fold v.
  rewrite (mask_assign_zeroed (fun s => fle s (Some MAX_STEP_DISTANCE)) d).
  cbn [bind].
  assert (Hv : length v = length d) by (unfold v, step_speeds_kmh; apply length_map).
  rewrite !broadcast2_same_length by (rewrite !length_map; assumption).
  cbn [bind].
  rewrite !mask_index_same_length
    by (rewrite length_zip2, !length_map; lia).
  cbn [bind].
  rewrite !(select_zeroed (fun s => fle s (Some MAX_STEP_DISTANCE))) by assumption.
  set (vv := List.filter (fun s => fle s (Some 38)) v).
  assert (Htot : feq (np_sum (map (fun s => if fle s (Some MAX_STEP_DISTANCE)
                                             then s else Some 0) d))
                     (np_sum (List.filter (fun s => fle s (Some 5)) d))).
  { apply (fold_fadd_zeroed (fun s => fle s (Some 5))); [|reflexivity].
    intros [q|] H; [reflexivity|discriminate]. }
  destruct (Nat.ltb_spec 0 (length vv)) as [Hne|He].
  - destruct (np_max_returns vv) as [mx Hmx]; [destruct vv; simpl in *; [lia|congruence]|].
    rewrite Hmx. cbn [bind]. eexists. split; [reflexivity|]. simpl.
    repeat split; auto.
  - eexists. split; [reflexivity|]. simpl. repeat split; auto.
Qed.

(** A single-frame jump of 10 m between steps of 0.5 m: the total is the
    1.5 m of the other three steps. *)
Lemma C6_long_steps_count_zero_witness :
  nth 2 (step_distances sqrt_dyadic jump_x jump_y) NaN = Some 10
  /\ exists m : distance_metrics,
       calculate_distance_metrics sqrt_dyadic jump_x jump_y 10 = Return m
       /\ feq (total_distance m) (Some 1.5)
       /\ sprint_distance m = Some 0
       /\ hsr_distance m = Some 0.
Proof.
  split; [reflexivity|].
  destruct (C6_long_steps_count_zero sqrt_dyadic jump_x jump_y 10)
    as (m & Hm & Ht & Hs & Hh); [reflexivity|discriminate|].
  exists m. split; [assumption|]. split; [|split].
  - eapply feq_trans; [exact Ht|]. vm_compute. reflexivity.
  - rewrite Hs. reflexivity.
  - rewrite Hh. reflexivity.
Defined.

(** C7: for a track of zero or one sample the metrics are all zero, and
    nothing is raised (the frame rate is not zero). *)
Theorem C7_degenerate_track_zero (np_sqrt : Q -> Q) (x y : list float) (fps : Q) :
  (length x <= 1)%nat -> (length y <= 1)%nat -> ~ fps == 0 ->
  calculate_distance_metrics np_sqrt x y fps
  = Return (mk_metrics (Some 0) (Some 0) (Some 0) (Some 0) (Some 0)).
Proof.
  intros Hx Hy Hfps.
  assert (Hdx : np_diff x = []) by (destruct x as [|? [|? ?]]; simpl in *; auto; lia).
  assert (Hdy : np_diff y = []) by (destruct y as [|? [|? ?]]; simpl in *; auto; lia).
  unfold calculate_distance_metrics, calculate_velocity, hypot_arrays.
  rewrite Hdx, Hdy. cbn [map broadcast2 length Nat.eqb zip2 bind].
  destruct (Qeq_bool fps 0) eqn:E; [apply Qeq_bool_iff in E; contradiction|].
  reflexivity.
Qed.

Lemma C7_degenerate_track_zero_witness :
  calculate_distance_metrics sqrt_dyadic [Some 12.5] [Some (-3)] 10
  = Return (mk_metrics (Some 0) (Some 0) (Some 0) (Some 0) (Some 0)).
Proof.
  apply (C7_degenerate_track_zero sqrt_dyadic [Some 12.5] [Some (-3)] 10).
  - simpl. lia.
  - simpl. lia.
  - discriminate.
Defined.

(** * The match clock: claims C8, C9 *)

(** C8 fails on the code: for frame 0 of period 1, which starts at frame
    10, at 10 fps, the array branch answers -1 second, not floored at zero,
    while the scalar branch floors the same input to the clock 00:00. *)
Theorem C8_array_branch_not_floored :
  (exists s : Q,
      calculate_match_clock (Array [0%Z]) (Array [1%Z]) period_starts 10
      = Return (Seconds [Some s])
      /\ s == -1 /\ s < 0)
  /\ calculate_match_clock (Scalar 0%Z) (Scalar 1%Z) period_starts 10
     = Return (Clock "00:00").
Proof.
  split; [|reflexivity].
  eexists. split; [vm_compute; reflexivity|]. split; reflexivity.
Qed.

(** C9 fails on the code: for the unknown period 3 the scalar branch uses a
    base of 45 minutes, so frame 600 at 10 fps reads 46:00; the array branch
    gives the same input 60 seconds, the base 0 of the claim. *)
Theorem C9_scalar_unknown_period_base_45 :
  calculate_match_clock (Scalar 600%Z) (Scalar 3%Z) period_starts 10
  = Return (Clock "46:00")
  /\ exists s : Q,
       calculate_match_clock (Array [600%Z]) (Array [3%Z]) period_starts 10
       = Return (Seconds [Some s])
       /\ s == 60.
Proof.
  split; [reflexivity|].
  eexists. split; [vm_compute; reflexivity|]. reflexivity.
Qed.

(** * The two branches of the match clock on a known period *)

Lemma Qfloor_unique (z : Z) (x : Q) :
  inject_Z z <= x -> x < inject_Z (z + 1) -> Qfloor x = z.
Proof.
  intros Hlo Hhi.
  pose proof (Qfloor_le x) as Hf. pose proof (Qlt_floor x) as Hc.
  assert (H1 : (Qfloor x < z + 1)%Z).
  { rewrite Zlt_Qlt. eapply Qle_lt_trans; eassumption. }
  assert (H2 : (z < Qfloor x + 1)%Z).
  { rewrite Zlt_Qlt. eapply Qle_lt_trans; eassumption. }
  lia.
Qed.

Lemma Qfloor_add_Z (b : Z) (q : Q) : Qfloor (inject_Z b + q) = (b + Qfloor q)%Z.
Proof.
  apply Qfloor_unique.
  - rewrite inject_Z_plus. apply Qplus_le_r. apply Qfloor_le.
  - rewrite <- Z.add_assoc, inject_Z_plus. apply Qplus_lt_r. apply Qlt_floor.
Qed.

Lemma clock_floor (base : Z) (e se : Q) :
  se == e ->
  Qfloor ((inject_Z base * 60 + e) / 60) = (base + Qfloor (se / 60))%Z
  /\ Qfloor (inject_Z base * 60 + e
             - 60 * inject_Z (Qfloor ((inject_Z base * 60 + e) / 60)))
     = Qfloor (se - 60 * inject_Z (Qfloor (se / 60))).
Proof.
  intros Hse.
  assert (H1 : Qfloor ((inject_Z base * 60 + e) / 60)
               = (base + Qfloor (se / 60))%Z).
  { rewrite <- Qfloor_add_Z. apply Qfloor_comp. rewrite Hse. field. }
  split; [exact H1|].
  rewrite H1. apply Qfloor_comp. set (F := Qfloor (se / 60)).
  rewrite inject_Z_plus, Hse. ring.
Qed.

Lemma whole_seconds_clock (se : Q) (k : Z) :
  se == inject_Z k ->
  Qfloor (se / 60) = (k / 60)%Z
  /\ Qfloor (se - 60 * inject_Z (Qfloor (se / 60))) = (k mod 60)%Z.
Proof.
  intros Hse.
  assert (H1 : Qfloor (se / 60) = (k / 60)%Z).
  { rewrite (Qfloor_comp _ (k # 60)); [reflexivity|].
    rewrite Hse. unfold Qdiv. change (/ 60) with (1 # 60).
    unfold Qeq, Qmult, inject_Z. cbn [Qnum Qden].
    change (Z.pos (1 * 60)) with 60%Z. ring. }
  split; [exact H1|]. rewrite H1.
  rewrite (Qfloor_comp _ (inject_Z (k mod 60))); [apply Qfloor_Z|].
  rewrite Hse. pose proof (Z.div_mod k 60 ltac:(lia)) as Hk.
  rewrite Hk at 1. rewrite inject_Z_plus, inject_Z_mult.
  change (inject_Z 60) with 60. ring.
Qed.

(** X2: on a whole number of seconds the two branches agree.  For period 1
    or 2, a whole frame rate [fps] and a frame [k * fps] frames after the
    start of its period, the array branch returns [base*60 + k] seconds and
    the scalar branch the clock of those seconds, [base + k div 60] minutes
    and [k mod 60] seconds, each formatted on two digits.  (The quotient
    [(frame - start) / fps] is then the whole number [k], which the
    program's floating-point division gives exactly; on other quotients its
    rounding can move the floor by one, which the rationals of the model
    do not follow.) *)
Theorem clock_branches_agree (frame period : Z) (starts : gmap Z Z) (fps k : Z) :
  (period = 1 \/ period = 2)%Z -> (0 < fps)%Z ->
  (0 <= k)%Z -> (k * fps < 2 ^ 53)%Z ->
  (frame - default 0 (starts !! period) = k * fps)%Z ->
  let base := if Z.eqb period 1 then 0%Z else 45%Z in
  exists s : Q,
    calculate_match_clock (Array [frame]) (Array [period]) starts (inject_Z fps)
    = Return (Seconds [Some s])
    /\ s == inject_Z (base * 60 + k)
    /\ calculate_match_clock (Scalar frame) (Scalar period) starts (inject_Z fps)
       = Return (Clock (format_02d (base + k / 60) ++ ":" ++ format_02d (k mod 60))).
Proof.
  intros Hp Hfps Hk _ Hframe base.
  set (start := default 0%Z (starts !! period)) in *.
  set (e := inject_Z (frame - start) / inject_Z fps).
  assert (Hfq : ~ inject_Z fps == 0).
  { intros E. unfold Qeq in E. simpl in E. lia. }
  assert (He : e == inject_Z k).
  { unfold e. rewrite Hframe, inject_Z_mult. now field. }
  assert (Hz : Qeq_bool (inject_Z fps) 0 = false).
  { destruct (Qeq_bool (inject_Z fps) 0) eqn:E; [|reflexivity].
    apply Qeq_bool_iff in E. contradiction. }
  assert (Hse : (if Qlt_bool 0 e then e else 0) == inject_Z k).
  { destruct (Qlt_bool 0 e) eqn:E; [exact He|].
    unfold Qlt_bool in E. apply negb_false_iff, Qle_bool_iff in E.
    rewrite He in E. change 0 with (inject_Z 0) in E. rewrite <- Zle_Qle in E.
    replace k with 0%Z by lia. reflexivity. }
  destruct (whole_seconds_clock _ k Hse) as [H1 H2].
  assert (Hscalar : calculate_match_clock (Scalar frame) (Scalar period) starts
                      (inject_Z fps)
                    = Return (Clock (format_02d (base + k / 60) ++ ":"
                                     ++ format_02d (k mod 60)))).
  { unfold calculate_match_clock. fold start. rewrite Hz. cbv zeta. fold e.
    rewrite H2, H1. reflexivity. }
  subst base. destruct Hp as [-> | ->].
  - exists (0 * 60 + e). split; [|split; [|exact Hscalar]].
    + unfold calculate_match_clock, period_mask, mask_assign.
      cbn -[inject_Z]. fold start. unfold fdiv. rewrite Hz. reflexivity.
    + rewrite He. cbn [Z.eqb]. rewrite inject_Z_plus. reflexivity.
  - exists (45 * 60 + e). split; [|split; [|exact Hscalar]].
    + unfold calculate_match_clock, period_mask, mask_assign.
      cbn -[inject_Z]. fold start. unfold fdiv. rewrite Hz. reflexivity.
    + rewrite He. cbn [Z.eqb Pos.eqb]. rewrite inject_Z_plus. reflexivity.
Qed.

Lemma clock_branches_agree_witness :
  exists s : Q,
    calculate_match_clock (Array [27250%Z]) (Array [2%Z]) period_starts 10
    = Return (Seconds [Some s])
    /\ s == 2725
    /\ calculate_match_clock (Scalar 27250%Z) (Scalar 2%Z) period_starts 10
       = Return (Clock "45:25").
Proof.
  destruct (clock_branches_agree 27250 2 period_starts 10 25)
    as (s & Hv & Hs & Hc); [now right|reflexivity|discriminate|reflexivity|reflexivity|].
  exists s. split; [exact Hv|]. split; [rewrite Hs; reflexivity|exact Hc].
Defined.

(** * The kinematic derivator: claims C1, C10 *)

Lemma length_insert_by {A : Type} (key : A -> float) (x : A) (l : list A) :
  length (insert_by key x l) = S (length l).
Proof.
  induction l as [|y l IH]; simpl; [reflexivity|].
  destruct (key_le (key x) (key y)); simpl; [reflexivity|now rewrite IH].
Qed.

Lemma length_sort_by {A : Type} (key : A -> float) (l : list A) :
  length (sort_by key l) = length l.
Proof.
  unfold sort_by. induction l as [|x l IH]; simpl; [reflexivity|].
  now rewrite length_insert_by, IH.
Qed.

Lemma sorted_records_nonempty (raw : list raw_record) :
  raw <> [] -> sorted_records raw <> [].
Proof.
  intros Hne. unfold sorted_records, drop_duplicates.
  destruct (sort_by r_timestamp raw) as [|r rows] eqn:E.
  - apply (f_equal length) in E. rewrite length_sort_by in E.
    destruct raw; [congruence|discriminate].
  - simpl. discriminate.
Qed.

Lemma np_gradient_returns (f t : list float) :
  length t = length f -> (2 <= length f)%nat ->
  exists g, np_gradient f t = Return g /\ length g = length f.
Proof.
  intros Hlen Hn. unfold np_gradient.
  rewrite Hlen, Nat.eqb_refl. cbn [negb].
  destruct (Nat.ltb_spec (length f) 2); [lia|].
  eexists. split; [reflexivity|]. now rewrite length_map, length_seq.
Qed.

Lemma np_gradient_unit_returns (f : list float) :
  (2 <= length f)%nat ->
  exists g, np_gradient_unit f = Return g /\ length g = length f.
Proof.
  intros Hn. apply np_gradient_returns; [|assumption].
  now rewrite length_map, length_seq.
Qed.

Section Derivator.

Variable np_sqrt : Q -> Q.

Lemma hypot_arrays_returns (a b : list float) :
  length a = length b ->
  exists h, hypot_arrays np_sqrt a b = Return h /\ length h = length a.
Proof.
  intros H. unfold hypot_arrays.
  rewrite broadcast2_same_length by (now rewrite !length_map).
  cbn [bind]. eexists. split; [reflexivity|].
  rewrite length_map, length_zip2, !length_map. lia.
Qed.


End Derivator.

Lemma select_all {A : Type} (l : list A) : select (repeat true (length l)) l = l.
Proof. induction l as [|x l IH]; simpl; [reflexivity|now rewrite IH]. Qed.

Lemma In_select {A : Type} (mask : list bool) (l : list A) (v : A) :
  In v (select mask l) -> In v l.
Proof.
  revert l; induction mask as [|b mask IH]; intros [|x l]; simpl; try tauto.
  destruct b; simpl; intros H; [destruct H as [H|H]|]; auto.
Qed.

Section Extraction.

Variable np_sqrt : Q -> Q.


End Extraction.







(** C1 fails on the code: on a six-sample track with a 6 m jump over two
    frames the raw speeds 54, 108 and 54 km/h are counted as three
    anomalies and clamped to 42 km/h, but the smoothing that follows the
    clamp overshoots it: the reported [velocity_kmh] reads 49.2 km/h at the
    jump. *)
Theorem C1_smoothed_speed_exceeds_cap :
  exists (df : player_frame) (k : kinematics) (v : Q),
    extract_player_data sqrt_dyadic glitch_track true true 0.95 = Return df
    /\ df_kinematics df = Some k
    /\ df_log df = [WarnAnomalies 3]
    /\ arrays_eq (scalar_op fmul (velocity_raw k) 3.6)
                 (map Some [0; 42; 42; 42; 0; 0])
    /\ nth 2 (velocity_kmh k) NaN = Some v
    /\ v == 49.2 /\ MAX_VELOCITY_KMH < v.
Proof.
  eexists _, _, _. split; [vm_compute; reflexivity|].
  split; [reflexivity|]. split; [reflexivity|].
  split; [|split; [reflexivity|split; reflexivity]].
  repeat constructor.
Qed.

(** * The clamp on the raw speed *)

Lemma bind_Return {A B : Type} (m : pyresult A) (k : A -> pyresult B) (b : B) :
  bind m k = Return b -> exists a, m = Return a /\ k a = Return b.
Proof. destruct m as [a|e]; simpl; [eauto|discriminate]. Qed.

Ltac invert_bind H :=
  let a := fresh "a" in
  let Ha := fresh "Ha" in
  apply bind_Return in H; destruct H as (a & Ha & H).

Lemma clip1_bounds (lo hi : Q) (a : float) (q : Q) :
  lo <= hi -> clip1 lo hi a = Some q -> lo <= q <= hi.
Proof.
  intros Hlh. destruct a as [v|]; [|discriminate].
  unfold clip1. cbn [fmax fmin]. intros [= <-].
  destruct (Qle_bool v lo) eqn:E1.
  - destruct (Qle_bool lo hi) eqn:E2.
    + split; [apply Qle_refl|assumption].
    + apply Qle_bool_false in E2. exfalso. now apply (Qlt_not_le hi lo).
  - apply Qle_bool_false in E1.
    destruct (Qle_bool v hi) eqn:E2.
    + apply Qle_bool_iff in E2. split; [now apply Qlt_le_weak|assumption].
    + split; [assumption|apply Qle_refl].
Qed.

Lemma np_clip_bounds (lo hi : Q) (a : list float) :
  lo <= hi -> all_ge lo (np_clip a lo hi) /\ all_le hi (np_clip a lo hi).
Proof.
  intros Hlh. unfold np_clip.
  split; intros q Hq; apply in_map_iff in Hq; destruct Hq as (v & Hv & _);
    now apply (clip1_bounds lo hi v q Hlh).
Qed.

Lemma all_le_select (c : Q) (mask : list bool) (a : list float) :
  all_le c a -> all_le c (select mask a).
Proof. intros H q Hq. apply H. eapply In_select. eassumption. Qed.

Lemma all_ge_select (c : Q) (mask : list bool) (a : list float) :
  all_ge c a -> all_ge c (select mask a).
Proof. intros H q Hq. apply H. eapply In_select. eassumption. Qed.

Lemma all_le_scaled (c s : Q) (a : list float) :
  0 <= s -> all_le c a -> all_le (c * s) (scalar_op fmul a s).
Proof.
  intros Hs H q Hq. unfold scalar_op in Hq. apply in_map_iff in Hq.
  destruct Hq as ([v|] & Hv & Hin); [|discriminate].
  injection Hv as <-. apply Qmult_le_compat_r; auto.
Qed.

Lemma select_scalar_op (f : float -> float -> float) (mask : list bool)
    (a : list float) (c : Q) :
  select mask (scalar_op f a c) = scalar_op f (select mask a) c.
Proof.
  unfold scalar_op. revert a; induction mask as [|b mask IH]; intros [|x a];
    simpl; auto.
  destruct b; simpl; now rewrite IH.
Qed.

Section Clamp.

Variable np_sqrt : Q -> Q.

(** The columns of [derive_kinematics]: the raw speed is a clipped array,
    the km/h column is the velocity column times 3.6, and without smoothing
    the velocity column is the raw speed. *)
Lemma derive_kinematics_columns (smooth : bool) (t x_s y_s : list float)
    (r : kinematics * list log_record) :
  derive_kinematics np_sqrt smooth t x_s y_s = Return r ->
  (exists sp, velocity_raw (fst r) = np_clip sp 0 (MAX_VELOCITY_KMH / 3.6))
  /\ velocity_kmh (fst r) = scalar_op fmul (velocity (fst r)) 3.6
  /\ (smooth = false -> velocity (fst r) = velocity_raw (fst r)).
Proof.
  unfold derive_kinematics. intros H.
  invert_bind H. invert_bind H. invert_bind H. invert_bind H. invert_bind H.
  invert_bind H. injection H as <-. cbn [fst velocity_raw velocity_kmh velocity].
  split; [eauto|]. split; [reflexivity|].
  intros ->. cbn [andb] in *. congruence.
Qed.

End Clamp.

Section ClampExtract.

Variable np_sqrt : Q -> Q.

Lemma kinematics_bounds (smooth : bool) (k : kinematics) :
  (exists sp, velocity_raw k = np_clip sp 0 (MAX_VELOCITY_KMH / 3.6)) ->
  velocity_kmh k = scalar_op fmul (velocity k) 3.6 ->
  (smooth = false -> velocity k = velocity_raw k) ->
  forall mask : list bool,
    let k' := map_kinematics (select mask) k in
    all_ge 0 (velocity_raw k') /\ all_le (MAX_VELOCITY_KMH / 3.6) (velocity_raw k')
    /\ (smooth = false -> all_le MAX_VELOCITY_KMH (velocity_kmh k')).
Proof.
  intros [sp Hraw] Hkmh Hvel mask k'.
  destruct (np_clip_bounds 0 (MAX_VELOCITY_KMH / 3.6) sp) as [Hge Hle];
    [discriminate|].
  unfold k', map_kinematics. cbn [velocity_raw velocity_kmh].
  rewrite Hraw. split; [now apply all_ge_select|]. split; [now apply all_le_select|].
  intros Hs. rewrite Hkmh, (Hvel Hs), Hraw, select_scalar_op.
  intros q Hq.
  apply (all_le_scaled (MAX_VELOCITY_KMH / 3.6) 3.6) in Hq;
    [|discriminate|now apply all_le_select].
  eapply Qle_trans; [exact Hq|]. discriminate.
Qed.

Lemma kinematics_bounds_unfiltered (smooth : bool) (k : kinematics) :
  (exists sp, velocity_raw k = np_clip sp 0 (MAX_VELOCITY_KMH / 3.6)) ->
  velocity_kmh k = scalar_op fmul (velocity k) 3.6 ->
  (smooth = false -> velocity k = velocity_raw k) ->
  all_ge 0 (velocity_raw k) /\ all_le (MAX_VELOCITY_KMH / 3.6) (velocity_raw k)
  /\ (smooth = false -> all_le MAX_VELOCITY_KMH (velocity_kmh k)).
Proof.
  intros [sp Hraw] Hkmh Hvel.
  destruct (np_clip_bounds 0 (MAX_VELOCITY_KMH / 3.6) sp) as [Hge Hle];
    [discriminate|].
  rewrite Hraw. split; [assumption|]. split; [assumption|].
  intros Hs. rewrite Hkmh, (Hvel Hs), Hraw.
  intros q Hq.
  apply (all_le_scaled (MAX_VELOCITY_KMH / 3.6) 3.6) in Hq;
    [|discriminate|assumption].
  eapply Qle_trans; [exact Hq|]. discriminate.
Qed.

(** X1: the clamp holds on the raw speed column, and on the reported km/h
    column when smoothing is off. *)
Theorem raw_speed_within_cap (raw : list raw_record)
    (include_velocity smooth : bool) (min_detection_rate : Q)
    (df : player_frame) (k : kinematics) :
  extract_player_data np_sqrt raw include_velocity smooth min_detection_rate
  = Return df ->
  df_kinematics df = Some k ->
  all_ge 0 (velocity_raw k) /\ all_le (MAX_VELOCITY_KMH / 3.6) (velocity_raw k)
  /\ (smooth = false -> all_le MAX_VELOCITY_KMH (velocity_kmh k)).
Proof.
  unfold extract_player_data. destruct raw as [|r0 raw'].
  { intros [= <-]. discriminate. }
  set (rows := sorted_records (r0 :: raw')).
  destruct (if (0 <? length rows)%nat then _ else _) as [[x y] log1].
  intros H. invert_bind H. invert_bind H. invert_bind H.
  assert (Hkin : forall k0, fst a1 = Some k0 ->
            (exists sp, velocity_raw k0 = np_clip sp 0 (MAX_VELOCITY_KMH / 3.6))
            /\ velocity_kmh k0 = scalar_op fmul (velocity k0) 3.6
            /\ (smooth = false -> velocity k0 = velocity_raw k0)).
  { intros k0 Hk0.
    destruct (include_velocity && (1 <? length rows)%nat).
    - invert_bind Ha1. injection Ha1 as <-. cbn [fst] in Hk0.
      injection Hk0 as <-. eapply derive_kinematics_columns. eassumption.
    - injection Ha1 as <-. discriminate. }
  destruct ((0 <? length rows)%nat && Qlt_bool 0 min_detection_rate).
  - destruct (flt _ _).
    + injection H as <-. cbn [df_kinematics].
      destruct (fst a1) as [k0|]; [|discriminate].
      intros [= <-]. destruct (Hkin k0 eq_refl) as (H1 & H2 & H3).
      now apply kinematics_bounds.
    + injection H as <-. cbn [df_kinematics]. intros Hk.
      destruct (Hkin k Hk) as (H1 & H2 & H3).
      now apply kinematics_bounds_unfiltered.
  - injection H as <-. cbn [df_kinematics]. intros Hk.
    destruct (Hkin k Hk) as (H1 & H2 & H3).
    now apply kinematics_bounds_unfiltered.
Qed.

End ClampExtract.

Lemma raw_speed_within_cap_witness :
  exists (df : player_frame) (k : kinematics),
    extract_player_data sqrt_dyadic glitch_track true false 0.95 = Return df
    /\ df_kinematics df = Some k
    /\ all_le MAX_VELOCITY_KMH (velocity_kmh k).
Proof.
  destruct (extract_player_data sqrt_dyadic glitch_track true false 0.95)
    as [df|e] eqn:E; [|vm_compute in E; discriminate].
  destruct (df_kinematics df) as [k|] eqn:Ek;
    [|vm_compute in E; injection E as <-; discriminate].
  exists df, k. split; [reflexivity|]. split; [assumption|].
  apply (raw_speed_within_cap sqrt_dyadic glitch_track true false 0.95 df k E Ek).
  reflexivity.
Defined.

(** * The direction of play *)

Lemma np_negative_involutive (a : list float) : np_negative (np_negative a) = a.
Proof.
  unfold np_negative. rewrite map_map. rewrite <- (map_id a) at 2.
  apply map_ext. intros [[n d]|]; simpl; [|reflexivity].
  unfold Qopp; simpl. now rewrite Z.opp_involutive.
Qed.

(** X3: outside the mode ['static'], and for a home direction that is one
    of the two the function knows, the second period is the first one
    turned round: the result for period 2 is the negation of the result for
    period 1, exactly one of the two is the input itself, and every period
    other than 2 is handled as period 1. *)
Theorem standardize_direction_halves (x y : list float) (dir mode : string) :
  String.eqb mode "static" = false ->
  dir = "left_to_right"%string \/ dir = "right_to_left"%string ->
  let first := standardize_direction x y 1 dir mode in
  let second := standardize_direction x y 2 dir mode in
  second = (np_negative (fst first), np_negative (snd first))
  /\ first = (np_negative (fst second), np_negative (snd second))
  /\ (first = (x, y) /\ second = (np_negative x, np_negative y)
      \/ second = (x, y) /\ first = (np_negative x, np_negative y))
  /\ forall period : Z, period <> 2%Z -> standardize_direction x y period dir mode = first.
Proof.
  intros Hmode Hdir first second. subst first second.
  unfold standardize_direction. rewrite Hmode.
  assert (Hp : forall period : Z, period <> 2%Z -> Z.eqb period 2 = false)
    by (intros p Hp; now apply Z.eqb_neq).
  destruct Hdir as [-> | ->]; cbn;
    rewrite ?np_negative_involutive; repeat split; auto;
    intros period Hne; rewrite (Hp _ Hne); reflexivity.
Qed.

Lemma standardize_direction_halves_witness :
  standardize_direction [Some 10; NaN] [Some (-3); Some 4] 2 "right_to_left" "home_ltr"
  = ([Some 10; NaN], [Some (-3); Some 4]).
Proof.
  destruct (standardize_direction_halves [Some 10; NaN] [Some (-3); Some 4]
              "right_to_left" "home_ltr" eq_refl (or_intror eq_refl))
    as (H & _).
  rewrite H. reflexivity.
Defined.

(** X4: the wrapper of filters.py reads only the head of the list and only
    asks whether it is ['left']: with ['left'] the first period is left as
    it is and the second is negated, with any other string it is the
    reverse, and an empty list raises [IndexError]. *)
Theorem normalize_to_attacking_direction_cases (x y : list float) (period : Z) :
  normalize_to_attacking_direction x y period [] = Raise IndexError
  /\ forall (d : string) (rest : list string),
       normalize_to_attacking_direction x y period (d :: rest)
       = Return (if xorb (String.eqb d "left") (Z.eqb period 2)
                 then (x, y)
                 else (np_negative x, np_negative y)).
Proof.
  split; [reflexivity|]. intros d rest.
  unfold normalize_to_attacking_direction, standardize_direction.
  destruct (String.eqb d "left"), (Z.eqb period 2); reflexivity.
Qed.

(** * Resampling *)

Lemma stride_from_lookup {A : Type} (step : nat) (a : list A) :
  (1 <= step)%nat ->
  forall (skip k : nat), (skip < step)%nat ->
    stride_from skip step a !! k = a !! (skip + k * step)%nat.
Proof.
  intros Hstep. induction a as [|v a IH]; intros skip k Hskip.
  - reflexivity.
  - destruct skip as [|j]; simpl.
    + destruct k as [|k]; [reflexivity|].
      simpl. rewrite IH by lia.
      replace (step + k * step)%nat with (S (step - 1 + k * step)) by lia.
      reflexivity.
    + rewrite IH by lia. reflexivity.
Qed.

Lemma length_stride_from {A : Type} (step : nat) (a : list A) :
  (1 <= step)%nat ->
  forall skip : nat, (skip < step)%nat ->
    length (stride_from skip step a) = ((length a + (step - 1 - skip)) / step)%nat.
Proof.
  intros Hstep. induction a as [|v a IH]; intros skip Hskip.
  - simpl. symmetry. apply Nat.div_small. lia.
  - destruct skip as [|j]; simpl.
    + rewrite IH by lia.
      replace (S (length a + (step - 1 - 0)))%nat with (length a + 1 * step)%nat by lia.
      rewrite Nat.div_add by lia.
      replace (step - 1 - (step - 1))%nat with 0%nat by lia.
      rewrite Nat.add_0_r. lia.
    + rewrite IH by lia. f_equal. lia.
Qed.

Lemma stride_1 {A : Type} (a : list A) : stride 1 a = a.
Proof.
  unfold stride. induction a as [|v a IH]; simpl; [reflexivity|].
  now rewrite IH.
Qed.

(** X5: resampling keeps every [step]-th sample, [step] being
    [max(1, int(original_fps / target_fps))]: sample [k] of each output is
    sample [k * step] of the input, the first sample is always kept, the
    output has [ceil(n / step)] samples, and the three arrays stay
    aligned. *)
Theorem resample_trajectory_samples (x y timestamps : list float)
    (target_fps original_fps : Q) :
  ~ target_fps == 0 ->
  exists (step : nat) (xs ys ts : list float),
    resample_trajectory x y timestamps target_fps original_fps = Return (xs, ys, ts)
    /\ Z.of_nat step = Z.max 1 (py_int (original_fps / target_fps))
    /\ (forall k : nat,
          xs !! k = x !! (k * step)%nat /\ ys !! k = y !! (k * step)%nat
          /\ ts !! k = timestamps !! (k * step)%nat)
    /\ length xs = ((length x + (step - 1)) / step)%nat
    /\ (length x = length y -> length y = length timestamps ->
        length xs = length ys /\ length ys = length ts).
Proof.
  intros Hfps. unfold resample_trajectory.
  destruct (Qeq_bool target_fps 0) eqn:E; [apply Qeq_bool_iff in E; contradiction|].
  set (step := Z.to_nat (Z.max 1 (py_int (original_fps / target_fps)))).
  assert (Hstep : (1 <= step)%nat) by (unfold step; lia).
  exists step, (stride step x), (stride step y), (stride step timestamps).
  split; [reflexivity|]. split; [unfold step; lia|].
  unfold stride. split; [|split].
  - intros k. rewrite !stride_from_lookup by lia. auto.
  - rewrite length_stride_from by lia. f_equal. lia.
  - intros H1 H2. rewrite !length_stride_from by lia. rewrite H1, H2. auto.
Qed.

Lemma resample_trajectory_samples_witness :
  resample_trajectory (map Some [0; 1; 2; 3; 4]) (map Some [5; 6; 7; 8; 9])
                      (map Some [0; 0.1; 0.2; 0.3; 0.4]) 5 10
  = Return (map Some [0; 2; 4], map Some [5; 7; 9], map Some [0; 0.2; 0.4]).
Proof.
  destruct (resample_trajectory_samples (map Some [0; 1; 2; 3; 4])
              (map Some [5; 6; 7; 8; 9]) (map Some [0; 0.1; 0.2; 0.3; 0.4]) 5 10)
    as (step & xs & ys & ts & H & _); [discriminate|].
  reflexivity.
Defined.

Lemma py_int_below_2 (q : Q) : q < 2 -> (py_int q <= 1)%Z.
Proof.
  destruct q as [n d]. unfold py_int, Qlt; simpl. intros H.
  destruct (Z_lt_le_dec n 0) as [Hn|Hn].
  - assert (H1 : Z.quot n (Zpos d) = (- Z.quot (- n) (Zpos d))%Z)
      by (rewrite Z.quot_opp_l by lia; lia).
    assert (0 <= Z.quot (- n) (Zpos d))%Z by (apply Z.quot_pos; lia). lia.
  - rewrite Z.quot_div_nonneg by lia.
    assert (n / Zpos d < 2)%Z; [|lia].
    apply Z.div_lt_upper_bound; lia.
Qed.

(** X6: the function never adds samples.  Whenever the original rate is
    below twice the target rate (a target above the original one
    included), the step is 1 and the three arrays come back unchanged. *)
Theorem resample_trajectory_never_upsamples (x y timestamps : list float)
    (target_fps original_fps : Q) :
  0 < target_fps -> original_fps < 2 * target_fps ->
  resample_trajectory x y timestamps target_fps original_fps
  = Return (x, y, timestamps).
Proof.
  intros Hpos Hlt. unfold resample_trajectory.
  destruct (Qeq_bool target_fps 0) eqn:E.
  { apply Qeq_bool_iff in E. rewrite E in Hpos. discriminate. }
  assert (Hq : original_fps / target_fps < 2).
  { apply Qlt_shift_div_r; [assumption|]. exact Hlt. }
  apply py_int_below_2 in Hq.
  replace (Z.to_nat (Z.max 1 (py_int (original_fps / target_fps)))) with 1%nat by lia.
  now rewrite !stride_1.
Qed.

Lemma resample_trajectory_never_upsamples_witness :
  resample_trajectory [Some 1; Some 2] [Some 3; Some 4] [Some 0; Some 0.1] 25 10
  = Return ([Some 1; Some 2], [Some 3; Some 4], [Some 0; Some 0.1]).
Proof.
  apply (resample_trajectory_never_upsamples
           [Some 1; Some 2] [Some 3; Some 4] [Some 0; Some 0.1] 25 10);
    reflexivity.
Defined.

(** * Speed classes *)

Lemma lookup_map {A B : Type} (f : A -> B) (l : list A) (i : nat) :
  map f l !! i = option_map f (l !! i).
Proof.
  revert i; induction l as [|a l IH]; intros [|i]; simpl; auto.
Qed.

Lemma flt_mono (v w t : Q) :
  v <= w -> flt (Some w) (Some t) = true -> flt (Some v) (Some t) = true.
Proof.
  simpl. rewrite !Qlt_bool_iff. intros H1 H2. eapply Qle_lt_trans; eassumption.
Qed.

Lemma speed_category_mono (v w : Q) :
  v <= w ->
  (speed_rank (speed_category (Some v)) <= speed_rank (speed_category (Some w)))%nat.
Proof.
  intros H. unfold speed_category.
  pose proof (flt_mono v w 1 H) as H1.
  pose proof (flt_mono v w 11 H) as H2.
  pose proof (flt_mono v w 14 H) as H3.
  pose proof (flt_mono v w 20 H) as H4.
  pose proof (flt_mono v w 25 H) as H5.
  destruct (flt (Some w) (Some 1)); [rewrite H1 by reflexivity; vm_compute; lia|].
  destruct (flt (Some w) (Some 11));
    [rewrite H2 by reflexivity; destruct (flt (Some v) (Some 1)); vm_compute; lia|].
  destruct (flt (Some w) (Some 14));
    [rewrite H3 by reflexivity;
     destruct (flt (Some v) (Some 1)), (flt (Some v) (Some 11)); vm_compute; lia|].
  destruct (flt (Some w) (Some 20));
    [rewrite H4 by reflexivity;
     destruct (flt (Some v) (Some 1)), (flt (Some v) (Some 11)),
       (flt (Some v) (Some 14)); vm_compute; lia|].
  destruct (flt (Some w) (Some 25));
    [rewrite H5 by reflexivity;
     destruct (flt (Some v) (Some 1)), (flt (Some v) (Some 11)),
       (flt (Some v) (Some 14)), (flt (Some v) (Some 20)); vm_compute; lia|].
  destruct (flt (Some v) (Some 1)), (flt (Some v) (Some 11)),
    (flt (Some v) (Some 14)), (flt (Some v) (Some 20)), (flt (Some v) (Some 25));
    vm_compute; lia.
Qed.

(** X7: the speed classes are ordered as the speeds are, in either unit: of
    two samples of one array the faster one never gets the lower class.  A
    sample that is NaN fails every comparison and is classed ['sprint']. *)
Theorem classify_speed_monotone (velocity : list float) (unit : string)
    (i j : nat) (v w : Q) :
  velocity !! i = Some (Some v) -> velocity !! j = Some (Some w) -> v <= w ->
  (exists cv cw : string,
     classify_speed velocity unit !! i = Some cv
     /\ classify_speed velocity unit !! j = Some cw
     /\ (speed_rank cv <= speed_rank cw)%nat)
  /\ forall k : nat, velocity !! k = Some NaN ->
       classify_speed velocity unit !! k = Some "sprint"%string.
Proof.
  intros Hi Hj Hvw. unfold classify_speed, scalar_op. split.
  - destruct (String.eqb unit "m/s").
    + rewrite !lookup_map, Hi, Hj. simpl. do 2 eexists.
      repeat split. apply speed_category_mono.
      apply Qmult_le_compat_r; [assumption|discriminate].
    + rewrite !lookup_map, Hi, Hj. simpl. do 2 eexists.
      repeat split. now apply speed_category_mono.
  - intros k Hk. destruct (String.eqb unit "m/s");
      rewrite !lookup_map, Hk; reflexivity.
Qed.

Lemma classify_speed_monotone_witness :
  classify_speed [Some 6; NaN; Some 3] "m/s" = ["hsr"; "sprint"; "walking"]%string
  /\ (speed_rank "walking" <= speed_rank "hsr")%nat.
Proof.
  split; [reflexivity|].
  destruct (classify_speed_monotone [Some 6; NaN; Some 3] "m/s" 2 0 3 6
              eq_refl eq_refl) as [(cv & cw & Hv & Hw & Hle) _]; [discriminate|].
  injection Hv as <-. injection Hw as <-. exact Hle.
Defined.

(** * Acceleration *)

Section Acceleration.

Variable np_sqrt : Q -> Q.

Lemma calculate_velocity_ms (x y : list float) (fps : Q) :
  length x = length y -> ~ fps == 0 ->
  calculate_velocity np_sqrt x y fps "m/s" None
  = Return (scalar_op fdiv (step_distances np_sqrt x y) (1 / fps)).
Proof.
  intros H Hfps. unfold calculate_velocity.
  rewrite hypot_arrays_steps by assumption. cbn [bind].
  destruct (Qeq_bool fps 0) eqn:E; [apply Qeq_bool_iff in E; contradiction|].
  reflexivity.
Qed.

Lemma length_step_distances (x y : list float) :
  length x = length y -> length (step_distances np_sqrt x y) = (length x - 1)%nat.
Proof.
  intros H. unfold step_distances. rewrite length_zip2, !length_np_diff. lia.
Qed.

End Acceleration.

(** X8: on a track of fewer than three samples [calculate_acceleration]
    raises [IndexError] (there is no first acceleration to repeat); on a
    longer one it returns as many values as there are velocities, one fewer
    than samples, the first two of them equal. *)
Theorem calculate_acceleration_length (np_sqrt : Q -> Q) (x y : list float) (fps : Q) :
  length x = length y -> ~ fps == 0 ->
  ((length x < 3)%nat -> calculate_acceleration np_sqrt x y fps = Raise IndexError)
  /\ ((3 <= length x)%nat ->
      exists (a0 : float) (rest : list float),
        calculate_acceleration np_sqrt x y fps = Return (a0 :: a0 :: rest)
        /\ length (a0 :: a0 :: rest) = (length x - 1)%nat).
Proof.
  intros Hlen Hfps. unfold calculate_acceleration.
  rewrite calculate_velocity_ms by assumption. cbn [bind].
  destruct (Qeq_bool fps 0) eqn:E; [apply Qeq_bool_iff in E; contradiction|].
  set (acc := scalar_op fdiv
                (np_diff (scalar_op fdiv (step_distances np_sqrt x y) (1 / fps)))
                (1 / fps)).
  assert (Hacc : length acc = (length x - 2)%nat).
  { unfold acc, scalar_op. rewrite length_map, length_np_diff, length_map.
    rewrite length_step_distances by assumption. lia. }
  split; intros Hn.
  - destruct acc as [|a0 rest]; [reflexivity|]. simpl in Hacc. lia.
  - destruct acc as [|a0 rest]; [simpl in Hacc; lia|].
    exists a0, rest. split; [reflexivity|]. simpl in *. lia.
Qed.

Lemma calculate_acceleration_length_witness :
  calculate_acceleration sqrt_dyadic [Some 0; Some 3] [Some 0; Some 4] 10
  = Raise IndexError
  /\ calculate_acceleration sqrt_dyadic [Some 0; Some 3; Some 3] [Some 0; Some 4; Some 4] 10
     = Return [Some (-500); Some (-500)].
Proof.
  split.
  - apply (calculate_acceleration_length sqrt_dyadic [Some 0; Some 3] [Some 0; Some 4] 10);
      [reflexivity|discriminate|simpl; lia].
  - vm_compute. reflexivity.
Defined.

(** * Sums of steps *)

Lemma fle_not_nan (u c : float) : fle u c = true -> isnan u = false.
Proof. destruct u; [reflexivity|discriminate]. Qed.

Lemma fold_fadd_NaN (l : list float) : fold_left fadd l NaN = NaN.
Proof. induction l as [|v l IH]; simpl; auto. Qed.

Lemma fold_fadd_all_Some (l : list float) (a c : Q) :
  fold_left fadd l (Some a) = Some c -> forall v, In v l -> isnan v = false.
Proof.
  revert a; induction l as [|u l IH]; intros a H v Hv; [destruct Hv|].
  destruct u as [q|]; simpl in H; [|rewrite fold_fadd_NaN in H; discriminate].
  destruct Hv as [<-|Hv]; [reflexivity|]. eapply IH; eassumption.
Qed.

(** The sum over the entries that pass a test is at most the sum over
    those that pass a weaker one, the entries being non-negative. *)
Lemma fold_fadd_filter_le {A : Type} (f : A -> float) (p q : A -> bool) (l : list A) :
  (forall a, In a l -> q a = true -> exists r, f a = Some r /\ 0 <= r) ->
  (forall a, p a = true -> q a = true) ->
  forall s0 t0 : Q, s0 <= t0 ->
    exists s t : Q,
      fold_left fadd (map f (List.filter p l)) (Some s0) = Some s
      /\ fold_left fadd (map f (List.filter q l)) (Some t0) = Some t
      /\ s0 <= s /\ s <= t.
Proof.
  intros Hq Hpq. induction l as [|a l IH]; intros s0 t0 H0.
  - exists s0, t0. simpl. repeat split; auto using Qle_refl.
  - assert (Hq' : forall b, In b l -> q b = true -> exists r, f b = Some r /\ 0 <= r)
      by (intros b Hb; apply Hq; now right).
    specialize (IH Hq'). simpl.
    destruct (q a) eqn:Eq.
    + destruct (Hq a (or_introl eq_refl) Eq) as (r & Hr & Hr0).
      destruct (p a) eqn:Ep; simpl; rewrite Hr; simpl.
      * destruct (IH (s0 + r) (t0 + r)) as (s & t & Hs & Ht & Hs0 & Hst).
        { now apply Qplus_le_compat; [|apply Qle_refl]. }
        exists s, t. repeat split; auto.
        eapply Qle_trans; [|exact Hs0].
        rewrite <- (Qplus_0_r s0) at 1. apply Qplus_le_compat; [apply Qle_refl|assumption].
      * destruct (IH s0 (t0 + r)) as (s & t & Hs & Ht & Hs0 & Hst).
        { rewrite <- (Qplus_0_r s0). now apply Qplus_le_compat. }
        exists s, t. repeat split; auto.
    + destruct (p a) eqn:Ep; [rewrite (Hpq a Ep) in Eq; discriminate|].
      now apply IH.
Qed.

Lemma filter_fst_combine {A B : Type} (p : A -> bool) (d : list A) (v : list B) :
  length v = length d ->
  map fst (List.filter (fun dv : A * B => p (fst dv)) (combine d v)) = List.filter p d.
Proof.
  revert v; induction d as [|s d IH]; intros [|u v] H; try discriminate; simpl; auto.
  injection H as H. destruct (p s); simpl; now rewrite IH.
Qed.

Lemma filter_true {A : Type} (l : list A) : List.filter (fun _ => true) l = l.
Proof. induction l as [|a l IH]; simpl; [reflexivity|now rewrite IH]. Qed.

Lemma In_zip2 {A B C : Type} (f : A -> B -> C) (a : list A) (b : list B) (c : C) :
  In c (zip2 f a b) -> exists u v, c = f u v.
Proof.
  revert b; induction a as [|u a IH]; intros [|v b]; simpl; try tauto.
  intros [<-|H]; [eauto|]. now apply IH in H.
Qed.

Lemma In_fst_combine {A B : Type} (d : list A) (v : list B) (dv : A * B) :
  In dv (combine d v) -> In (fst dv) d.
Proof. destruct dv as [a b]. apply in_combine_l. Qed.

Lemma total_of_short_steps (d : list float) (v : list float) :
  length v = length d ->
  (forall r, In (Some r) d -> 0 <= r) ->
  forall threshold : Q,
  exists s t : Q,
    np_sum (counted_steps threshold d v) = Some s
    /\ np_sum (map (fun s => if fle s (Some 5) then s else Some 0) d) = Some t
    /\ 0 <= s /\ s <= t.
Proof.
  intros Hv Hd threshold.
  destruct (fold_fadd_filter_le (fun dv : float * float => fst dv)
              (fun dv => fle (fst dv) (Some MAX_STEP_DISTANCE)
                         && fgt (snd dv) (Some threshold))
              (fun dv => fle (fst dv) (Some 5)) (combine d v)) with (s0 := 0) (t0 := 0)
    as (s & t & Hs & Ht & Hs0 & Hst).
  - intros [a b] Hin Ha. simpl in Ha. destruct a as [r|]; [|discriminate].
    exists r. split; [reflexivity|]. apply Hd.
    apply (In_fst_combine d v (Some r, b)). assumption.
  - intros [a b] H. simpl in *. apply andb_true_iff in H. tauto.
  - apply Qle_refl.
  - rewrite (filter_fst_combine (fun s => fle s (Some 5))) in Ht by assumption.
    pose proof (fold_fadd_zeroed (fun s => fle s (Some 5)) d) as Hz.
    specialize (Hz (fun u => fle_not_nan u (Some 5)) 0 0 (Qeq_refl 0)).
    unfold np_sum. rewrite Ht in Hz.
    destruct (fold_left fadd (map (fun s => if fle s (Some 5) then s else Some 0) d)
                (Some 0)) as [t'|] eqn:Et; [|destruct Hz].
    simpl in Hz. exists s, t'. unfold counted_steps.
    repeat split; auto. rewrite Hz. assumption.
Qed.

Section Metrics.

Variable np_sqrt : Q -> Q.
Hypothesis np_sqrt_nonneg : forall q : Q, 0 <= np_sqrt q.

Lemma fsqrt_nonneg (a : float) (r : Q) : fsqrt np_sqrt a = Some r -> 0 <= r.
Proof.
  destruct a as [q|]; simpl; [|discriminate].
  destruct (Qlt_bool q 0); [discriminate|]. intros [= <-]. apply np_sqrt_nonneg.
Qed.

Lemma step_distances_nonneg (x y : list float) (r : Q) :
  In (Some r) (step_distances np_sqrt x y) -> 0 <= r.
Proof.
  unfold step_distances. intros H. apply In_zip2 in H.
  destruct H as (u & v & H). symmetry in H. now apply fsqrt_nonneg in H.
Qed.

(** The fields of the result, written out. *)
Lemma calculate_distance_metrics_fields (x y : list float) (fps : Q) :
  length x = length y -> ~ fps == 0 ->
  let d := step_distances np_sqrt x y in
  let v := step_speeds_kmh fps d in
  let vv := List.filter (fun s => fle s (Some 38)) v in
  calculate_distance_metrics np_sqrt x y fps
  = Return (mk_metrics
              (np_sum (map (fun s => if fle s (Some 5) then s else Some 0) d))
              (np_sum (counted_steps 25 d v))
              (np_sum (counted_steps 20 d v))
              (match vv with [] => Some 0 | u :: vv' => fold_left fmax vv' u end)
              (match vv with [] => Some 0 | _ :: _ => np_mean vv end)).
Proof.
  intros Hlen Hfps d v vv.
  unfold calculate_distance_metrics.
  rewrite calculate_velocity_kmh by assumption. cbn [bind].
  rewrite hypot_arrays_steps by assumption. cbn [bind].
  fold d. fold v.
  rewrite (mask_assign_zeroed (fun s => fle s (Some MAX_STEP_DISTANCE)) d).
  cbn [bind].
  assert (Hv : length v = length d) by (unfold v, step_speeds_kmh; apply length_map).
  rewrite !broadcast2_same_length by (rewrite !length_map; assumption).
  cbn [bind].
  rewrite !mask_index_same_length
    by (rewrite length_zip2, !length_map; lia).
  cbn [bind].
  rewrite !(select_zeroed (fun s => fle s (Some MAX_STEP_DISTANCE))) by assumption.
  fold vv. destruct vv as [|u vv']; reflexivity.
Qed.

End Metrics.

Lemma sublist_filter_impl {A : Type} (p q : A -> bool) (l : list A) :
  (forall a, p a = true -> q a = true) ->
  sublist (List.filter p l) (List.filter q l).
Proof.
  intros H. induction l as [|a l IH]; simpl; [constructor|].
  destruct (p a) eqn:Ep.
  - rewrite (H a Ep). now apply sublist_skip.
  - destruct (q a); [now apply sublist_cons|assumption].
Qed.

Lemma sublist_map {A B : Type} (f : A -> B) (l1 l2 : list A) :
  sublist l1 l2 -> sublist (map f l1) (map f l2).
Proof. induction 1; simpl; constructor; assumption. Qed.

(** X9: the three distances are sums over nested sets of steps and are
    never NaN, whatever the positions (NaN included).  The total sums the
    steps with those longer than 5 m (or NaN) set to zero; the steps summed
    for [hsr_distance] are, in order, among the steps of at most 5 m, and
    the steps summed for [sprint_distance] are among those of
    [hsr_distance]; every step of at most 5 m is a length between 0 and 5,
    and the three sums are non-negative.  (The square root is taken
    non-negative.) *)
Theorem distance_zones_nested (np_sqrt : Q -> Q) (x y : list float) (fps : Q) :
  (forall q : Q, 0 <= np_sqrt q) ->
  length x = length y -> ~ fps == 0 ->
  let d := step_distances np_sqrt x y in
  let v := step_speeds_kmh fps d in
  let short := List.filter (fun s => fle s (Some 5)) d in
  exists (m : distance_metrics) (s h t : Q),
    calculate_distance_metrics np_sqrt x y fps = Return m
    /\ total_distance m
       = np_sum (map (fun s => if fle s (Some 5) then s else Some 0) d)
    /\ hsr_distance m = np_sum (counted_steps 20 d v)
    /\ sprint_distance m = np_sum (counted_steps 25 d v)
    /\ sublist (counted_steps 25 d v) (counted_steps 20 d v)
    /\ sublist (counted_steps 20 d v) short
    /\ (forall u, In u short -> exists r, u = Some r /\ 0 <= r /\ r <= 5)
    /\ sprint_distance m = Some s /\ hsr_distance m = Some h
    /\ total_distance m = Some t
    /\ 0 <= s /\ 0 <= h /\ 0 <= t.
Proof.
  intros Hsqrt Hlen Hfps d v short.
  rewrite (calculate_distance_metrics_fields np_sqrt x y fps Hlen Hfps).
  fold d. fold v.
  assert (Hv : length v = length d) by (unfold v, step_speeds_kmh; apply length_map).
  assert (Hd : forall r, In (Some r) d -> 0 <= r)
    by (intros r; apply step_distances_nonneg; assumption).
  destruct (total_of_short_steps d v Hv Hd 20) as (h & t & Hh & Ht & Hh0 & Hht).
  destruct (total_of_short_steps d v Hv Hd 25) as (s & t' & Hs & _ & Hs0 & _).
  eexists. exists s, h, t. split; [reflexivity|].
  cbn [total_distance hsr_distance sprint_distance].
  split; [reflexivity|]. split; [reflexivity|]. split; [reflexivity|].
  split; [|split; [|split]].
  - unfold counted_steps. apply sublist_map, sublist_filter_impl.
    intros [a b] H. cbn [fst snd] in *. apply andb_true_iff in H. destruct H as [H1 H2].
    rewrite H1. cbn [andb]. destruct b as [w|]; [|discriminate]. simpl in *.
    apply Qlt_bool_iff in H2. apply Qlt_bool_iff.
    eapply Qlt_trans; [|exact H2]. reflexivity.
  - unfold short.
    rewrite <- (filter_fst_combine (fun s => fle s (Some 5)) d v Hv).
    unfold counted_steps. apply sublist_map, sublist_filter_impl.
    intros [a b] H. cbn [fst snd] in *. apply andb_true_iff in H. tauto.
  - intros u Hu. apply filter_In in Hu. destruct Hu as [Hin Hle].
    destruct u as [r|]; [|discriminate]. exists r. split; [reflexivity|].
    split; [now apply Hd|]. simpl in Hle. now apply Qle_bool_iff in Hle.
  - split; [exact Hs|]. split; [exact Hh|]. split; [exact Ht|].
    split; [exact Hs0|]. split; [exact Hh0|]. exact (Qle_trans _ _ _ Hh0 Hht).
Qed.

Lemma sqrt_dyadic_nonneg (q : Q) : 0 <= sqrt_dyadic q.
Proof.
  unfold sqrt_dyadic. rewrite Qred_correct.
  unfold Qle; simpl. rewrite Z.mul_1_r. apply Z.sqrt_nonneg.
Qed.

Lemma distance_zones_nested_witness :
  exists (m : distance_metrics) (s h t : Q),
    calculate_distance_metrics sqrt_dyadic jump_x jump_y 10 = Return m
    /\ sprint_distance m = Some s /\ hsr_distance m = Some h
    /\ total_distance m = Some t
    /\ s == 0 /\ h == 0 /\ t == 1.5.
Proof.
  destruct (distance_zones_nested sqrt_dyadic jump_x jump_y 10 sqrt_dyadic_nonneg)
    as (m & s & h & t & Hm & _ & _ & _ & _ & _ & _ & Hs & Hh & Ht & _);
    [reflexivity|discriminate|].
  exists m, s, h, t. split; [exact Hm|].
  split; [exact Hs|]. split; [exact Hh|]. split; [exact Ht|].
  vm_compute in Hm. injection Hm as <-.
  cbn [sprint_distance hsr_distance total_distance] in Hs, Hh, Ht.
  injection Hs as <-. injection Hh as <-. injection Ht as <-.
  repeat split.
Defined.

(** X10: the covered distance of physics.py against the total distance of
    the metrics.  The total never exceeds the covered distance, and the
    two are one number when no step is longer than 5 m. *)
Theorem covered_distance_bounds_total (np_sqrt : Q -> Q) (x y : list float) (fps : Q) :
  (forall q : Q, 0 <= np_sqrt q) ->
  length x = length y -> ~ fps == 0 ->
  exists (m : distance_metrics) (t : Q),
    calculate_distance_metrics np_sqrt x y fps = Return m
    /\ total_distance m = Some t
    /\ (forall c : Q, calculate_covered_distance np_sqrt x y = Return (Some c) -> t <= c)
    /\ (Forall (fun s => fle s (Some 5) = true) (step_distances np_sqrt x y) ->
        calculate_covered_distance np_sqrt x y = Return (Some t)).
Proof.
  intros Hsqrt Hlen Hfps.
  rewrite (calculate_distance_metrics_fields np_sqrt x y fps Hlen Hfps).
  unfold calculate_covered_distance. rewrite hypot_arrays_steps by assumption.
  cbn [bind].
  set (d := step_distances np_sqrt x y).
  set (v := step_speeds_kmh fps d).
  assert (Hv : length v = length d) by (unfold v, step_speeds_kmh; apply length_map).
  assert (Hd : forall r, In (Some r) d -> 0 <= r)
    by (intros r; apply step_distances_nonneg; assumption).
  destruct (total_of_short_steps d v Hv Hd 20) as (h & t & _ & Ht & _ & _).
  eexists. exists t. split; [reflexivity|]. simpl. split; [assumption|]. split.
  - intros c [= Hc].
    pose proof (fold_fadd_all_Some d 0 c Hc) as Hall.
    destruct (fold_fadd_filter_le (fun s : float => s)
                (fun s => fle s (Some 5)) (fun _ => true) d) with (s0 := 0) (t0 := 0)
      as (s' & c' & Hs' & Hc' & _ & Hle).
    + intros a Ha _. specialize (Hall a Ha). destruct a as [r|]; [|discriminate].
      exists r. split; [reflexivity|]. now apply Hd.
    + reflexivity.
    + apply Qle_refl.
    + rewrite filter_true, map_id in Hc'. unfold np_sum in Hc. rewrite Hc in Hc'.
      injection Hc' as <-.
      rewrite map_id in Hs'.
      pose proof (fold_fadd_zeroed (fun s => fle s (Some 5)) d) as Hz.
      specialize (Hz (fun u => fle_not_nan u (Some 5)) 0 0 (Qeq_refl 0)).
      cbv beta in Hz. unfold np_sum in Ht. rewrite Ht, Hs' in Hz. simpl in Hz. rewrite Hz. assumption.
  - intros Hall. f_equal. rewrite <- Ht. f_equal.
    rewrite <- (map_id d) at 1. apply map_ext_in.
    intros s Hs. rewrite List.Forall_forall in Hall. now rewrite (Hall s Hs).
Qed.

Lemma covered_distance_bounds_total_witness :
  exists (m : distance_metrics) (t : Q),
    calculate_distance_metrics sqrt_dyadic jump_x jump_y 10 = Return m
    /\ total_distance m = Some t
    /\ (forall c : Q,
          calculate_covered_distance sqrt_dyadic jump_x jump_y = Return (Some c) -> t <= c).
Proof.
  destruct (covered_distance_bounds_total sqrt_dyadic jump_x jump_y 10
              sqrt_dyadic_nonneg) as (m & t & Hm & Ht & Hc & _);
    [reflexivity|discriminate|].
  exists m, t. auto.
Defined.

(** * Speeds of the metrics *)

Lemma of_nat_S (n : nat) : of_nat (S n) == of_nat n + 1.
Proof.
  unfold of_nat. rewrite Nat2Z.inj_succ, <- Z.add_1_r, inject_Z_plus. reflexivity.
Qed.

Lemma of_nat_pos (n : nat) : (0 < n)%nat -> 0 < of_nat n.
Proof.
  intros H. unfold of_nat. change 0 with (inject_Z 0). rewrite <- Zlt_Qlt. lia.
Qed.

(** The sum of [n] values between [lo] and [hi] lies between [n lo] and
    [n hi]. *)
Lemma fold_fadd_bounds (l : list float) (lo hi : Q) :
  (forall v, In v l -> exists q, v = Some q /\ lo <= q /\ q <= hi) ->
  forall a : Q, exists s : Q,
    fold_left fadd l (Some a) = Some s
    /\ a + of_nat (length l) * lo <= s /\ s <= a + of_nat (length l) * hi.
Proof.
  induction l as [|v l IH]; intros Hl a.
  - exists a. simpl. split; [reflexivity|].
    split; apply Qle_lteq; right; unfold of_nat; simpl; ring.
  - destruct (Hl v (or_introl eq_refl)) as (q & -> & Hlo & Hhi).
    destruct (IH (fun u Hu => Hl u (or_intror Hu)) (a + q)) as (s & Hs & H1 & H2).
    exists s. split; [exact Hs|]. cbn [length]. rewrite of_nat_S. split.
    + eapply Qle_trans; [|exact H1].
      setoid_replace (a + (of_nat (length l) + 1) * lo)
        with (a + lo + of_nat (length l) * lo) using relation Qeq by ring.
      apply Qplus_le_compat; [|apply Qle_refl].
      apply Qplus_le_compat; [apply Qle_refl|assumption].
    + eapply Qle_trans; [exact H2|].
      setoid_replace (a + (of_nat (length l) + 1) * hi)
        with (a + hi + of_nat (length l) * hi) using relation Qeq by ring.
      apply Qplus_le_compat; [|apply Qle_refl].
      apply Qplus_le_compat; [apply Qle_refl|assumption].
Qed.

Lemma step_speeds_nonneg (fps : Q) (d : list float) (q : Q) :
  0 < fps -> (forall r, In (Some r) d -> 0 <= r) ->
  In (Some q) (step_speeds_kmh fps d) -> 0 <= q.
Proof.
  intros Hfps Hd H. unfold step_speeds_kmh in H. apply in_map_iff in H.
  destruct H as (s & Hs & Hin). destruct s as [r|]; [|discriminate].
  simpl in Hs. destruct (Qeq_bool (1 / fps) 0); [discriminate|].
  injection Hs as <-. specialize (Hd r Hin).
  apply Qmult_le_0_compat; [|discriminate].
  apply Qle_shift_div_l.
  - apply Qlt_shift_div_l; [assumption|]. rewrite Qmult_0_l. reflexivity.
  - rewrite Qmult_0_l. assumption.
Qed.

(** X11: the two speeds of the metrics are finite and lie between 0 and
    the cap of 38 km/h, whatever the positions, at a positive frame rate.
    Both are 0 when no step speed is within the cap; otherwise
    [max_speed] is one of the step speeds within the cap and no such speed
    is above it.  (The square root is taken non-negative.) *)
Theorem metric_speeds_bounded (np_sqrt : Q -> Q) (x y : list float) (fps : Q) :
  (forall q : Q, 0 <= np_sqrt q) ->
  length x = length y -> 0 < fps ->
  let within :=
    List.filter (fun s => fle s (Some 38))
                (step_speeds_kmh fps (step_distances np_sqrt x y)) in
  exists (m : distance_metrics) (mx av : Q),
    calculate_distance_metrics np_sqrt x y fps = Return m
    /\ max_speed m = Some mx /\ avg_speed m = Some av
    /\ 0 <= av /\ av <= 38 /\ 0 <= mx /\ mx <= 38
    /\ (within = [] -> mx = 0 /\ av = 0)
    /\ (within <> [] -> In (Some mx) within /\ all_le mx within).
Proof.
  intros Hsqrt Hlen Hfps within.
  assert (Hfps0 : ~ fps == 0) by (intros E; rewrite E in Hfps; discriminate).
  rewrite (calculate_distance_metrics_fields np_sqrt x y fps Hlen Hfps0).
  set (d := step_distances np_sqrt x y) in *.
  set (v := step_speeds_kmh fps d) in *.
  assert (Hd : forall r, In (Some r) d -> 0 <= r)
    by (intros r; apply step_distances_nonneg; assumption).
  assert (Hvv : forall u, In u within ->
                  exists q, u = Some q /\ 0 <= q /\ q <= 38).
  { intros u Hu. apply filter_In in Hu. destruct Hu as [Hin Hle].
    destruct u as [q|]; [|discriminate]. exists q. split; [reflexivity|]. split.
    - eapply step_speeds_nonneg; eassumption.
    - simpl in Hle. now apply Qle_bool_iff in Hle. }
  fold within. destruct within as [|u vv'] eqn:E.
  - eexists. exists 0, 0. split; [reflexivity|]. simpl.
    split; [reflexivity|]. split; [reflexivity|].
    split; [discriminate|]. split; [discriminate|].
    split; [discriminate|]. split; [discriminate|].
    split; [intros _; split; reflexivity|congruence].
  - destruct (Hvv u (or_introl eq_refl)) as (q0 & -> & Hq0 & Hq38).
    assert (Hnan : Forall (fun w => isnan w = false) vv').
    { apply List.Forall_forall. intros w Hw.
      destruct (Hvv w (or_intror Hw)) as (? & -> & _). reflexivity. }
    destruct (fold_fmax_spec vv' Hnan q0) as (mx & Hmx & Hin & Hq0m & Hall).
    assert (Hmx38 : mx <= 38).
    { destruct Hin as [->|Hin]; [assumption|].
      destruct (Hvv (Some mx) (or_intror Hin)) as (? & [= <-] & _ & H). exact H. }
    destruct (fold_fadd_bounds (Some q0 :: vv') 0 38) with (a := 0)
      as (s & Hs & Hs0 & Hsm).
    { intros w Hw. destruct (Hvv w Hw) as (q & -> & Hq & Hq'). eauto. }
    set (n := of_nat (length (Some q0 :: vv'))) in *.
    assert (Hn : 0 < n) by (apply of_nat_pos; simpl; lia).
    eexists. exists mx, (s / n). split; [reflexivity|]. simpl.
    split; [exact Hmx|]. split.
    { unfold np_mean, np_sum. rewrite Hs. fold n. simpl.
      destruct (Qeq_bool n 0) eqn:En; [|reflexivity].
      apply Qeq_bool_iff in En. rewrite En in Hn. discriminate. }
    split; [|split; [|split; [|split; [|split]]]].
    + apply Qle_shift_div_l; [assumption|].
      rewrite Qmult_0_l. eapply Qle_trans; [|exact Hs0].
      rewrite Qmult_0_r, Qplus_0_r. apply Qle_refl.
    + apply Qle_shift_div_r; [assumption|].
      eapply Qle_trans; [exact Hsm|]. rewrite Qplus_0_l, Qmult_comm. apply Qle_refl.
    + exact (Qle_trans _ _ _ Hq0 Hq0m).
    + assumption.
    + discriminate.
    + intros _. split.
      * destruct Hin as [->|Hin]; [now left|now right].
      * intros q [[= <-]|Hq]; [assumption|now apply Hall].
Qed.

Lemma metric_speeds_bounded_witness :
  exists (m : distance_metrics) (mx av : Q),
    calculate_distance_metrics sqrt_dyadic jump_x jump_y 10 = Return m
    /\ max_speed m = Some mx /\ avg_speed m = Some av
    /\ 0 <= av /\ av <= 38 /\ 0 <= mx /\ mx <= 38 /\ mx == 18.
Proof.
  destruct (metric_speeds_bounded sqrt_dyadic jump_x jump_y 10 sqrt_dyadic_nonneg)
    as (m & mx & av & Hm & Hmx & Hav & H1 & H2 & H3 & H4 & _);
    [reflexivity|reflexivity|].
  exists m, mx, av. repeat (split; [assumption|]).
  vm_compute in Hm. injection Hm as <-. cbn [max_speed] in Hmx.
  injection Hmx as <-. reflexivity.
Defined.

(** * Period starts and the match minute *)

Lemma record_period_lookup (starts : gmap Z Z) (p : period_entry) (k : Z) :
  record_period starts p !! k
  = match record_period ∅ p !! k with
    | Some s => Some s
    | None => starts !! k
    end.
Proof.
  unfold record_period.
  destruct p as [[[pid|]|] [id|] [start|]|[pid|] [start|]];
    rewrite ?lookup_empty; try reflexivity;
    match goal with
    | |- context [Z.eqb ?z 0] => destruct (Z.eqb z 0)
    end;
    rewrite ?lookup_insert, ?lookup_empty; try reflexivity;
    case_decide; rewrite ?lookup_empty; reflexivity.
Qed.

Lemma record_period_nonzero (p : period_entry) (s : Z) :
  record_period ∅ p !! 0%Z = Some s -> False.
Proof.
  unfold record_period.
  destruct p as [[[pid|]|] [id|] [start|]|[pid|] [start|]];
    rewrite ?lookup_empty; try discriminate;
    match goal with
    | |- context [Z.eqb ?z 0] => destruct (Z.eqb_spec z 0)
    end;
    rewrite ?lookup_insert, ?lookup_empty; try discriminate;
    case_decide; rewrite ?lookup_empty; try discriminate; congruence.
Qed.

Lemma fold_record_period_skip (after : list period_entry) (starts : gmap Z Z) (k : Z) :
  (forall p, In p after -> record_period ∅ p !! k = None) ->
  fold_left record_period after starts !! k = starts !! k.
Proof.
  revert starts; induction after as [|p after IH]; intros starts H; [reflexivity|].
  simpl. rewrite IH by (intros q Hq; apply H; now right).
  rewrite record_period_lookup, (H p (or_introl eq_refl)). reflexivity.
Qed.

(** X12: the start frame recorded for a period is the one of the last
    entry that names it.  The periods are read from ['periods_extra'] when
    the metadata has that key, and from ['periods'] otherwise; an entry
    names period [k] with start [s] when, alone, it would record [k -> s];
    period 0 is never recorded. *)
Theorem get_period_starts_last_entry (metadata : match_metadata)
    (before after : list period_entry) (p : period_entry) (k s : Z) :
  match periods_extra metadata with
  | Some ps => ps
  | None => default [] (periods metadata)
  end = before ++ p :: after ->
  record_period ∅ p !! k = Some s ->
  (forall p', In p' after -> record_period ∅ p' !! k = None) ->
  get_period_starts metadata !! k = Some s
  /\ k <> 0%Z
  /\ get_period_starts metadata !! 0%Z = None.
Proof.
  intros Hps Hp Hafter. unfold get_period_starts. rewrite Hps.
  split; [|split].
  - rewrite fold_left_app. simpl.
    rewrite fold_record_period_skip by assumption.
    now rewrite record_period_lookup, Hp.
  - intros ->. now apply record_period_nonzero in Hp.
  - generalize (before ++ p :: after). intros l.
    assert (H : forall starts : gmap Z Z,
               starts !! 0%Z = None -> fold_left record_period l starts !! 0%Z = None).
    { induction l as [|q l IH]; intros starts H0; [assumption|].
      simpl. apply IH. rewrite record_period_lookup, H0.
      destruct (record_period ∅ q !! 0%Z) as [s'|] eqn:E; [|reflexivity].
      now apply record_period_nonzero in E. }
    apply H. apply lookup_empty.
Qed.

Lemma get_period_starts_last_entry_witness :
  get_period_starts
    (mk_metadata None
       (Some [PeriodObject (Some 2%Z) (Some 5%Z);
              PeriodDict (Some (Some 2%Z)) (Some 7%Z) (Some 27000%Z);
              PeriodDict None (Some 0%Z) (Some 3%Z);
              PeriodDict (Some None) (Some 2%Z) (Some 9%Z)])) !! 2%Z
  = Some 27000%Z.
Proof.
  apply (get_period_starts_last_entry
           (mk_metadata None
              (Some [PeriodObject (Some 2%Z) (Some 5%Z);
                     PeriodDict (Some (Some 2%Z)) (Some 7%Z) (Some 27000%Z);
                     PeriodDict None (Some 0%Z) (Some 3%Z);
                     PeriodDict (Some None) (Some 2%Z) (Some 9%Z)]))
           [PeriodObject (Some 2%Z) (Some 5%Z)]
           [PeriodDict None (Some 0%Z) (Some 3%Z);
            PeriodDict (Some None) (Some 2%Z) (Some 9%Z)]
           (PeriodDict (Some (Some 2%Z)) (Some 7%Z) (Some 27000%Z)) 2 27000).
  - reflexivity.
  - reflexivity.
  - intros p' [<-|[<-|[]]]; reflexivity.
Defined.

Lemma lookup_zip2 {A B C : Type} (f : A -> B -> C) (a : list A) (b : list B) (i : nat) :
  zip2 f a b !! i
  = match a !! i, b !! i with
    | Some x, Some y => Some (f x y)
    | _, _ => None
    end.
Proof.
  revert b i; induction a as [|x a IH]; intros [|y b] [|i]; simpl; auto.
  - now destruct (a !! i).
Qed.

(** The array branch of the clock, row by row. *)
Lemma clock_array_rows (frame period : list Z) (p1 p2 : Z) (fps : Q) (n : nat) :
  length period = length frame -> n = length frame ->
  zip2 fadd
    (scalar_op fmul
       (zip2 (fun (b : bool) x => if b then Some 45 else x)
             (map (fun v => Z.eqb v 2) period)
             (zip2 (fun (b : bool) x => if b then Some 0 else x)
                   (map (fun v => Z.eqb v 1) period) (repeat (Some 0) n)))
       60)
    (zip2 (fun f s => fdiv (Some (inject_Z (f - s))) (Some fps)) frame
       (zip2 (fun (b : bool) x => if b then p2 else x)
             (map (fun v => Z.eqb v 2) period)
             (zip2 (fun (b : bool) x => if b then p1 else x)
                   (map (fun v => Z.eqb v 1) period) (repeat 0%Z n))))
  = zip2 (fun f p =>
            fadd (fmul (Some (if Z.eqb p 2 then 45 else 0)) (Some 60))
                 (fdiv (Some (inject_Z
                          (f - (if Z.eqb p 2 then p2
                                else if Z.eqb p 1 then p1 else 0%Z))))
                       (Some fps)))
         frame period.
Proof.
  revert period n; induction frame as [|f frame IH]; intros [|p period] n H Hn;
    try discriminate; subst n; [reflexivity|].
  injection H as H. cbn [length repeat map zip2 scalar_op].
  f_equal.
  - destruct (Z.eqb p 2), (Z.eqb p 1); reflexivity.
  - apply (IH period (length frame) H eq_refl).
Qed.

Lemma calculate_match_clock_array (frame period : list Z) (starts : gmap Z Z) (fps : Q) :
  length period = length frame ->
  calculate_match_clock (Array frame) (Array period) starts fps
  = Return (Seconds
      (zip2 (fun f p =>
               fadd (fmul (Some (if Z.eqb p 2 then 45 else 0)) (Some 60))
                    (fdiv (Some (inject_Z
                             (f - (if Z.eqb p 2 then default 0%Z (starts !! 2%Z)
                                   else if Z.eqb p 1 then default 0%Z (starts !! 1%Z)
                                   else 0%Z))))
                          (Some fps)))
            frame period)).
Proof.
  intros H. unfold calculate_match_clock, period_mask, mask_assign.
  rewrite H, Nat.eqb_refl. cbn [bind].
  rewrite !length_map, !repeat_length, H, Nat.eqb_refl. cbn [bind].
  rewrite !length_zip2, !length_map, !repeat_length, H, Nat.min_id, Nat.eqb_refl.
  cbn [bind].
  now rewrite clock_array_rows.
Qed.

(** X13: [calculate_match_minute] with a list of periods: every row gets
    the minute [base + (frame - start) / 600], with base 45 for period 2
    and 0 otherwise, [start] being the start frame that
    [get_period_starts] finds for period 1 or 2 and 0 for any other
    period (10 frames per second, whatever the data). *)
Theorem calculate_match_minute_rows (frame period : list Z) (l : list period_entry) :
  length period = length frame ->
  let starts := get_period_starts (mk_metadata None (Some l)) in
  exists mm : list float,
    calculate_match_minute (Some frame) (Some period) (PeriodList l) = Return (Some mm)
    /\ length mm = length frame
    /\ forall (i : nat) (f p : Z),
         frame !! i = Some f -> period !! i = Some p ->
         exists q : Q,
           mm !! i = Some (Some q)
           /\ q == inject_Z (if Z.eqb p 2 then 45 else 0)
                   + inject_Z (f - (if Z.eqb p 1 || Z.eqb p 2
                                    then default 0%Z (starts !! p) else 0%Z)) / 600.
Proof.
  intros H starts. unfold calculate_match_minute. fold starts.
  rewrite calculate_match_clock_array by assumption. cbn [bind].
  eexists. split; [reflexivity|]. split.
  - unfold scalar_op. rewrite length_map, length_zip2. lia.
  - intros i f p Hf Hp. unfold scalar_op.
    rewrite lookup_map, lookup_zip2, Hf, Hp. cbn [option_map].
    destruct (Z.eqb_spec p 2) as [->|H2].
    + eexists. split; [reflexivity|]. simpl. field.
    + destruct (Z.eqb_spec p 1) as [->|H1].
      * eexists. split; [reflexivity|]. simpl. field.
      * eexists. split; [reflexivity|]. simpl. field.
Qed.

Lemma calculate_match_minute_rows_witness :
  exists mm : list float,
    calculate_match_minute (Some [10; 27000; 27600]%Z) (Some [1; 2; 2]%Z)
      (PeriodList [PeriodDict (Some (Some 1%Z)) None (Some 10%Z);
                   PeriodDict (Some (Some 2%Z)) None (Some 27000%Z)])
    = Return (Some mm)
    /\ arrays_eq mm [Some 0; Some 45; Some 46].
Proof.
  destruct (calculate_match_minute_rows [10; 27000; 27600]%Z [1; 2; 2]%Z
              [PeriodDict (Some (Some 1%Z)) None (Some 10%Z);
               PeriodDict (Some (Some 2%Z)) None (Some 27000%Z)] eq_refl)
    as (mm & Hmm & _).
  exists mm. split; [exact Hmm|].
  vm_compute in Hmm. injection Hmm as <-.
  repeat constructor.
Defined.

(** * Formatting seconds *)

(** X14: [seconds_to_time] splits a number of seconds that is not
    negative (and below [2^53], where the floor division and the remainder
    of two floats are exact) into whole minutes and a seconds part between
    0 and 59 that add up to the seconds rounded down. *)
Theorem seconds_to_time_parts (seconds : Q) :
  0 <= seconds -> seconds < inject_Z (2 ^ 53) ->
  exists minutes secs : Z,
    seconds_to_time seconds = (format_02d minutes ++ ":" ++ format_02d secs)%string
    /\ (0 <= minutes)%Z
    /\ (0 <= secs <= 59)%Z
    /\ (60 * minutes + secs)%Z = Qfloor seconds.
Proof.
  intros Hpos _. unfold seconds_to_time.
  set (m := Qfloor (seconds / 60)).
  exists m, (Qfloor (seconds - 60 * inject_Z m)).
  split; [reflexivity|].
  assert (Hr : Qfloor (seconds - 60 * inject_Z m) = (- (60 * m) + Qfloor seconds)%Z).
  { rewrite <- Qfloor_add_Z. apply Qfloor_comp.
    rewrite inject_Z_opp, inject_Z_mult. change (inject_Z 60) with 60. ring. }
  pose proof (Qfloor_le (seconds / 60)) as Hlo.
  pose proof (Qlt_floor (seconds / 60)) as Hhi. fold m in Hlo, Hhi.
  assert (H1 : inject_Z (60 * m) <= seconds).
  { rewrite inject_Z_mult. change (inject_Z 60) with 60.
    apply Qle_shift_div_l in Hlo || idtac.
    setoid_replace seconds with (60 * (seconds / 60)) using relation Qeq by field.
    apply Qmult_le_l; [reflexivity|assumption]. }
  assert (H2 : seconds < inject_Z (60 * m + 60)).
  { rewrite inject_Z_plus, inject_Z_mult. change (inject_Z 60) with 60.
    setoid_replace seconds with (60 * (seconds / 60)) using relation Qeq at 1 by field.
    setoid_replace (60 * inject_Z m + 60) with (60 * inject_Z (m + 1)) using relation Qeq
      by (rewrite inject_Z_plus; change (inject_Z 1) with 1; ring).
    apply Qmult_lt_l; [reflexivity|assumption]. }
  assert (H3 : (60 * m <= Qfloor seconds)%Z).
  { apply Qfloor_resp_le in H1. now rewrite Qfloor_Z in H1. }
  assert (H4 : (Qfloor seconds < 60 * m + 60)%Z).
  { rewrite Zlt_Qlt. eapply Qle_lt_trans; [apply Qfloor_le|exact H2]. }
  assert (H5 : (0 <= Qfloor seconds)%Z).
  { apply Qfloor_resp_le in Hpos. exact Hpos. }
  rewrite Hr. lia.
Qed.

Lemma seconds_to_time_parts_witness :
  exists minutes secs : Z,
    seconds_to_time 125.5 = (format_02d minutes ++ ":" ++ format_02d secs)%string
    /\ (0 <= minutes)%Z
    /\ (0 <= secs <= 59)%Z
    /\ (60 * minutes + secs)%Z = 125%Z.
Proof.
  apply (seconds_to_time_parts 125.5); [discriminate|reflexivity].
Defined.

(** * The nearest frame *)

Section Nearest.

Context {Frame : Type}.
Variable frame_id : Frame -> Z.

Lemma find_frame_loop_nearest (frames : list Frame) (target : Z) :
  forall (f0 : Frame) (d0 : Z),
    d0 = Z.abs (frame_id f0 - target) ->
    exists (f : Frame) (d : Z),
      find_frame_loop frame_id frames target (Some f0) (Some d0) = (Some f, Some d)
      /\ (f = f0 \/ In f frames)
      /\ d = Z.abs (frame_id f - target)
      /\ (d <= d0)%Z
      /\ forall g, In g frames -> (d <= Z.abs (frame_id g - target))%Z.
Proof.
  induction frames as [|g frames IH]; intros f0 d0 Hd0.
  - exists f0, d0. simpl. repeat split; auto; try lia; try (intros ? []).
  - simpl. destruct (Z.eqb_spec (Z.abs (frame_id g - target)) 0) as [E|E].
    + exists g, 0%Z. repeat split; auto; try lia; try (intros h _; lia).
    + destruct (Z.ltb_spec (Z.abs (frame_id g - target)) d0) as [Hlt|Hge].
      * destruct (IH g _ eq_refl) as (f & d & Hr & Hin & Hd & Hle & Hall).
        exists f, d. repeat split; auto; try lia.
        -- destruct Hin as [->|Hin]; auto.
        -- intros h [<-|Hh]; [lia|now apply Hall].
      * destruct (IH f0 d0 Hd0) as (f & d & Hr & Hin & Hd & Hle & Hall).
        exists f, d. repeat split; auto.
        -- destruct Hin as [->|Hin]; auto.
        -- intros h [<-|Hh]; [lia|now apply Hall].
Qed.

End Nearest.

(** X15: [find_frame_by_id] returns a frame of the dataset whose distance
    to the target id is the least over all frames, together with that
    distance; it returns [(None, None)] exactly on a dataset without
    frames. *)
Theorem find_frame_by_id_nearest {Frame : Type} (frame_id : Frame -> Z)
    (frames : list Frame) (target : Z) :
  match find_frame_by_id frame_id frames target with
  | (Some f, Some d) =>
      In f frames /\ d = Z.abs (frame_id f - target)
      /\ forall g, In g frames -> (d <= Z.abs (frame_id g - target))%Z
  | (None, None) => frames = []
  | _ => False
  end.
Proof.
  unfold find_frame_by_id. destruct frames as [|g frames]; [reflexivity|].
  simpl. destruct (Z.eqb_spec (Z.abs (frame_id g - target)) 0) as [E|E].
  - repeat split; auto. intros h _. lia.
  - destruct (find_frame_loop_nearest frame_id frames target g _ eq_refl)
      as (f & d & Hr & Hin & Hd & Hle & Hall).
    rewrite Hr. repeat split; auto.
    + destruct Hin as [->|Hin]; auto.
    + intros h [<-|Hh]; [lia|now apply Hall].
Qed.

(** * The bounds check and the event coordinates *)

Lemma In_map_fabs (a : list float) (m : Q) :
  In (Some m) (map fabs a) <-> exists v, In (Some v) a /\ m = Qabs v.
Proof.
  rewrite in_map_iff. split.
  - intros ([v|] & H & Hin); [|discriminate]. injection H as <-. eauto.
  - intros (v & Hin & ->). exists (Some v). auto.
Qed.

Lemma nanmax_abs_gt (a : list float) (m : float) (c : Q) :
  np_nanmax_abs a = Return m ->
  (fgt m (Some c) = true <-> exists v, In (Some v) a /\ c < Qabs v).
Proof.
  unfold np_nanmax_abs. destruct a as [|v0 a0] eqn:Ea; [discriminate|].
  rewrite <- Ea. clear Ea v0 a0.
  destruct (valid (map fabs a)) as [|u l] eqn:E.
  - intros [= <-]. simpl. split; [discriminate|]. intros (v & Hin & _). exfalso.
    assert (H : In (Some (Qabs v)) (valid (map fabs a))).
    { apply In_valid_Some, In_map_fabs. eauto. }
    rewrite E in H. destruct H.
  - intros [= <-].
    destruct (np_max_valid (map fabs a)) as (m & Hm & Hin & Hall).
    { rewrite E. discriminate. }
    rewrite E in Hm. simpl in Hm. injection Hm as ->.
    simpl. rewrite Qlt_bool_iff. split.
    + intros Hc. apply In_map_fabs in Hin. destruct Hin as (v & Hv & ->). eauto.
    + intros (v & Hv & Hc). eapply Qlt_le_trans; [exact Hc|].
      apply Hall, In_map_fabs. eauto.
Qed.

Lemma validate_coordinate_bounds_warns (x y : list float) (tolerance : Q) (w : bool) :
  validate_coordinate_bounds x y tolerance = Return w ->
  (w = true <->
   (exists v, In (Some v) x /\ HALF_PITCH_LENGTH + tolerance < Qabs v)
   \/ (exists v, In (Some v) y /\ HALF_PITCH_WIDTH + tolerance < Qabs v)).
Proof.
  unfold validate_coordinate_bounds.
  destruct (np_nanmax_abs x) as [mx|e] eqn:Ex; [|discriminate].
  destruct (np_nanmax_abs y) as [my|e] eqn:Ey; [|discriminate].
  cbn [bind]. cbv zeta. intros H.
  assert (E : w = fgt mx (Some (HALF_PITCH_LENGTH + tolerance))
                  || fgt my (Some (HALF_PITCH_WIDTH + tolerance)))
    by (now injection H).
  rewrite E, orb_true_iff, (nanmax_abs_gt x mx _ Ex), (nanmax_abs_gt y my _ Ey).
  reflexivity.
Qed.

(** X16: the bounds check takes [np.nanmax] of both columns, so it raises
    [ValueError] when either column is empty.  On two columns that are not
    empty it returns, and its warning is logged exactly when some
    coordinate that is not NaN lies more than the tolerance outside the
    pitch, beyond [52.5 + tolerance] in x or [34 + tolerance] in y; NaN
    entries never cause it. *)
Theorem validate_coordinate_bounds_iff (x y : list float) (tolerance : Q) :
  (x = [] \/ y = [] ->
   validate_coordinate_bounds x y tolerance = Raise ValueError)
  /\ (x <> [] -> y <> [] ->
      exists w : bool,
        validate_coordinate_bounds x y tolerance = Return w
        /\ (w = true <->
            (exists v, In (Some v) x /\ HALF_PITCH_LENGTH + tolerance < Qabs v)
            \/ (exists v, In (Some v) y /\ HALF_PITCH_WIDTH + tolerance < Qabs v))).
Proof.
  split.
  - intros [-> | ->]; [reflexivity|].
    unfold validate_coordinate_bounds.
    destruct (np_nanmax_abs x) as [mx|e] eqn:Ex; [reflexivity|].
    unfold np_nanmax_abs in Ex. destruct x as [|v x]; [now injection Ex as <-|].
    destruct (valid (map fabs (v :: x))); discriminate.
  - intros Hx Hy.
    destruct (validate_coordinate_bounds_returns x y tolerance Hx Hy) as [w Hw].
    exists w. split; [exact Hw|].
    now apply validate_coordinate_bounds_warns.
Qed.

Lemma validate_coordinate_bounds_iff_witness :
  validate_coordinate_bounds [] [Some 100] 5 = Raise ValueError
  /\ validate_coordinate_bounds [Some 1; NaN] [] 5 = Raise ValueError
  /\ validate_coordinate_bounds [Some (-58); NaN] [Some 10] 5 = Return true
  /\ validate_coordinate_bounds [Some 57; NaN] [NaN] 5 = Return false.
Proof.
  split; [|split; [|split]].
  - apply (proj1 (validate_coordinate_bounds_iff [] [Some 100] 5)). now left.
  - apply (proj1 (validate_coordinate_bounds_iff [Some 1; NaN] [] 5)). now right.
  - destruct (proj2 (validate_coordinate_bounds_iff [Some (-58); NaN] [Some 10] 5))
      as (w & -> & Hw); [discriminate|discriminate|].
    f_equal. apply Hw. left. exists (-58). split; [now left|reflexivity].
  - destruct (proj2 (validate_coordinate_bounds_iff [Some 57; NaN] [NaN] 5))
      as (w & -> & Hw); [discriminate|discriminate|].
    f_equal. destruct w; [|reflexivity]. exfalso.
    destruct (proj1 Hw eq_refl) as [(v & Hv & Hc)|(v & Hv & Hc)].
    + destruct Hv as [[= <-]|[[=]|[]]]. revert Hc. apply Qle_not_lt. discriminate.
    + destruct Hv as [[=]|[]].
Defined.

Lemma In_scalar_op (f : float -> float -> float) (a : list float) (c : Q) (w : float) :
  In w (scalar_op f a c) <-> exists v, In v a /\ w = f v (Some c).
Proof.
  unfold scalar_op. rewrite in_map_iff. split; intros (v & H1 & H2); eauto.
Qed.

Lemma half_length : HALF_PITCH_LENGTH == 52.5.
Proof. reflexivity. Qed.

Lemma half_width : HALF_PITCH_WIDTH == 34.
Proof. reflexivity. Qed.

Lemma no_warning_inside (x y : list float) (w : bool) :
  validate_coordinate_bounds x y 5 = Return w ->
  all_abs_le 52.5 x -> all_abs_le 34 y -> w = false.
Proof.
  intros E Hx Hy. destruct w; [|reflexivity]. exfalso.
  apply validate_coordinate_bounds_warns in E.
  destruct (proj1 E eq_refl) as [(v & Hv & Hc)|(v & Hv & Hc)].
  - specialize (Hx v Hv). rewrite half_length in Hc. lra.
  - specialize (Hy v Hv). rewrite half_width in Hc. lra.
Qed.

(** X17: coordinates that fill the unit square, [0 <= x, y <= 1], or the
    percentage square, [0 <= x, y <= 100] with some value above 1.5, are
    scaled onto the pitch: every scaled value lies within
    [[-52.5, 52.5]] in x and [[-34, 34]] in y, and no bounds warning is
    logged. *)
Theorem normalised_coordinates_on_pitch (x y : list float) :
  valid x <> [] -> valid y <> [] ->
  all_ge 0 x -> all_ge 0 y ->
  (all_le 1 x /\ all_le 1 y)
  \/ (all_le 100 x /\ all_le 100 y /\ ~ (all_le 1.5 x /\ all_le 1.5 y)) ->
  exists r : scaled,
    infer_and_scale_coordinates x y = Return r
    /\ all_abs_le 52.5 (x_scaled r) /\ all_abs_le 34 (y_scaled r)
    /\ bounds_warning r = false.
Proof.
  intros Hx Hy Gx Gy Hcase.
  destruct (infer_and_scale_coordinates_tests x y Hx Hy)
    as (b1 & b2 & warning & H1 & H2 & H).
  cbv zeta in H. destruct H as [Hwarn ->].
  eexists. split; [reflexivity|]. cbn [x_scaled y_scaled bounds_warning].
  assert (Hin : forall a c v, all_ge 0 a -> all_le c a -> In (Some v) a -> 0 <= v <= c)
    by (intros a c v Ha Hc Hv; split; [now apply Ha|now apply Hc]).
  destruct Hcase as [[Lx Ly]|(Lx & Ly & Hbig)].
  - assert (Hb1 : b1 = true).
    { apply H1. repeat split; auto; intros v Hv;
        [specialize (Lx v Hv)|specialize (Ly v Hv)]; lra. }
    subst b1. cbn [to_pitch_meters String.eqb Ascii.eqb Bool.eqb fst snd] in Hwarn |- *.
    assert (Ax : all_abs_le 52.5
                   (scalar_op fsub (scalar_op fmul x PITCH_LENGTH) HALF_PITCH_LENGTH)).
    { intros w Hw. apply In_scalar_op in Hw. destruct Hw as (u & Hu & Hw).
      apply In_scalar_op in Hu. destruct Hu as ([v|] & Hv & ->); [|discriminate].
      injection Hw as ->. destruct (Hin x 1 v Gx Lx Hv).
      apply Qabs_Qle_condition.
      rewrite !half_length. unfold PITCH_LENGTH. split; lra. }
    assert (Ay : all_abs_le 34
                   (scalar_op fsub (scalar_op fmul y PITCH_WIDTH) HALF_PITCH_WIDTH)).
    { intros w Hw. apply In_scalar_op in Hw. destruct Hw as (u & Hu & Hw).
      apply In_scalar_op in Hu. destruct Hu as ([v|] & Hv & ->); [|discriminate].
      injection Hw as ->. destruct (Hin y 1 v Gy Ly Hv).
      apply Qabs_Qle_condition.
      rewrite !half_width. unfold PITCH_WIDTH. split; lra. }
    split; [exact Ax|]. split; [exact Ay|]. exact (no_warning_inside _ _ warning Hwarn Ax Ay).
  - assert (Hb1 : b1 = false).
    { destruct b1; [|reflexivity]. exfalso. apply Hbig.
      destruct H1 as [H1 _]. destruct (H1 eq_refl) as (? & ? & _). auto. }
    assert (Hb2 : b2 = true).
    { apply H2. repeat split; auto; intros v Hv.
      - specialize (Lx v Hv). lra.
      - specialize (Ly v Hv). lra.
      - specialize (Gx v Hv). lra.
      - specialize (Gy v Hv). lra. }
    subst b1 b2. cbn [to_pitch_meters String.eqb Ascii.eqb Bool.eqb fst snd] in Hwarn |- *.
    assert (Ax : all_abs_le 52.5
                   (scalar_op fsub
                      (scalar_op fmul (scalar_op fdiv x 100) PITCH_LENGTH)
                      HALF_PITCH_LENGTH)).
    { intros w Hw. apply In_scalar_op in Hw. destruct Hw as (u & Hu & Hw).
      apply In_scalar_op in Hu. destruct Hu as (u' & Hu' & ->).
      apply In_scalar_op in Hu'. destruct Hu' as ([v|] & Hv & ->); [|discriminate].
      injection Hw as ->. destruct (Hin x 100 v Gx Lx Hv).
      apply Qabs_Qle_condition.
      assert (E : v / 100 == v * 0.01) by field.
      rewrite !half_length, E. unfold PITCH_LENGTH. split; lra. }
    assert (Ay : all_abs_le 34
                   (scalar_op fsub
                      (scalar_op fmul (scalar_op fdiv y 100) PITCH_WIDTH)
                      HALF_PITCH_WIDTH)).
    { intros w Hw. apply In_scalar_op in Hw. destruct Hw as (u & Hu & Hw).
      apply In_scalar_op in Hu. destruct Hu as (u' & Hu' & ->).
      apply In_scalar_op in Hu'. destruct Hu' as ([v|] & Hv & ->); [|discriminate].
      injection Hw as ->. destruct (Hin y 100 v Gy Ly Hv).
      apply Qabs_Qle_condition.
      assert (E : v / 100 == v * 0.01) by field.
      rewrite !half_width, E. unfold PITCH_WIDTH. split; lra. }
    split; [exact Ax|]. split; [exact Ay|]. exact (no_warning_inside _ _ warning Hwarn Ax Ay).
Qed.

Lemma normalised_coordinates_on_pitch_witness :
  exists r : scaled,
    infer_and_scale_coordinates [Some 50; NaN; Some 100] [Some 0; Some 25; NaN]
    = Return r
    /\ all_abs_le 52.5 (x_scaled r) /\ all_abs_le 34 (y_scaled r)
    /\ bounds_warning r = false.
Proof.
  apply (normalised_coordinates_on_pitch [Some 50; NaN; Some 100] [Some 0; Some 25; NaN]).
  - discriminate.
  - discriminate.
  - intros v [[= <-]|[[=]|[[= <-]|[]]]]; discriminate.
  - intros v [[= <-]|[[= <-]|[[=]|[]]]]; discriminate.
  - right. split; [|split].
    + intros v [[= <-]|[[=]|[[= <-]|[]]]]; discriminate.
    + intros v [[= <-]|[[= <-]|[[=]|[]]]]; discriminate.
    + intros [Ax _]. specialize (Ax 50 (or_introl eq_refl)). revert Ax.
      apply Qlt_not_le. reflexivity.
Defined.

Lemma infer_and_scale_coordinates_returns (x y : list float) :
  valid x = [] \/ valid y <> [] ->
  exists r : scaled,
    infer_and_scale_coordinates x y = Return r
    /\ String.eqb (scale_system r) "skillcorner" = false
    /\ length (x_scaled r) = length x /\ length (y_scaled r) = length y.
Proof.
  intros H. destruct (valid x) as [|u l] eqn:Ex.
  - unfold infer_and_scale_coordinates. rewrite Ex. eexists. split; [reflexivity|].
    repeat split.
  - destruct H as [H|Hy]; [discriminate|].
    destruct (infer_and_scale_coordinates_tests x y) as (b1 & b2 & w & _ & _ & H);
      [rewrite Ex; discriminate|assumption|].
    cbv zeta in H. destruct H as [_ ->]. eexists. split; [reflexivity|]. cbn [scale_system x_scaled y_scaled].
    destruct b1, b2; cbn; unfold scalar_op; rewrite ?length_map; repeat split.
Qed.

(** X18: [infer_and_scale_coordinates] never answers ['skillcorner'], the
    one name its caller in data_loader.py compares with, so
    [_process_events_coordinates] logs its warning for every table that
    has both location columns, data in metres included.  It returns when x
    is all-NaN or y holds a value: the input columns are kept under
    [x_raw], [y_raw], the scaled ones are written to [x], [y] with their
    length unchanged, and every other column is left as it was. *)
Theorem process_events_always_warns (df : gmap string (list float))
    (x_vals y_vals : list float) :
  df !! "location_x"%string = Some x_vals ->
  df !! "location_y"%string = Some y_vals ->
  valid x_vals = [] \/ valid y_vals <> [] ->
  exists (df' : gmap string (list float)) (r : scaled),
    _process_events_coordinates df = Return (df', true)
    /\ infer_and_scale_coordinates x_vals y_vals = Return r
    /\ df' !! "x"%string = Some (x_scaled r) /\ df' !! "y"%string = Some (y_scaled r)
    /\ df' !! "x_raw"%string = Some x_vals /\ df' !! "y_raw"%string = Some y_vals
    /\ length (x_scaled r) = length x_vals /\ length (y_scaled r) = length y_vals
    /\ forall c : string,
         c <> "x"%string -> c <> "y"%string ->
         c <> "x_raw"%string -> c <> "y_raw"%string -> df' !! c = df !! c.
Proof.
  intros Hx Hy Hv. unfold _process_events_coordinates. rewrite Hx, Hy.
  destruct (infer_and_scale_coordinates_returns x_vals y_vals Hv)
    as (r & Hr & Htag & Hlx & Hly).
  rewrite Hr. cbn [bind]. rewrite Htag. cbn [negb].
  eexists. exists r. split; [reflexivity|]. split; [reflexivity|].
  repeat split; auto.
  - now rewrite !lookup_insert_ne, lookup_insert_eq by discriminate.
  - now rewrite !lookup_insert_ne, lookup_insert_eq by discriminate.
  - now rewrite !lookup_insert_ne, lookup_insert_eq by discriminate.
  - now rewrite lookup_insert_eq.
  - intros c H1 H2 H3 H4. now rewrite !lookup_insert_ne by congruence.
Qed.

Lemma process_events_always_warns_witness :
  exists (df' : gmap string (list float)),
    _process_events_coordinates
      (<["location_y"%string := [Some 0; Some 34]]>
         (<["location_x"%string := [Some (-52.5); Some 10]]> ∅))
    = Return (df', true)
    /\ df' !! "x"%string = Some [Some (-52.5); Some 10].
Proof.
  destruct (process_events_always_warns
              (<["location_y"%string := [Some 0; Some 34]]>
                 (<["location_x"%string := [Some (-52.5); Some 10]]> ∅))
              [Some (-52.5); Some 10] [Some 0; Some 34])
    as (df' & r & Hdf & Hr & Hxs & _).
  - reflexivity.
  - reflexivity.
  - right. discriminate.
  - exists df'. split; [exact Hdf|]. rewrite Hxs.
    vm_compute in Hr. injection Hr as <-. reflexivity.
Defined.

(** * Pitch zones *)

Lemma flt_opp (a b : Q) : Qlt_bool (- a) (- b) = Qlt_bool b a.
Proof.
  destruct (Qlt_bool b a) eqn:E.
  - apply Qlt_bool_iff. apply Qlt_bool_iff in E. lra.
  - destruct (Qlt_bool (- a) (- b)) eqn:E'; [|reflexivity].
    apply Qlt_bool_iff in E'. assert (H : b < a) by lra.
    apply Qlt_bool_iff in H. congruence.
Qed.

Lemma flt_opp_r (a b : Q) : Qlt_bool a (- b) = Qlt_bool b (- a).
Proof.
  destruct (Qlt_bool b (- a)) eqn:E.
  - apply Qlt_bool_iff. apply Qlt_bool_iff in E. lra.
  - destruct (Qlt_bool a (- b)) eqn:E'; [|reflexivity].
    apply Qlt_bool_iff in E'. assert (H : b < - a) by lra.
    apply Qlt_bool_iff in H. congruence.
Qed.

Lemma zone_mirror (third channel_width : Q) (x y : float) :
  0 <= third -> 0 <= channel_width ->
  (long_zone third (option_map Qopp x) ++ "_"
   ++ lat_zone channel_width (option_map Qopp y))%string
  = mirror_zone (long_zone third x ++ "_" ++ lat_zone channel_width y)%string.
Proof.
  intros Ht Hc.
  assert (Hx : long_zone third (option_map Qopp x)
               = if flt x (Some (- third)) then "attacking_third"%string
                 else if fgt x (Some third) then "defensive_third"%string
                 else "middle_third"%string).
  { destruct x as [q|]; [|reflexivity]. unfold long_zone. simpl.
    rewrite flt_opp, <- flt_opp_r.
    destruct (Qlt_bool third q) eqn:E1, (Qlt_bool q (- third)) eqn:E2; try reflexivity.
    apply Qlt_bool_iff in E1, E2. lra. }
  assert (Hy : lat_zone channel_width (option_map Qopp y)
               = if flt y (Some (- channel_width)) then "right_channel"%string
                 else if fgt y (Some channel_width) then "left_channel"%string
                 else "center_channel"%string).
  { destruct y as [q|]; [|reflexivity]. unfold lat_zone. simpl.
    rewrite flt_opp, <- flt_opp_r.
    destruct (Qlt_bool channel_width q) eqn:E1, (Qlt_bool q (- channel_width)) eqn:E2;
      try reflexivity.
    apply Qlt_bool_iff in E1, E2. lra. }
  rewrite Hx, Hy. unfold long_zone, lat_zone.
  destruct (flt x (Some (- third))), (fgt x (Some third)),
    (flt y (Some (- channel_width))), (fgt y (Some channel_width)); reflexivity.
Qed.

Lemma string_append_assoc (a b c : string) :
  ((a ++ b) ++ c)%string = (a ++ (b ++ c))%string.
Proof.
  induction a as [|ch a IH]; [reflexivity|].
  change (String ch ((a ++ b) ++ c) = String ch (a ++ (b ++ c)))%string.
  now rewrite IH.
Qed.

Lemma zip2_ext {A B C : Type} (f g : A -> B -> C) (a : list A) (b : list B) :
  (forall u v, f u v = g u v) -> zip2 f a b = zip2 g a b.
Proof.
  intros H. revert b; induction a as [|u a IH]; intros [|v b]; simpl; auto.
  now rewrite H, IH.
Qed.

Lemma pitch_zone_arrays (np_str : list string -> string) (xs ys : list float)
    (pitch_length pitch_width : Q) :
  length xs = length ys ->
  get_pitch_zone np_str (Array xs) (Array ys) pitch_length pitch_width
  = Return (Zones (zip2 (fun x y =>
                           (long_zone (pitch_length / 3) x ++ "_"
                            ++ lat_zone (pitch_width / 3) y)%string) xs ys)).
Proof.
  intros H. unfold get_pitch_zone.
  rewrite broadcast2_same_length by (now rewrite !length_map).
  cbn [bind]. rewrite map_map, zip2_map. do 2 f_equal.
  apply zip2_ext. intros u v. apply string_append_assoc.
Qed.

(** X19: on arrays, [get_pitch_zone] gives each point the zone that the
    scalar branch gives that point alone: the [np.where] cascade and the
    [if]/[elif] cascade agree, NaN included. *)
Theorem pitch_zone_branches_agree (np_str : list string -> string)
    (xs ys : list float) (pitch_length pitch_width : Q) :
  length xs = length ys ->
  exists zs : list string,
    get_pitch_zone np_str (Array xs) (Array ys) pitch_length pitch_width
    = Return (Zones zs)
    /\ length zs = length xs
    /\ forall (i : nat) (x y : float),
         xs !! i = Some x -> ys !! i = Some y ->
         exists z : string,
           get_pitch_zone np_str (Scalar x) (Scalar y) pitch_length pitch_width
           = Return (Zone z)
           /\ zs !! i = Some z.
Proof.
  intros H. rewrite pitch_zone_arrays by assumption.
  eexists. split; [reflexivity|]. split.
  - rewrite length_zip2. lia.
  - intros i x y Hx Hy. eexists. split; [reflexivity|].
    now rewrite lookup_zip2, Hx, Hy.
Qed.

Lemma pitch_zone_branches_agree_witness :
  get_pitch_zone (fun _ => EmptyString) (Array [Some (-40); NaN; Some 36])
                 (Array [Some 0; Some 30; Some (-23)]) 105 68
  = Return (Zones ["defensive_third_center_channel";
                   "middle_third_right_channel";
                   "attacking_third_left_channel"]%string).
Proof.
  destruct (pitch_zone_branches_agree (fun _ => EmptyString)
              [Some (-40); NaN; Some 36] [Some 0; Some 30; Some (-23)] 105 68 eq_refl)
    as (zs & Hzs & _).
  reflexivity.
Defined.

(** X20: turning the play round, as [standardize_direction] does by
    negating both arrays, mirrors every zone: the defensive and the
    attacking third change places, and so do the left and the right
    channel (pitch dimensions not negative). *)
Theorem pitch_zone_mirror (np_str : list string -> string)
    (xs ys : list float) (pitch_length pitch_width : Q) :
  0 <= pitch_length -> 0 <= pitch_width -> length xs = length ys ->
  exists zs : list string,
    get_pitch_zone np_str (Array xs) (Array ys) pitch_length pitch_width
    = Return (Zones zs)
    /\ get_pitch_zone np_str (Array (np_negative xs)) (Array (np_negative ys))
                      pitch_length pitch_width
       = Return (Zones (map mirror_zone zs)).
Proof.
  intros HL HW H. rewrite !pitch_zone_arrays
    by (unfold np_negative; rewrite ?length_map; assumption).
  eexists. split; [reflexivity|]. do 2 f_equal.
  unfold np_negative. rewrite zip2_map, map_zip2.
  assert (Ht : 0 <= pitch_length / 3) by (apply Qle_shift_div_l; lra).
  assert (Hc : 0 <= pitch_width / 3) by (apply Qle_shift_div_l; lra).
  clear H. revert ys; induction xs as [|x xs IH]; intros [|y ys]; simpl; auto.
  rewrite IH. f_equal. now apply zone_mirror.
Qed.

Lemma pitch_zone_mirror_witness :
  get_pitch_zone (fun _ => EmptyString)
    (Array (fst (standardize_direction [Some (-40); Some 36] [Some 30; Some 0]
                   2 "left_to_right" "home_ltr")))
    (Array (snd (standardize_direction [Some (-40); Some 36] [Some 30; Some 0]
                   2 "left_to_right" "home_ltr"))) 105 68
  = Return (Zones ["attacking_third_left_channel";
                   "defensive_third_center_channel"]%string).
Proof.
  destruct (pitch_zone_mirror (fun _ => EmptyString)
              [Some (-40); Some 36] [Some 30; Some 0] 105 68)
    as (zs & Hzs & Hm); [discriminate|discriminate|reflexivity|].
  reflexivity.
Defined.

(** * Time windows *)

Lemma slice_bound_inside (n : nat) (i : Z) :
  (0 <= i <= Z.of_nat n)%Z -> slice_bound n i = Z.to_nat i.
Proof.
  intros H. unfold slice_bound.
  destruct (Z.ltb_spec i 0); [lia|]. f_equal. lia.
Qed.

(** X21: with [0 <= overlap < window_size] the windows start every
    [window_size - overlap] rows and each has exactly [window_size] rows;
    there are [(n - window_size) // step + 1] of them on [n >= window_size]
    rows and none on fewer, so rows after the last full window are left
    out.  With [overlap = window_size] the step is zero and [range] raises
    [ValueError]. *)
Theorem create_time_windows_shape {Row : Type} (df : list Row) (window_size overlap : Z) :
  (overlap = window_size ->
   create_time_windows df window_size overlap = Raise ValueError)
  /\ ((0 <= overlap < window_size)%Z ->
      let step := Z.to_nat (window_size - overlap) in
      let w := Z.to_nat window_size in
      exists windows : list (list Row),
        create_time_windows df window_size overlap = Return windows
        /\ length windows
           = (if (length df <? w)%nat then 0 else (length df - w) / step + 1)%nat
        /\ forall (k : nat) (window : list Row),
             windows !! k = Some window ->
             window = take w (drop (k * step) df) /\ length window = w).
Proof.
  split.
  - intros ->. unfold create_time_windows, py_range. now rewrite Z.sub_diag.
  - intros Ho step w. unfold create_time_windows, py_range.
    set (n := length df). set (s := (window_size - overlap)%Z).
    assert (Hs : (0 < s)%Z) by (unfold s; lia).
    destruct (Z.eqb_spec s 0) as [E|_]; [lia|].
    destruct (Z.ltb_spec 0 s) as [_|E]; [|lia].
    cbn [bind].
    set (count := Z.to_nat ((Z.of_nat n - window_size + 1 - 0 + s - 1) / s)).
    assert (Hstep : Z.of_nat step = s) by (unfold step; fold s; lia).
    assert (Hw : Z.of_nat w = window_size) by (unfold w; lia).
    assert (Hcount : count
                     = (if (n <? w)%nat then 0 else (n - w) / step + 1)%nat).
    { unfold count. destruct (Nat.ltb_spec n w) as [Hlt|Hge].
      - assert ((Z.of_nat n - window_size + 1 - 0 + s - 1) / s < 1)%Z; [|lia].
        apply Z.div_lt_upper_bound; lia.
      - replace (Z.of_nat n - window_size + 1 - 0 + s - 1)%Z
          with (Z.of_nat (n - w) + 1 * s)%Z by lia.
        rewrite Z.div_add by lia.
        rewrite <- Hstep, <- Nat2Z.inj_div. lia. }
    eexists. split; [reflexivity|]. split.
    + rewrite !length_map, length_seq. exact Hcount.
    + intros k window Hk. rewrite !lookup_map in Hk.
      destruct (seq 0 count !! k) as [k'|] eqn:Ek; [|discriminate].
      apply lookup_seq in Ek. destruct Ek as [-> Hlt]. simpl in Hk.
      injection Hk as <-.
      rewrite Hcount in Hlt.
      destruct (Nat.ltb_spec n w) as [?|Hge]; [lia|].
      assert (Hks : (k * step <= n - w)%nat).
      { assert (k <= (n - w) / step)%nat by lia.
        transitivity (step * ((n - w) / step))%nat; [nia|].
        apply Nat.Div0.mul_div_le. }
      unfold iloc. fold n.
      rewrite !slice_bound_inside by nia.
      unfold slice.
      replace (Z.to_nat (0 + Z.of_nat k * s)) with (k * step)%nat by nia.
      replace (Z.to_nat (0 + Z.of_nat k * s + window_size) - k * step)%nat
        with w by nia.
      split; [reflexivity|].
      rewrite length_take, length_drop. fold n. lia.
Qed.

Lemma create_time_windows_shape_witness :
  create_time_windows [1; 2; 3; 4; 5; 6; 7; 8]%nat 4 2
  = Return [[1; 2; 3; 4]; [3; 4; 5; 6]; [5; 6; 7; 8]]%nat
  /\ create_time_windows [1; 2; 3; 4; 5; 6; 7]%nat 4 1
     = Return [[1; 2; 3; 4]; [4; 5; 6; 7]]%nat
  /\ create_time_windows [1; 2; 3]%nat 4 4 = Raise ValueError.
Proof.
  split; [reflexivity|]. split; [reflexivity|].
  now apply (create_time_windows_shape [1; 2; 3]%nat 4 4).
Defined.

(** * Sorting by timestamp *)

Lemma key_le_total (a b : float) : key_le a b = false -> key_le b a = true.
Proof.
  destruct a as [x|], b as [y|]; simpl; try discriminate; auto.
  intros H. apply Qle_bool_false in H. apply Qle_bool_iff. lra.
Qed.


Lemma nondecreasing_cons (a : float) (keys : list float) :
  nondecreasing (a :: keys)
  <-> match keys with
      | [] => True
      | b :: _ => key_le a b = true /\ nondecreasing keys
      end.
Proof. destruct keys; simpl; tauto. Qed.

Lemma nondecreasing_insert_by {A : Type} (key : A -> float) (x : A) (l : list A) :
  nondecreasing (map key l) -> nondecreasing (map key (insert_by key x l)).
Proof.
  induction l as [|y l IH]; intros H; [exact I|].
  cbn [insert_by]. destruct (key_le (key x) (key y)) eqn:E.
  - cbn [map]. apply nondecreasing_cons. split; assumption.
  - apply key_le_total in E. cbn [map] in *.
    apply nondecreasing_cons in H. apply nondecreasing_cons.
    destruct l as [|z l].
    + simpl. auto.
    + cbn [map] in H. destruct H as [Hyz Hl]. specialize (IH Hl).
      cbn [insert_by] in *. destruct (key_le (key x) (key z)); cbn [map] in *.
      * split; assumption.
      * split; assumption.
Qed.

Lemma nondecreasing_sort_by {A : Type} (key : A -> float) (l : list A) :
  nondecreasing (map key (sort_by key l)).
Proof.
  unfold sort_by. induction l as [|x l IH]; [exact I|].
  simpl. now apply nondecreasing_insert_by.
Qed.

Lemma insert_by_Permutation {A : Type} (key : A -> float) (x : A) (l : list A) :
  Permutation (insert_by key x l) (x :: l).
Proof.
  induction l as [|y l IH]; simpl; [reflexivity|].
  destruct (key_le (key x) (key y)); [reflexivity|].
  rewrite IH. apply perm_swap.
Qed.

Lemma sort_by_Permutation {A : Type} (key : A -> float) (l : list A) :
  Permutation (sort_by key l) l.
Proof.
  unfold sort_by. induction l as [|x l IH]; simpl; [reflexivity|].
  now rewrite insert_by_Permutation, IH.
Qed.

(** X22: [merge_tracking_with_events] merges nothing: its result holds
    exactly the rows of the tracking table, depends on the events only
    through whether there are any, and is sorted by timestamp (NaN last)
    when there are; without events the table comes back as it is. *)
Theorem merge_tracking_with_events_rows {Row Event : Type} (timestamp : Row -> float)
    (tracking_df : list Row) (events_df : list Event) :
  let merged := merge_tracking_with_events timestamp tracking_df events_df in
  Permutation merged tracking_df
  /\ (events_df <> [] -> nondecreasing (map timestamp merged))
  /\ (events_df = [] -> merged = tracking_df)
  /\ forall other_events : list Event,
       (events_df = [] <-> other_events = []) ->
       merge_tracking_with_events timestamp tracking_df other_events = merged.
Proof.
  unfold merge_tracking_with_events.
  destruct tracking_df as [|r rows].
  - cbv zeta. split; [reflexivity|]. split; [intros _; exact I|].
    split; [reflexivity|]. intros o _. reflexivity.
  - destruct events_df as [|e events].
    + cbv zeta. split; [reflexivity|]. split; [congruence|].
      split; [reflexivity|]. intros o [H _]. now rewrite (H eq_refl).
    + split; [apply sort_by_Permutation|].
      split; [intros _; apply nondecreasing_sort_by|].
      split; [discriminate|].
      intros [|o os] [_ H]; [discriminate (H eq_refl)|reflexivity].
Qed.

(** * The detection filter by player *)

Section ByPlayer.

Context {Row : Type}.
Variable player_id : Row -> Z.
Variable is_detected : Row -> bool.

Lemma existsb_Zeqb (p : Z) (l : list Z) :
  existsb (Z.eqb p) l = true <-> In p l.
Proof.
  rewrite existsb_exists. split.
  - intros (q & Hq & E). apply Z.eqb_eq in E. now subst.
  - intros H. exists p. split; [assumption|apply Z.eqb_refl].
Qed.

Lemma kept_player (df : list Row) (min_detection_rate : Q) (r : Row) :
  In r df ->
  existsb (Z.eqb (player_id r))
          (valid_players player_id is_detected df min_detection_rate)
  = fge (detection_rate player_id is_detected df (player_id r))
        (Some min_detection_rate).
Proof.
  intros Hr.
  destruct (fge (detection_rate player_id is_detected df (player_id r))
                (Some min_detection_rate)) eqn:E.
  - apply existsb_Zeqb. unfold valid_players. apply filter_In. split; [|exact E].
    apply nodup_In, in_map. assumption.
  - destruct (existsb _ _) eqn:E'; [|reflexivity].
    apply existsb_Zeqb in E'. unfold valid_players in E'.
    apply filter_In in E'. destruct E' as [_ E']. congruence.
Qed.

End ByPlayer.

(** X23: [filter_detected_positions] keeps or drops a player as a whole:
    the rows of a player come back all, in their order, when the mean of
    [is_detected] over that player's rows is at least the threshold, and
    none of them otherwise; a table without the column comes back as it
    is. *)
Theorem filter_detected_positions_by_player {Row : Type}
    (player_id : Row -> Z) (is_detected : Row -> bool)
    (df : list Row) (min_detection_rate : Q) (p : Z) :
  List.filter (fun r => Z.eqb (player_id r) p)
    (filter_detected_positions player_id is_detected true df min_detection_rate)
  = (if fge (detection_rate player_id is_detected df p) (Some min_detection_rate)
     then List.filter (fun r => Z.eqb (player_id r) p) df
     else [])
  /\ filter_detected_positions player_id is_detected false df min_detection_rate = df.
Proof.
  split; [|reflexivity].
  unfold filter_detected_positions. cbn [negb].
  set (keep := fun r => existsb (Z.eqb (player_id r))
                          (valid_players player_id is_detected df min_detection_rate)).
  assert (H : forall l, (forall r, In r l -> In r df) ->
            List.filter (fun r => Z.eqb (player_id r) p) (List.filter keep l)
            = if fge (detection_rate player_id is_detected df p) (Some min_detection_rate)
              then List.filter (fun r => Z.eqb (player_id r) p) l
              else []).
  { induction l as [|r l IH]; intros Hl.
    - cbn [List.filter].
      now destruct (fge (detection_rate player_id is_detected df p)
                        (Some min_detection_rate)).
    - assert (IH' := IH (fun r' Hr' => Hl r' (or_intror Hr'))).
      cbn [List.filter]. unfold keep at 1.
      rewrite (kept_player player_id is_detected df min_detection_rate r)
        by (apply Hl; now left).
      destruct (Z.eqb_spec (player_id r) p) as [E|E].
      + rewrite E.
        destruct (fge (detection_rate player_id is_detected df p)
                      (Some min_detection_rate)) eqn:Ep.
        * cbn [List.filter]. rewrite <- E at 1. rewrite E, Z.eqb_refl.
          now rewrite IH'.
        * exact IH'.
      + destruct (fge (detection_rate player_id is_detected df (player_id r))
                      (Some min_detection_rate)).
        * cbn [List.filter]. destruct (Z.eqb_spec (player_id r) p); [contradiction|].
          exact IH'.
        * exact IH'. }
  apply H. auto.
Qed.

(** * The frame of [extract_player_data] *)








Section Frame.

Variable np_sqrt : Q -> Q.

(** The columns of [derive_kinematics] are as long as the track; the
    acceleration is present from three samples on. *)
Lemma derive_kinematics_lengths (smooth : bool) (t x_s y_s : list float) :
  length x_s = length t -> length y_s = length t -> (2 <= length t)%nat ->
  exists r, derive_kinematics np_sqrt smooth t x_s y_s = Return r
    /\ length (time_delta (fst r)) = length t
    /\ length (velocity_raw (fst r)) = length t
    /\ length (vx (fst r)) = length t /\ length (vy (fst r)) = length t
    /\ length (velocity (fst r)) = length t
    /\ length (velocity_kmh (fst r)) = length t
    /\ (if (2 <? length t)%nat
        then exists a, acceleration (fst r) = Some a /\ length a = length t
        else acceleration (fst r) = None).
Proof.
  intros Hx Hy Hn. unfold derive_kinematics.
  destruct (np_gradient_unit_returns t Hn) as (dt & -> & Hdt). cbn [bind].
  destruct (np_gradient_returns x_s t) as (gx & -> & Hgx); [congruence|lia|].
  destruct (np_gradient_returns y_s t) as (gy & -> & Hgy); [congruence|lia|].
  cbn [bind].
  destruct (hypot_arrays_returns np_sqrt gx gy) as (sp & -> & Hsp); [congruence|].
  cbn [bind].
  set (clipped := np_clip sp 0 (MAX_VELOCITY_KMH / 3.6)).
  assert (Hcl : length clipped = length t).
  { unfold clipped, np_clip. rewrite length_map. congruence. }
  destruct (maybe_smooth_returns (smooth && (5 <? length t)%nat) clipped t 0.2 5 2)
    as (vel & -> & Hvel); [congruence|lia|].
  cbn [bind].
  assert (Htd : forall m, length (fillna (map (fun d => if flt d (Some (1 # 10000))
                                                        then NaN else d) dt) m)
                          = length t).
  { intros m. unfold fillna. rewrite !length_map. congruence. }
  destruct (Nat.ltb_spec 2 (length t)) as [H2|H2].
  - destruct (np_gradient_returns vel t) as (acc & -> & Hacc); [congruence|lia|].
    cbn [bind].
    destruct (smooth && (5 <? length t)%nat).
    + destruct (smoothing_returns acc t 0.2 5 2) as (a & -> & Ha); [congruence|lia|].
      cbn [bind]. eexists. split; [reflexivity|].
      cbn [fst time_delta velocity_raw vx vy velocity velocity_kmh acceleration].
      unfold scalar_op. rewrite length_map, Htd.
      repeat split; try congruence. exists a. split; [reflexivity|congruence].
    + cbn [bind]. eexists. split; [reflexivity|].
      cbn [fst time_delta velocity_raw vx vy velocity velocity_kmh acceleration].
      unfold scalar_op. rewrite length_map, Htd.
      repeat split; try congruence. exists acc. split; [reflexivity|congruence].
  - cbn [bind]. eexists. split; [reflexivity|].
    cbn [fst time_delta velocity_raw vx vy velocity velocity_kmh acceleration].
    unfold scalar_op. rewrite length_map, Htd.
    repeat split; congruence.
Qed.

(** The smoother leaves a series shorter than its window as it is. *)
Lemma smoothing_short (vals ts : list float) (gap : Q) (W P : nat) :
  (length vals < W)%nat -> apply_gap_aware_smoothing vals ts gap W P = Return vals.
Proof.
  intros H. unfold apply_gap_aware_smoothing.
  destruct (Nat.ltb_spec (length vals) W); [reflexivity|lia].
Qed.

(** The whole frame: every column is a column over the sorted records,
    restricted by one mask. *)
Lemma extract_player_data_frame (raw : list raw_record)
    (include_velocity smooth : bool) (min_detection_rate : Q) :
  raw <> [] ->
  let rows := sorted_records raw in
  let n := length rows in
  exists (df : player_frame) (mask : list bool) (x y xs ys : list float)
         (kin : option kinematics),
    extract_player_data np_sqrt raw include_velocity smooth min_detection_rate
    = Return df
    /\ length mask = n
    /\ length x = n /\ length y = n /\ length xs = n /\ length ys = n
    /\ ((n < 7)%nat -> xs = x /\ ys = y)
    /\ df_frame df = select mask (map r_frame rows)
    /\ df_timestamp df = select mask (map r_timestamp rows)
    /\ df_period df = select mask (map r_period rows)
    /\ df_x df = select mask x /\ df_y df = select mask y
    /\ df_x_smooth df = select mask xs /\ df_y_smooth df = select mask ys
    /\ df_kinematics df = option_map (map_kinematics (select mask)) kin
    /\ (forall d, df_is_detected df = Some d -> length d = length (select mask x))
    /\ (kin = None <-> include_velocity && (1 <? n)%nat = false)
    /\ (forall k, kin = Some k ->
          length (time_delta k) = n /\ length (velocity_raw k) = n
          /\ length (vx k) = n /\ length (vy k) = n
          /\ length (velocity k) = n /\ length (velocity_kmh k) = n
          /\ (if (2 <? n)%nat
              then exists a, acceleration k = Some a /\ length a = n
              else acceleration k = None)).
Proof.
  intros Hne rows n.
  pose proof (sorted_records_nonempty raw Hne) as Hrows. fold rows in Hrows.
  assert (Hn : (0 < n)%nat) by (unfold n; destruct rows; simpl; [congruence|lia]).
  unfold extract_player_data.
  destruct raw as [|r0 raw']; [congruence|].
  set (raw := r0 :: raw') in *. fold rows. fold n.
  destruct (Nat.ltb_spec 0 n) as [_|]; [|lia].
  destruct (rescale_positions (map r_x rows) (map r_y rows)) as [[x y] log1] eqn:Exyl.
  assert (Hxy : length x = n /\ length y = n).
  { unfold rescale_positions in Exyl.
    destruct (flt _ _); injection Exyl as <- <- <-;
      unfold scalar_op; rewrite ?length_map; auto. }
  destruct Hxy as [Hx Hy].
  assert (Ht : length (map r_timestamp rows) = n) by apply length_map.
  set (t := map r_timestamp rows) in *.
  assert (Hsm : forall v : list float, length v = n ->
            exists vs,
              (if smooth && (5 <? n)%nat
               then apply_gap_aware_smoothing v t 0.2 SMOOTHING_WINDOW_SIZE
                                              SMOOTHING_POLY_ORDER
               else Return v) = Return vs
              /\ length vs = n /\ ((n < 7)%nat -> vs = v)).
  { intros v Hv.
    destruct (maybe_smooth_returns (smooth && (5 <? n)%nat) v t 0.2
                SMOOTHING_WINDOW_SIZE SMOOTHING_POLY_ORDER)
      as (vs & Hvs & Hl); [congruence|unfold SMOOTHING_WINDOW_SIZE; lia|].
    exists vs. split; [exact Hvs|]. split; [congruence|].
    intros H7. destruct (smooth && (5 <? n)%nat); [|congruence].
    rewrite smoothing_short in Hvs by (unfold SMOOTHING_WINDOW_SIZE; lia).
    congruence. }
  destruct (Hsm x Hx) as (xs & -> & Hxs & Hxs7).
  destruct (Hsm y Hy) as (ys & -> & Hys & Hys7).
  cbn [bind].
  assert (Hkin : exists kin,
             (if include_velocity && (1 <? n)%nat
              then let* k := derive_kinematics np_sqrt smooth t xs ys in
                   Return (Some (fst k), snd k)
              else Return (None, [])) = Return kin
             /\ (fst kin = None <-> include_velocity && (1 <? n)%nat = false)
             /\ (forall k, fst kin = Some k ->
                   length (time_delta k) = n /\ length (velocity_raw k) = n
                   /\ length (vx k) = n /\ length (vy k) = n
                   /\ length (velocity k) = n /\ length (velocity_kmh k) = n
                   /\ (if (2 <? n)%nat
                       then exists a, acceleration k = Some a /\ length a = n
                       else acceleration k = None))).
  { destruct (include_velocity && (1 <? n)%nat) eqn:Eiv.
    - apply andb_true_iff in Eiv. destruct Eiv as [_ E1]. apply Nat.ltb_lt in E1.
      destruct (derive_kinematics_lengths smooth t xs ys) as (k & -> & Hk);
        try congruence; [lia|]. cbn [bind].
      rewrite Ht in Hk.
      eexists. split; [reflexivity|]. cbn [fst]. split; [split; discriminate|].
      intros k0 [= <-]. exact Hk.
    - eexists. split; [reflexivity|]. cbn [fst]. split; [tauto|]. discriminate. }
  destruct Hkin as (kin & -> & Hnone & Hlen). cbn [bind andb].
  assert (Hall : forall k, fst kin = Some k ->
            map_kinematics (select (repeat true n)) k = k).
  { intros k Hk. destruct (Hlen k Hk) as (L1 & L2 & L3 & L4 & L5 & L6 & L7).
    destruct k as [c1 c2 c3 c4 c5 c6 c7]. unfold map_kinematics.
    cbn [time_delta velocity_raw vx vy velocity velocity_kmh acceleration] in *.
    rewrite <- L1 at 1. rewrite <- L2 at 1. rewrite <- L3 at 1. rewrite <- L4 at 1.
    rewrite <- L5 at 1. rewrite <- L6 at 1. rewrite !select_all.
    destruct (2 <? n)%nat.
    - destruct L7 as (a & -> & La). cbn [option_map]. rewrite <- La, select_all.
      reflexivity.
    - rewrite L7. reflexivity. }
  assert (Hsel : forall (A : Type) (c : list A), length c = n ->
            c = select (repeat true n) c).
  { intros A c Hc. rewrite <- Hc. symmetry. apply select_all. }
  assert (Hkin_all : fst kin
                     = option_map (map_kinematics (select (repeat true n))) (fst kin)).
  { destruct (fst kin) as [k|] eqn:Ek; [|reflexivity].
    cbn [option_map]. now rewrite (Hall k eq_refl). }
  assert (Hdet : length (select (zip2 (fun a b => negb (isnan a || isnan b)) x y)
                                (zip2 (fun a b => negb (isnan a || isnan b)) x y))
                 = length (select (zip2 (fun a b => negb (isnan a || isnan b)) x y) x)).
  { set (m := zip2 (fun a b => negb (isnan a || isnan b)) x y).
    assert (Hm : length m = length x) by (unfold m; rewrite length_zip2; lia).
    clearbody m. clear -Hm. revert x Hm.
    induction m as [|b m IH]; intros [|v x] Hm; try discriminate; simpl; auto.
    injection Hm as Hm. destruct b; simpl; [f_equal|]; now apply IH. }
  assert (H7 : (n < 7)%nat -> xs = x /\ ys = y) by (intros H7; split; auto).
  destruct (Qlt_bool 0 min_detection_rate).
  - destruct (flt _ _).
    + eexists _, (zip2 (fun a b => negb (isnan a || isnan b)) x y), x, y, xs, ys,
        (fst kin).
      split; [reflexivity|].
      cbn [df_frame df_timestamp df_period df_x df_y df_x_smooth df_y_smooth
           df_kinematics df_is_detected].
      split; [rewrite length_zip2; lia|].
      do 4 (split; [assumption|]). split; [exact H7|].
      do 8 (split; [reflexivity|]).
      split; [intros d [= <-]; exact Hdet|].
      split; [exact Hnone|exact Hlen].
    + eexists _, (repeat true n), x, y, xs, ys, (fst kin).
      split; [reflexivity|].
      cbn [df_frame df_timestamp df_period df_x df_y df_x_smooth df_y_smooth
           df_kinematics df_is_detected].
      split; [apply repeat_length|].
      do 4 (split; [assumption|]). split; [exact H7|].
      do 7 (split; [apply Hsel; rewrite ?length_map; auto|]).
      split; [exact Hkin_all|].
      split; [intros d [= <-]; rewrite <- (Hsel _ x Hx), length_zip2; lia|].
      split; [exact Hnone|exact Hlen].
  - eexists _, (repeat true n), x, y, xs, ys, (fst kin).
    split; [reflexivity|].
    cbn [df_frame df_timestamp df_period df_x df_y df_x_smooth df_y_smooth
         df_kinematics df_is_detected].
    split; [apply repeat_length|].
    do 4 (split; [assumption|]). split; [exact H7|].
    do 7 (split; [apply Hsel; rewrite ?length_map; auto|]).
    split; [exact Hkin_all|].
    split; [discriminate|].
    split; [exact Hnone|exact Hlen].
Qed.

End Frame.

Lemma length_select {A : Type} (mask : list bool) (a : list A) :
  length mask = length a ->
  length (select mask a) = length (List.filter (fun b : bool => b) mask).
Proof.
  revert a; induction mask as [|b mask IH]; intros [|v a] H; try discriminate;
    simpl; auto.
  injection H as H. destruct b; simpl; [f_equal|]; now apply IH.
Qed.

(** X24: the columns of the frame stay aligned: whatever the detection
    filter drops, it drops from every column, so the positions, the
    smoothed positions, the kinematic columns (the acceleration when there
    is one) and [is_detected] all have as many entries as there are
    timestamps. *)
Theorem extract_player_data_aligned (np_sqrt : Q -> Q) (raw : list raw_record)
    (include_velocity smooth : bool) (min_detection_rate : Q) :
  raw <> [] ->
  exists df : player_frame,
    extract_player_data np_sqrt raw include_velocity smooth min_detection_rate
    = Return df
    /\ let m := length (df_timestamp df) in
       length (df_frame df) = m /\ length (df_period df) = m
       /\ length (df_x df) = m /\ length (df_y df) = m
       /\ length (df_x_smooth df) = m /\ length (df_y_smooth df) = m
       /\ (forall k, df_kinematics df = Some k ->
             length (time_delta k) = m /\ length (velocity_raw k) = m
             /\ length (vx k) = m /\ length (vy k) = m
             /\ length (velocity k) = m /\ length (velocity_kmh k) = m
             /\ forall a, acceleration k = Some a -> length a = m)
       /\ (forall d, df_is_detected df = Some d -> length d = m).
Proof.
  intros Hne.
  destruct (extract_player_data_frame np_sqrt raw include_velocity smooth
              min_detection_rate Hne)
    as (df & mask & x & y & xs & ys & kin & Hdf & Hmask & Hx & Hy & Hxs & Hys & _
        & Hf & Ht & Hp & Hdx & Hdy & Hdxs & Hdys & Hk & Hd & _ & Hlen).
  exists df. split; [exact Hdf|]. cbv zeta.
  assert (Hsel : forall (A : Type) (c : list A),
            length c = length (sorted_records raw) ->
            length (select mask c) = length (df_timestamp df)).
  { intros A c Hc. rewrite Ht, !length_select; rewrite ?length_map; congruence. }
  rewrite Hf, Hp, Hdx, Hdy, Hdxs, Hdys.
  do 6 (split; [apply Hsel; rewrite ?length_map; auto|]).
  split.
  - intros k Hk'. rewrite Hk in Hk'. destruct kin as [k0|]; [|discriminate].
    injection Hk' as <-. destruct (Hlen k0 eq_refl) as (L1 & L2 & L3 & L4 & L5 & L6 & L7).
    unfold map_kinematics.
    cbn [time_delta velocity_raw vx vy velocity velocity_kmh acceleration].
    do 6 (split; [now apply Hsel|]).
    intros a Ha. destruct (acceleration k0) as [a0|] eqn:Ea; [|discriminate].
    cbn [option_map] in Ha. injection Ha as <-.
    destruct (2 <? length (sorted_records raw))%nat; [|discriminate].
    destruct L7 as (a1 & [= <-] & La). now apply Hsel.
  - intros d Hd'. rewrite (Hd d Hd'). now apply Hsel.
Qed.

Lemma extract_player_data_aligned_witness :
  exists df : player_frame,
    extract_player_data sqrt_dyadic glitch_track true true 0.95 = Return df
    /\ length (df_x_smooth df) = length (df_timestamp df)
    /\ forall k, df_kinematics df = Some k ->
         length (velocity_kmh k) = length (df_timestamp df).
Proof.
  destruct (extract_player_data_aligned sqrt_dyadic glitch_track true true 0.95)
    as (df & Hdf & H); [discriminate|].
  cbv zeta in H. exists df. split; [exact Hdf|]. split; [tauto|].
  intros k Hk. destruct H as (_ & _ & _ & _ & _ & _ & H & _).
  destruct (H k Hk) as (_ & _ & _ & _ & _ & H6 & _). exact H6.
Defined.



(** X26: the kinematic columns need two distinct timestamps and the
    acceleration three: with [n] the number of distinct timestamps of the
    records, the frame has no kinematic columns exactly when velocity was
    not asked for or [n <= 1], and kinematic columns without acceleration
    exactly when [n = 2]. *)
Theorem kinematics_need_samples (np_sqrt : Q -> Q) (raw : list raw_record)
    (include_velocity smooth : bool) (min_detection_rate : Q) :
  raw <> [] ->
  let n := length (sorted_records raw) in
  exists df : player_frame,
    extract_player_data np_sqrt raw include_velocity smooth min_detection_rate
    = Return df
    /\ (df_kinematics df = None <-> include_velocity = false \/ (n <= 1)%nat)
    /\ forall k, df_kinematics df = Some k ->
         (acceleration k = None <-> (n <= 2)%nat).
Proof.
  intros Hne n.
  destruct (extract_player_data_frame np_sqrt raw include_velocity smooth
              min_detection_rate Hne)
    as (df & mask & x & y & xs & ys & kin & Hdf & _ & _ & _ & _ & _ & _
        & _ & _ & _ & _ & _ & _ & _ & Hk & _ & Hnone & Hlen).
  fold n in Hnone, Hlen. exists df. split; [exact Hdf|]. rewrite Hk. split.
  - destruct kin as [k|]; cbn [option_map].
    + split; [discriminate|]. intros H.
      assert (E : include_velocity && (1 <? n)%nat = false).
      { destruct H as [->|H]; [reflexivity|].
        apply andb_false_iff. right. apply Nat.ltb_ge. exact H. }
      apply Hnone in E. discriminate.
    + split; [|reflexivity]. intros _.
      destruct Hnone as [Hnone _]. specialize (Hnone eq_refl).
      apply andb_false_iff in Hnone. destruct Hnone as [H|H]; [now left|right].
      now apply Nat.ltb_ge.
  - intros k Hk'. destruct kin as [k0|]; [|discriminate].
    cbn [option_map] in Hk'. injection Hk' as <-.
    destruct (Hlen k0 eq_refl) as (_ & _ & _ & _ & _ & _ & L7).
    unfold map_kinematics. cbn [acceleration].
    destruct (Nat.ltb_spec 2 n) as [H2|H2].
    + destruct L7 as (a & -> & _). cbn [option_map]. split; [discriminate|lia].
    + rewrite L7. cbn [option_map]. split; [intros _; exact H2|reflexivity].
Qed.

Lemma kinematics_need_samples_witness :
  exists (df : player_frame) (k : kinematics),
    extract_player_data sqrt_dyadic
      [mk_raw 0 (Some 0) 1 (Some 3) (Some 4); mk_raw 1 (Some 0.1) 1 (Some 3) (Some 5);
       mk_raw 2 (Some 0.1) 1 (Some 9) (Some 9)] true true 0.95
    = Return df
    /\ df_kinematics df = Some k /\ acceleration k = None.
Proof.
  destruct (kinematics_need_samples sqrt_dyadic
              [mk_raw 0 (Some 0) 1 (Some 3) (Some 4); mk_raw 1 (Some 0.1) 1 (Some 3) (Some 5);
               mk_raw 2 (Some 0.1) 1 (Some 9) (Some 9)] true true 0.95)
    as (df & Hdf & Hnone & Hacc); [discriminate|].
  destruct (df_kinematics df) as [k|] eqn:Ek.
  - exists df, k. split; [exact Hdf|]. split; [exact Ek|].
    destruct (Hacc k eq_refl) as [_ H]. apply H. vm_compute. lia.
  - exfalso. destruct Hnone as [Hnone _]. destruct (Hnone eq_refl) as [H|H];
      [discriminate|]. vm_compute in H. lia.
Defined.

(** X27: a track of fewer than seven distinct timestamps keeps its
    positions: [x_smooth] and [y_smooth] are the columns [x] and [y]
    themselves, although smoothing is asked for from six samples on (the
    smoother returns a series shorter than its window of 7 as it is). *)
Theorem short_track_positions_unsmoothed (np_sqrt : Q -> Q) (raw : list raw_record)
    (include_velocity smooth : bool) (min_detection_rate : Q) :
  raw <> [] -> (length (sorted_records raw) < 7)%nat ->
  exists df : player_frame,
    extract_player_data np_sqrt raw include_velocity smooth min_detection_rate
    = Return df
    /\ df_x_smooth df = df_x df /\ df_y_smooth df = df_y df.
Proof.
  intros Hne H7.
  destruct (extract_player_data_frame np_sqrt raw include_velocity smooth
              min_detection_rate Hne)
    as (df & mask & x & y & xs & ys & kin & Hdf & _ & _ & _ & _ & _ & Hshort
        & _ & _ & _ & Hdx & Hdy & Hdxs & Hdys & _).
  destruct (Hshort H7) as [-> ->].
  exists df. split; [exact Hdf|]. now rewrite Hdx, Hdy, Hdxs, Hdys.
Qed.

Lemma short_track_positions_unsmoothed_witness :
  exists df : player_frame,
    extract_player_data sqrt_dyadic glitch_track true true 0.95 = Return df
    /\ df_x_smooth df = df_x df /\ df_y_smooth df = df_y df.
Proof.
  apply (short_track_positions_unsmoothed sqrt_dyadic glitch_track true true 0.95).
  - discriminate.
  - vm_compute. lia.
Defined.

(** * Interpolation with a limit *)








(** * Duels and possession splits *)

Lemma length_select_le {A : Type} (mask : list bool) (a : list A) :
  (length (select mask a) <= length a)%nat.
Proof.
  revert a; induction mask as [|b mask IH]; intros [|v a]; simpl; try lia.
  specialize (IH a). destruct b; simpl; lia.
Qed.

Lemma select_map_holds {A : Type} (p : A -> bool) (l : list A) :
  Forall (fun v => p v = true) (select (map p l) l).
Proof.
  induction l as [|v l IH]; simpl; [constructor|].
  destruct (p v) eqn:E; [constructor|]; assumption.
Qed.

Lemma of_nat_le (n m : nat) : (n <= m)%nat -> of_nat n <= of_nat m.
Proof. intros H. unfold of_nat. rewrite <- Zle_Qle. lia. Qed.

(** X29: the minutes of a duel and its frames agree: the minutes are the
    number of returned frames over [fps] over 60, every returned frame has
    the two players at most [threshold] apart, and a table without one of
    the four columns, or without a frame in reach, gives zero minutes and
    an empty frame list. *)
Theorem proximity_stats_consistent (np_sqrt : Q -> Q)
    (tracking_df : gmap string (list float)) (p1_id p2_id : Z) (threshold fps : Q) :
  ~ fps == 0 ->
  exists (minutes : Q) (plot : proximity_plot),
    calculate_proximity_stats np_sqrt tracking_df p1_id p2_id threshold fps
    = Return (Some minutes, plot)
    /\ minutes * fps * 60 == of_nat (length (plot_distance plot))
    /\ Forall (fun d => fle d (Some threshold) = true) (plot_distance plot)
    /\ (tracking_df !! (str_of_int p1_id ++ "_x")%string = None ->
        minutes = 0 /\ plot = empty_plot).
Proof.
  intros Hfps. unfold calculate_proximity_stats.
  assert (Hzero : exists (minutes : Q) (plot : proximity_plot),
            Return (Some 0, empty_plot) = Return (Some minutes, plot)
            /\ minutes * fps * 60 == of_nat (length (plot_distance plot))
            /\ Forall (fun d => fle d (Some threshold) = true) (plot_distance plot)
            /\ minutes = 0 /\ plot = empty_plot).
  { exists 0, empty_plot. split; [reflexivity|].
    split; [change (0 * fps * 60 == 0); ring|].
    split; [constructor|]. auto. }
  assert (Hz : forall P : Prop,
            exists (minutes : Q) (plot : proximity_plot),
              Return (Some 0, empty_plot) = Return (Some minutes, plot)
              /\ minutes * fps * 60 == of_nat (length (plot_distance plot))
              /\ Forall (fun d => fle d (Some threshold) = true) (plot_distance plot)
              /\ (P -> minutes = 0 /\ plot = empty_plot)).
  { intros P. destruct Hzero as (m & p & H1 & H2 & H3 & H4).
    exists m, p. repeat split; auto; tauto. }
  destruct (tracking_df !! (str_of_int p1_id ++ "_x")%string) as [x1|]; [|apply Hz].
  destruct (tracking_df !! (str_of_int p1_id ++ "_y")%string) as [y1|]; [|apply Hz].
  destruct (tracking_df !! (str_of_int p2_id ++ "_x")%string) as [x2|]; [|apply Hz].
  destruct (tracking_df !! (str_of_int p2_id ++ "_y")%string) as [y2|]; [|apply Hz].
  destruct (negb (existsb _ _)); [apply Hz|].
  destruct (negb (existsb _ _)); [apply Hz|].
  destruct (Qeq_bool fps 0) eqn:E; [apply Qeq_bool_iff in E; contradiction|].
  eexists _, _. split; [reflexivity|]. cbn [plot_distance].
  split; [field; assumption|]. split; [apply select_map_holds|discriminate].
Qed.

Lemma proximity_stats_consistent_witness :
  exists (minutes : Q) (plot : proximity_plot),
    calculate_proximity_stats sqrt_dyadic
      (<["7_x"%string := [Some 0; Some 0; NaN]]>
         (<["7_y"%string := [Some 0; Some 0; Some 0]]>
            (<["9_x"%string := [Some 3; Some 30; Some 1]]>
               (<["9_y"%string := [Some 4; Some 40; Some 1]]> ∅))))
      7 9 8 10
    = Return (Some minutes, plot)
    /\ minutes * 10 * 60 == 1
    /\ plot_distance plot = [Some 5].
Proof.
  destruct (proximity_stats_consistent sqrt_dyadic
              (<["7_x"%string := [Some 0; Some 0; NaN]]>
                 (<["7_y"%string := [Some 0; Some 0; Some 0]]>
                    (<["9_x"%string := [Some 3; Some 30; Some 1]]>
                       (<["9_y"%string := [Some 4; Some 40; Some 1]]> ∅))))
              7 9 8 10)
    as (minutes & plot & H & Hm & _); [discriminate|].
  exists minutes, plot. split; [exact H|].
  vm_compute in H. injection H as <- <-. split; reflexivity.
Defined.

(** The sum over the rows of one mask that also pass a second one is at
    most the sum over the rows of the first mask, the entries being
    non-negative. *)
Lemma sum_select_nonneg (m : list bool) (l : list float) :
  (forall v, In v l -> exists q, v = Some q /\ 0 <= q) ->
  forall t0 : Q, exists t : Q,
    fold_left fadd (select m l) (Some t0) = Some t /\ t0 <= t.
Proof.
  revert l; induction m as [|b m IH]; intros [|v l] Hl t0;
    try (exists t0; split; [reflexivity|lra]).
  assert (Hl' : forall u, In u l -> exists q, u = Some q /\ 0 <= q)
    by (intros u Hu; apply Hl; now right).
  destruct (Hl v (or_introl eq_refl)) as (q & -> & Hq).
  simpl. destruct b; simpl.
  - destruct (IH l Hl' (t0 + q)) as (t & Ht & Hle). exists t. split; [exact Ht|lra].
  - now apply IH.
Qed.

Lemma sum_select_and (m f : list bool) (l : list float) :
  (forall v, In v l -> exists q, v = Some q /\ 0 <= q) ->
  forall s0 t0 : Q, s0 <= t0 ->
    exists s t : Q,
      fold_left fadd (select (zip2 andb m f) l) (Some s0) = Some s
      /\ fold_left fadd (select m l) (Some t0) = Some t
      /\ s0 <= s /\ s <= t.
Proof.
  revert f l; induction m as [|b m IH]; intros f l Hl s0 t0 H0.
  - exists s0, t0. simpl. repeat split; auto; lra.
  - destruct l as [|v l].
    + exists s0, t0. destruct f; simpl; repeat split; auto; lra.
    + destruct f as [|c f].
      * destruct (sum_select_nonneg (b :: m) (v :: l) Hl t0) as (t & Ht & Hle).
        exists s0, t. simpl in *. repeat split; auto; lra.
      * assert (Hl' : forall u, In u l -> exists q, u = Some q /\ 0 <= q)
          by (intros u Hu; apply Hl; now right).
        destruct (Hl v (or_introl eq_refl)) as (q & -> & Hq).
        simpl. destruct b, c; simpl.
        -- destruct (IH f l Hl' (s0 + q) (t0 + q)) as (s & t & Hs & Ht & H1 & H2);
             [lra|]. exists s, t. repeat split; auto; lra.
        -- destruct (IH f l Hl' s0 (t0 + q)) as (s & t & Hs & Ht & H1 & H2);
             [lra|]. exists s, t. repeat split; auto.
        -- now apply IH.
        -- now apply IH.
Qed.

Section Splits.

Variable np_sqrt : Q -> Q.
Hypothesis np_sqrt_nonneg : forall q : Q, 0 <= np_sqrt q.

(** A counted step is a length between 0 and 1.2 m. *)
Lemma step_dist_range (a b : list float) (v : float) :
  In v (fillna (map (fun d => if fgt d (Some 1.2) then Some 0 else d)
                    (map (fsqrt np_sqrt) (zip2 fadd (map square a) (map square b))))
               (Some 0)) ->
  exists q, v = Some q /\ 0 <= q /\ q <= 1.2.
Proof.
  unfold fillna. rewrite !map_map. intros H. apply in_map_iff in H.
  destruct H as (s & <- & _).
  destruct (fsqrt np_sqrt s) as [r|] eqn:E.
  - apply (fsqrt_nonneg np_sqrt np_sqrt_nonneg) in E.
    cbn [fgt flt]. destruct (Qlt_bool 1.2 r) eqn:E'; cbn [isnan].
    + exists 0. split; [reflexivity|]. lra.
    + exists r. split; [reflexivity|]. split; [assumption|].
      destruct (Qlt_le_dec 1.2 r) as [H|H]; [|assumption].
      apply Qlt_bool_iff in H. congruence.
  - cbn [fgt flt isnan]. exists 0. split; [reflexivity|]. lra.
Qed.

End Splits.

Lemma select_and_none {A : Type} (m f : list bool) (l : list A) :
  Forall (fun b => b = false) m ->
  select m l = [] /\ select (zip2 andb m f) l = [].
Proof.
  intros H. revert f l. induction H as [|b m -> _ IH]; intros f l.
  - split; reflexivity.
  - destruct l as [|v l]; [split; [reflexivity|destruct f; reflexivity]|].
    destruct (IH f l) as [H1 _]. destruct f as [|c f]; [split; [exact H1|reflexivity]|].
    destruct (IH f l) as [_ H2]. split; [exact H1|exact H2].
Qed.

Lemma Forall_map_select {A : Type} (g : A -> bool) (mask : list bool) (l : list A) :
  Forall (fun o => g o = false) l ->
  Forall (fun b => b = false) (map g (select mask l)).
Proof.
  intros H. apply List.Forall_forall. intros b Hb. apply in_map_iff in Hb.
  destruct Hb as (o & <- & Ho). apply In_select in Ho.
  rewrite List.Forall_forall in H. now apply H.
Qed.

(** X30: the possession splits count no step longer than 1.2 m and are
    never NaN: the two distances (in km) and the two sprint sums (which
    the function leaves in metres) are non-negative, and each stands for at
    most 1.2 m per row.  The in-possession pair is 0 when no row has the
    ball with [team_id], the out-of-possession pair is 0 when every row
    has it with [team_id], with no team (NaN) or with [-1].  (The square
    root is taken non-negative.) *)
Theorem split_stats_bounds (np_sqrt : Q -> Q)
    (tracking_df : gmap string (list float)) (player_id team_id : Z) (fps : Q)
    (x owner : list float) :
  (forall q : Q, 0 <= np_sqrt q) ->
  tracking_df !! (str_of_int player_id ++ "_x")%string = Some x ->
  tracking_df !! "ball_owning_team_id"%string = Some owner ->
  exists d_in d_out s_in s_out : Q,
    calculate_split_physical_stats np_sqrt tracking_df player_id team_id fps
    = mk_split (Some d_in) (Some d_out) (Some s_in) (Some s_out)
    /\ 0 <= d_in /\ 0 <= d_out /\ 0 <= s_in /\ 0 <= s_out
    /\ 1000 * d_in <= 1.2 * of_nat (length x)
    /\ 1000 * d_out <= 1.2 * of_nat (length x)
    /\ s_in <= 1.2 * of_nat (length x)
    /\ s_out <= 1.2 * of_nat (length x)
    /\ (Forall (fun o => eq_int o team_id = false) owner ->
        d_in == 0 /\ s_in == 0)
    /\ (Forall (fun o => negb (eq_int o team_id) && negb (isnan o)
                         && negb (eq_int o (-1)) = false) owner ->
        d_out == 0 /\ s_out == 0).
Proof.
  intros Hsqrt Hx Howner. unfold calculate_split_physical_stats.
  rewrite Hx, Howner.
  assert (Hn : 0 <= 1.2 * of_nat (length x)).
  { apply Qmult_le_0_compat; [discriminate|].
    change 0 with (of_nat 0). apply of_nat_le. lia. }
  assert (Hzero : exists d_in d_out s_in s_out : Q,
            mk_split (Some 0) (Some 0) (Some 0) (Some 0)
            = mk_split (Some d_in) (Some d_out) (Some s_in) (Some s_out)
            /\ 0 <= d_in /\ 0 <= d_out /\ 0 <= s_in /\ 0 <= s_out
            /\ 1000 * d_in <= 1.2 * of_nat (length x)
            /\ 1000 * d_out <= 1.2 * of_nat (length x)
            /\ s_in <= 1.2 * of_nat (length x)
            /\ s_out <= 1.2 * of_nat (length x)
            /\ (Forall (fun o => eq_int o team_id = false) owner ->
                d_in == 0 /\ s_in == 0)
            /\ (Forall (fun o => negb (eq_int o team_id) && negb (isnan o)
                                 && negb (eq_int o (-1)) = false) owner ->
                d_out == 0 /\ s_out == 0)).
  { exists 0, 0, 0, 0. split; [reflexivity|].
    do 4 (split; [apply Qle_refl|]).
    do 4 (split; [lra|]).
    split; intros _; split; reflexivity. }
  destruct (tracking_df !! (str_of_int player_id ++ "_y")%string) as [y|];
    [|exact Hzero].
  set (present := zip2 (fun a b => negb (isnan a) && negb (isnan b)) x y).
  destruct (length (select present x) =? 0)%nat; [exact Hzero|].
  set (step := fillna _ (Some 0)).
  assert (Hstep : forall v, In v step -> exists q, v = Some q /\ 0 <= q /\ q <= 1.2)
    by (intros v; apply step_dist_range; assumption).
  assert (Hlen : (length step <= length x)%nat).
  { unfold step, fillna. rewrite !length_map, length_zip2, !length_map.
    assert (Hd : length (series_diff (select present x)) = length (select present x))
      by (destruct (select present x) as [|u l]; [reflexivity|];
          unfold series_diff; cbn [length]; rewrite length_np_diff;
          cbn [length]; lia).
    rewrite Hd. pose proof (length_select_le present x). lia. }
  set (fast := map (fun v => fgt v (Some 5.5)) (scalar_op fmul step fps)).
  assert (Hsum : forall mask : list bool,
            exists t : Q,
              np_sum (select mask step) = Some t
              /\ 0 <= t /\ t <= 1.2 * of_nat (length x)).
  { intros mask.
    destruct (fold_fadd_bounds (select mask step) 0 1.2) with (a := 0)
      as (t & Ht & Hlo & Hup).
    { intros v Hv. apply In_select in Hv. auto. }
    exists t. split; [exact Ht|].
    assert (Hl : of_nat (length (select mask step)) <= of_nat (length x)).
    { apply of_nat_le. pose proof (length_select_le mask step). lia. }
    assert (0 <= of_nat (length (select mask step)))
      by (change 0 with (of_nat 0); apply of_nat_le; lia).
    split; [lra|nra]. }
  assert (Hside : forall mask : list bool,
            exists d s : Q,
              fdiv (np_sum (select mask step)) (Some 1000) = Some d
              /\ np_sum (select (zip2 andb mask fast) step) = Some s
              /\ 0 <= d /\ 0 <= s
              /\ 1000 * d <= 1.2 * of_nat (length x)
              /\ s <= 1.2 * of_nat (length x)
              /\ (Forall (fun b => b = false) mask -> d == 0 /\ s == 0)).
  { intros mask.
    destruct (Hsum mask) as (t & Ht & Ht0 & Htn).
    destruct (Hsum (zip2 andb mask fast)) as (s & Hs & Hs0 & Hsn).
    exists (t / 1000), s. rewrite Ht. split; [reflexivity|]. split; [exact Hs|].
    assert (E : 1000 * (t / 1000) == t) by field.
    split; [apply Qle_shift_div_l; [reflexivity|lra]|].
    split; [exact Hs0|]. split; [rewrite E; exact Htn|]. split; [exact Hsn|].
    intros Hnone. destruct (select_and_none mask fast step Hnone) as [E1 E2].
    rewrite E1 in Ht. rewrite E2 in Hs.
    injection Ht as <-. injection Hs as <-. split; reflexivity. }
  destruct (Hside (map (fun o => eq_int o team_id) (select present owner)))
    as (d_in & s_in & Hd_in & Hs_in & H1 & H2 & H3 & H4 & H5).
  destruct (Hside (map (fun o => negb (eq_int o team_id) && negb (isnan o)
                                 && negb (eq_int o (-1))) (select present owner)))
    as (d_out & s_out & Hd_out & Hs_out & H6 & H7 & H8 & H9 & H10).
  exists d_in, d_out, s_in, s_out.
  split; [fold step; fold fast; now rewrite Hd_in, Hd_out, Hs_in, Hs_out|].
  do 8 (split; [assumption|]).
  split; intros Hall; [apply H5|apply H10];
    apply (Forall_map_select _ present owner Hall).
Qed.

Lemma split_stats_bounds_witness :
  exists d_in d_out s_in s_out : Q,
    calculate_split_physical_stats sqrt_dyadic
      (<["7_x"%string := [Some 0; Some 0.6; Some 0.6; Some 40]]>
         (<["7_y"%string := [Some 0; Some 0.8; Some 0.8; Some 0]]>
            (<["ball_owning_team_id"%string := [Some 1; Some 1; NaN; Some (-1)]]> ∅)))
      7 1 10
    = mk_split (Some d_in) (Some d_out) (Some s_in) (Some s_out)
    /\ d_in == 0.001 /\ s_in == 1 /\ d_out == 0 /\ s_out == 0.
Proof.
  destruct (split_stats_bounds sqrt_dyadic
              (<["7_x"%string := [Some 0; Some 0.6; Some 0.6; Some 40]]>
                 (<["7_y"%string := [Some 0; Some 0.8; Some 0.8; Some 0]]>
                    (<["ball_owning_team_id"%string
                       := [Some 1; Some 1; NaN; Some (-1)]]> ∅)))
              7 1 10 [Some 0; Some 0.6; Some 0.6; Some 40]
              [Some 1; Some 1; NaN; Some (-1)] sqrt_dyadic_nonneg)
    as (d_in & d_out & s_in & s_out & H & _ & _ & _ & _ & _ & _ & _ & _ & _ & Hout);
    [reflexivity|reflexivity|].
  exists d_in, d_out, s_in, s_out. split; [exact H|].
  destruct Hout as [Hd Hs]; [repeat constructor|].
  vm_compute in H. injection H as <- _ <- _.
  split; [reflexivity|]. split; [reflexivity|]. split; assumption.
Defined.
